(** * SonicTag: the DeepSeal watermarking core, its FEC and its stream adapter

    A shallow embedding of [src/sonictag/fec.py], [src/sonictag/deepseal.py]
    and [src/sonictag/realtime.py].

    - Python integers are [Z]; numpy integer arrays are [list Z].
    - Audio samples are floating-point numbers.  Their arithmetic is kept
      abstract: the numpy/scipy kernels the source calls are the fields of
      the class [Kernel], constrained only by the laws of [KernelLaws]
      (shapes of results, ranges of random integers).
    - Exceptions are the [Raise] branch of [result]. *)

From Stdlib Require Import ZArith List Lia String Ascii.
From stdpp Require Import base option list gmap sorting.

Local Open Scope Z_scope.

(** ** Exceptions *)

Inductive exn : Set :=
| InvalidId            (* ValueError: Watermark ID exceeds 28 bits capacity *)
| HostTooShort         (* ValueError: Audio file is too short *)
| MalformedFecLength   (* ValueError: length must be a multiple of 4 / 7 *)
| OverflowError        (* int.to_bytes on a negative or too large integer *)
| ZeroDivisionError    (* float division by zero *)
| NegativeDimensions   (* numpy: negative dimensions are not allowed *)
| EmptyConcatenate     (* numpy: need at least one array to concatenate *)
| ShapeMismatch        (* numpy: operands could not be broadcast together *)
| IndexError           (* numpy: index out of bounds *)
| EmptySequence        (* numpy: argmax of an empty sequence *)
| FilterDesignError    (* scipy: critical frequencies must be 0 < Wn < 1 *)
| SeedOutOfRange.      (* numpy: Seed must be between 0 and 2**32 - 1 *)

Inductive result (A : Type) : Type :=
| Return (a : A)
| Raise (e : exn).
Arguments Return {A} a.
Arguments Raise {A} e.

#[global] Instance result_ret : MRet result := @Return.
#[global] Instance result_bind : MBind result :=
  λ A B f r, match r with Return a => f a | Raise e => Raise e end.
#[global] Instance result_fmap : FMap result :=
  λ A B f r, match r with Return a => Return (f a) | Raise e => Raise e end.

Definition is_Return {A} (r : result A) : Prop := ∃ a, r = Return a.

(** ** fec.py *)

Module FEC.

(** [FEC.crc8]: polynomial 0x07, one byte at a time, eight shifts per byte. *)
Definition crc8_step (crc : Z) : Z :=
  Z.land
    (if Z.eqb (Z.land crc 0x80) 0
     then Z.shiftl crc 1
     else Z.lxor (Z.shiftl crc 1) 0x07)
    0xFF.

Definition crc8 (data_bytes : list Z) : Z :=
  fold_left (λ crc b, Nat.iter 8 crc8_step (Z.lxor crc b)) data_bytes 0.

(** [SystematicFEC.__init__]: the generator and parity-check matrices. *)
Definition G : list (list Z) :=
  [ [1; 0; 0; 0; 1; 1; 0];
    [0; 1; 0; 0; 1; 0; 1];
    [0; 0; 1; 0; 0; 1; 1];
    [0; 0; 0; 1; 1; 1; 1] ].

Definition H : list (list Z) :=
  [ [1; 1; 0; 1; 1; 0; 0];
    [1; 0; 1; 1; 0; 1; 0];
    [0; 1; 1; 1; 0; 0; 1] ].

(** [np.dot] on two vectors, on a vector and a matrix, on a matrix and a
    vector. *)
Definition dot (u v : list Z) : Z := foldr Z.add 0 (zip_with Z.mul u v).

Definition column (j : nat) (M : list (list Z)) : list Z :=
  map (λ row, nth j row 0) M.

Definition vec_mat (v : list Z) (M : list (list Z)) : list Z :=
  map (λ j, dot v (column j M)) (seq 0 7).

Definition mat_vec (M : list (list Z)) (v : list Z) : list Z :=
  map (λ row, dot row v) M.

(** [np.concatenate] refuses an empty list of arrays. *)
Definition np_concatenate {A} (arrays : list (list A)) : result (list A) :=
  match arrays with
  | [] => Raise EmptyConcatenate
  | _ => Return (concat arrays)
  end.

(** One turn of the loop of [encode_hamming]. *)
Definition encode_nibble (bits : list Z) (i : nat) : list Z :=
  let nibble := take 4 (drop (i * 4) bits) in
  map (λ x, x mod 2) (vec_mat nibble G).

Definition encode_hamming (bits : list Z) : result (list Z) :=
  if negb (length bits mod 4 =? 0)%nat then Raise MalformedFecLength
  else
    let n_nibbles := (length bits / 4)%nat in
    np_concatenate (map (encode_nibble bits) (seq 0 n_nibbles)).

(** The dictionary [syndrome_map] of [SystematicFEC.decode_hamming]. *)
Definition syndrome_map : gmap Z nat :=
  list_to_map
    [ (3, 0%nat); (5, 1%nat); (6, 2%nat); (7, 3%nat);
      (1, 4%nat); (2, 5%nat); (4, 6%nat) ].

(** One turn of the loop of [SystematicFEC.decode_hamming]: the syndrome of
    the block, the flip of the bit the dictionary names, the first four
    bits.  The block has seven bits, so the dictionary's index is in range. *)
Definition syndrome (block : list Z) : Z :=
  let syndrome_vec := map (λ x, x mod 2) (mat_vec H block) in
  nth 0 syndrome_vec 0 + nth 1 syndrome_vec 0 * 2 + nth 2 syndrome_vec 0 * 4.

Definition correct_block (block : list Z) : list Z :=
  let val := syndrome block in
  if 0 <? val then
    match syndrome_map !! val with
    | Some idx => <[idx := 1 - nth idx block 0]> block
    | None => block
    end
  else block.

Definition decode_block (bits : list Z) (i : nat) : list Z :=
  let block := take 7 (drop (i * 7) bits) in
  take 4 (correct_block block).

Definition decode_hamming (bits : list Z) : result (list Z) :=
  if negb (length bits mod 7 =? 0)%nat then Raise MalformedFecLength
  else
    let n_blocks := (length bits / 7)%nat in
    np_concatenate (map (decode_block bits) (seq 0 n_blocks)).

(** The table of the specification, as a dictionary. *)
Definition spec_syndrome_table : gmap Z nat :=
  list_to_map
    [ (1, 4%nat); (2, 5%nat); (3, 0%nat); (4, 6%nat);
      (5, 1%nat); (6, 2%nat); (7, 3%nat) ].

(** Bit [j] of a block inverted. *)
Definition flip_bit (j : nat) (block : list Z) : list Z :=
  <[j := 1 - nth j block 0]> block.

Definition is_bit (b : Z) : Prop := b = 0 ∨ b = 1.

End FEC.

(** ** Python integers and bytes *)

Module PyInt.

(** [int.from_bytes(bs, 'big')], and the bytes [int.to_bytes(width, 'big')]
    gives for an integer that fits. *)
Definition from_bytes_big (bs : list Z) : Z :=
  fold_left (λ acc b, acc * 256 + b) bs 0.

Definition bytes_big (width : nat) (v : Z) : list Z :=
  map (λ i, Z.land (Z.shiftr v (8 * Z.of_nat i)) 0xFF) (rev (seq 0 width)).

End PyInt.

(** ** hashlib.sha256 *)

(** Modelled from the spec: [hashlib.sha256] belongs to Python's standard
    library, not to the repository.  The specification names the function
    SHA-256; this is the algorithm of FIPS 180-4 on lists of bytes. *)
Module SHA256.

Definition wrap (x : Z) : Z := x mod 2 ^ 32.
Definition add32 (x y : Z) : Z := wrap (x + y).
Definition rotr (n x : Z) : Z :=
  Z.lor (Z.shiftr x n) (wrap (Z.shiftl x (32 - n))).
Definition not32 (x : Z) : Z := Z.lxor x 0xFFFFFFFF.

Definition Ch (x y z : Z) : Z := Z.lxor (Z.land x y) (Z.land (not32 x) z).
Definition Maj (x y z : Z) : Z :=
  Z.lxor (Z.lxor (Z.land x y) (Z.land x z)) (Z.land y z).
Definition Sigma0 (x : Z) : Z := Z.lxor (Z.lxor (rotr 2 x) (rotr 13 x)) (rotr 22 x).
Definition Sigma1 (x : Z) : Z := Z.lxor (Z.lxor (rotr 6 x) (rotr 11 x)) (rotr 25 x).
Definition sigma0 (x : Z) : Z := Z.lxor (Z.lxor (rotr 7 x) (rotr 18 x)) (Z.shiftr x 3).
Definition sigma1 (x : Z) : Z := Z.lxor (Z.lxor (rotr 17 x) (rotr 19 x)) (Z.shiftr x 10).

(** The constants of FIPS 180-4: the first 32 bits of the fractional parts
    of the cube roots of the first 64 primes, and of the square roots of
    the first 8 primes.  They are computed here, not tabulated. *)
Definition is_prime (n : Z) : bool :=
  forallb (λ d, negb (n mod d =? 0))
    (map Z.of_nat (seq 2 (Z.to_nat n - 2))).

Definition primes : list Z :=
  List.filter is_prime (map Z.of_nat (seq 2 310)).

(** The largest [r] below 2^36 with [r ^ k <= n], bit by bit. *)
Definition int_root (k n : Z) : Z :=
  fold_left
    (λ r bit, if (r + 2 ^ bit) ^ k <=? n then r + 2 ^ bit else r)
    (map Z.of_nat (rev (seq 0 36))) 0.

Definition frac_root (k p : Z) : Z :=
  wrap (int_root k (p * 2 ^ (32 * k))).

Definition K : list Z :=
  Eval vm_compute in map (frac_root 3) (take 64 primes).

Definition H0 : list Z :=
  Eval vm_compute in map (frac_root 2) (take 8 primes).

(** Padding: the bit 1, zeros up to 56 modulo 64, the bit length on 8 bytes. *)
Definition pad (msg : list Z) : list Z :=
  let len := Z.of_nat (length msg) in
  msg ++ [0x80] ++ replicate (Z.to_nat ((55 - len) mod 64)) 0
      ++ PyInt.bytes_big 8 (8 * len).

Fixpoint chunks (fuel size : nat) (bs : list Z) : list (list Z) :=
  match fuel, bs with
  | O, _ => []
  | _, [] => []
  | S fuel', _ => take size bs :: chunks fuel' size (drop size bs)
  end.

(** The message schedule, grown from the 16 words of a block to 64. *)
Definition schedule_step (W : list Z) (t : nat) : list Z :=
  W ++ [ add32 (add32 (sigma1 (nth (t - 2) W 0)) (nth (t - 7) W 0))
               (add32 (sigma0 (nth (t - 15) W 0)) (nth (t - 16) W 0)) ].

Definition schedule (block : list Z) : list Z :=
  fold_left schedule_step (seq 16 48) (map PyInt.from_bytes_big (chunks 16 4 block)).

Definition round (s : list Z) (kw : Z * Z) : list Z :=
  match s with
  | [a; b; c; d; e; f; g; h] =>
      let T1 := add32 (add32 (add32 h (Sigma1 e)) (add32 (Ch e f g) kw.1)) kw.2 in
      let T2 := add32 (Sigma0 a) (Maj a b c) in
      [add32 T1 T2; a; b; c; add32 d T1; e; f; g]
  | _ => s
  end.

Definition compress (state block : list Z) : list Z :=
  zip_with add32 state (fold_left round (zip K (schedule block)) state).

Definition sha256 (msg : list Z) : list Z :=
  let padded := pad msg in
  let blocks := chunks (length padded) 64 padded in
  concat (map (PyInt.bytes_big 4) (fold_left compress blocks H0)).

(** [str.encode('utf-8')]: a Rocq string is a sequence of bytes and stands
    for the UTF-8 encoding of the Python string. *)
Fixpoint encode_utf8 (s : string) : list Z :=
  match s with
  | EmptyString => []
  | String c s' => Z.of_N (N_of_ascii c) :: encode_utf8 s'
  end.

End SHA256.

(** ** The numpy / scipy interface *)

(** What [deepseal.py] imports from numpy and scipy.  Samples are floats;
    nothing below depends on how they round.  The kernels are functions of
    their arguments; of the exceptions the libraries raise, the model keeps
    those of [Np] below, of [attempt_sync] and of the filter design. *)
Class Kernel : Type := {
  sample : Type;
  s_of_Z : Z → sample;                   (* an integer as a float *)
  s_add : sample → sample → sample;
  s_sub : sample → sample → sample;
  s_mul : sample → sample → sample;
  s_div : sample → sample → sample;
  s_positive : sample → bool;            (* x > 0 *)
  s_above_eps : sample → bool;           (* x > 1e-9 *)
  s_below_eps : sample → bool;           (* x < 1e-9 *)
  np_sum : list sample → sample;
  np_mean : list sample → sample;
  np_std : list sample → sample;
  db_scale : Z → sample;                 (* 10 ** (db / 20.0) *)
  (* numpy.random.RandomState *)
  rng_state : Type;
  RandomState : Z → rng_state;
  randint : rng_state → Z → Z → nat → list Z * rng_state;
  permutation : rng_state → nat → list nat * rng_state;
  (* scipy.signal.butter(2, [500/nyq, 3000/nyq], 'band'): whether the
     design is accepted at this sample rate (both critical frequencies
     strictly between 0 and 1), and the filter applied by lfilter *)
  butter_accepts : Z → bool;
  butter_lfilter : Z → list sample → list sample;
  (* scipy.signal.lfilter([1, -0.95], [1], x) *)
  pre_emphasis : list sample → list sample;
  (* np.maximum(np.sqrt(convolve(x ** 2, ones(w) / w, 'same')), 1e-9) *)
  rms_envelope : Z → list sample → list sample;
  (* rfft of both, smoothed magnitude floored at 0.2, product, irfft(n) *)
  spectral_shape : Z → list sample → list sample → list sample;
  (* scipy.signal.correlate(x, y, mode='valid'), np.argmax(np.abs(c)) *)
  correlate_valid : list sample → list sample → list sample;
  argmax_abs : list sample → nat
}.

(** What the proofs use of the libraries: [randint(lo, hi, size=n)] returns
    [n] integers in [lo, hi); [permutation(n)] a permutation of [0 .. n-1];
    [lfilter] and [convolve(mode='same')] keep the length of the signal;
    [irfft(_, n)] returns [n] samples. *)
Class KernelLaws (K : Kernel) : Prop := {
  randint_length st lo hi n : length (randint st lo hi n).1 = n;
  randint_range st lo hi n x :
    lo < hi → x ∈ (randint st lo hi n).1 → lo ≤ x < hi;
  permutation_perm st n : (permutation st n).1 ≡ₚ seq 0 n;
  butter_lfilter_length sr x : length (butter_lfilter sr x) = length x;
  pre_emphasis_length x : length (pre_emphasis x) = length x;
  rms_envelope_length w x : length (rms_envelope w x) = length x;
  spectral_shape_length n x y : length (spectral_shape n x y) = Z.to_nat n
}.

(** ** numpy indexing *)

Module Np.

(** A slice bound the way Python normalises it. *)
Definition py_index (len i : Z) : Z :=
  if i <? 0 then Z.max 0 (i + len) else Z.min i len.

(** [xs[start:stop]], [xs[:stop]], [xs[start:]]. *)
Definition slice {A} (xs : list A) (start stop : Z) : list A :=
  let len := Z.of_nat (length xs) in
  let a := py_index len start in
  let b := py_index len stop in
  take (Z.to_nat (b - a)) (drop (Z.to_nat a) xs).

Definition slice_to {A} (xs : list A) (stop : Z) : list A := slice xs 0 stop.

Definition slice_from {A} (xs : list A) (start : Z) : list A :=
  drop (Z.to_nat (py_index (Z.of_nat (length xs)) start)) xs.

(** [xs[idx]] for an array of indices. *)
Fixpoint take_indices {A} (xs : list A) (idx : list nat) : result (list A) :=
  match idx with
  | [] => Return []
  | i :: idx' =>
      match xs !! i with
      | None => Raise IndexError
      | Some x => rest ← take_indices xs idx'; Return (x :: rest)
      end
  end.

(** An element-wise binary operation on two arrays of one shape (arrays
    of one element, which numpy would broadcast, do not occur). *)
Definition zip {A B C} (f : A → B → C) (xs : list A) (ys : list B)
  : result (list C) :=
  if (length xs =? length ys)%nat then Return (zip_with f xs ys)
  else Raise ShapeMismatch.

(** [np.repeat(xs, n)]. *)
Definition repeat {A} (xs : list A) (n : Z) : result (list A) :=
  if n <? 0 then Raise NegativeDimensions
  else Return (concat (map (replicate (Z.to_nat n)) xs)).

(** [np.argsort]: the indices in the order of their keys. *)
Definition key_le (a b : nat * nat) : Prop := (a.1 ≤ b.1)%nat.
#[global] Instance key_le_dec a b : Decision (key_le a b) :=
  decide (a.1 ≤ b.1)%nat.

Definition argsort (keys : list nat) : list nat :=
  (merge_sort key_le (base.zip keys (seq 0 (length keys)))).*2.

End Np.

(** ** deepseal.py

    The methods of the class [DeepSeal]; the private ones keep their names
    without the leading underscore. *)

Module DeepSeal.

(** What synchronisation hands to demodulation in [extract]: the audio
    after resampling, the start of the frame in it, the polarity. *)
Record sync_result (A : Type) : Type := {
  final_audio : list A;
  final_start_index : Z;
  polarity_sign : A
}.
Arguments final_audio {A} _.
Arguments final_start_index {A} _.
Arguments polarity_sign {A} _.

Section WithKernel.
Context {K : Kernel}.

Record t : Type := {
  seed : Z;
  chip_rate : Z;
  sample_rate : Z;
  telecom_mode : bool;
  rng : rng_state
}.

Definition preamble_bits : list Z :=
  [1; 1; 1; 1; 1; 0; 0; 1; 1; 0; 1; 0; 1; 0; 0; 0].

(** [if key:] holds for a string that is not empty. *)
Definition truthy (key : string) : bool :=
  match key with EmptyString => false | String _ _ => true end.

(** [DeepSeal.__init__], lines 32-41: the seed. *)
Definition derive_seed (seed : option Z) (key : option string) : Z :=
  match seed with
  | None =>
      match key with
      | Some k =>
          if truthy k then
            let hash_bytes := SHA256.sha256 (SHA256.encode_utf8 k) in
            PyInt.from_bytes_big (take 4 hash_bytes)
          else 42
      | None => 42
      end
  | Some s => s
  end.

(** [DeepSeal.__init__]: the object it sets up.  ([RandomState] takes a
    seed in [0, 2^32), which the derived seeds are; its refusal of another
    explicit seed is in [new] below.) *)
Definition init (seed : option Z) (key : option string)
    (chip_rate sample_rate : Z) (telecom_mode : bool) : t :=
  let seed := derive_seed seed key in
  {| seed := seed; chip_rate := chip_rate; sample_rate := sample_rate;
     telecom_mode := telecom_mode; rng := RandomState seed |}.

(** [np.random.RandomState(seed)] raises [ValueError] for an integer seed
    outside [0, 2^32). *)
Definition seed_accepted (seed : Z) : bool :=
  (0 <=? seed) && (seed <? 2 ^ 32).

(** The call [DeepSeal(seed, key, chip_rate, sample_rate, telecom_mode)]:
    line 53 hands the seed to [RandomState], whose refusal leaves the
    constructor; otherwise the object is the one of [init]. *)
Definition new (seed : option Z) (key : option string)
    (chip_rate sample_rate : Z) (telecom_mode : bool) : result t :=
  if seed_accepted (derive_seed seed key)
  then Return (init seed key chip_rate sample_rate telecom_mode)
  else Raise SeedOutOfRange.

(** [generate_pn_sequence]: the value returned and the object afterwards. *)
Definition generate_pn_sequence (self : t) (length : Z)
  : result (list sample) * t :=
  if length <? 0 then (Raise NegativeDimensions, self)
  else
    let local_rng := RandomState (seed self) in
    let '(noise, local_rng) := randint local_rng 0 2 (Z.to_nat length) in
    (Return (map (λ x, s_of_Z (x * 2 - 1)) noise), self).

(** [_int_to_bits] and [_bits_to_int]; [bit > 0.5] on an integer bit. *)
Definition int_to_bits (val : Z) (num_bits : nat) : list Z :=
  map (λ i, Z.land (Z.shiftr val (Z.of_nat i)) 1) (rev (seq 0 num_bits)).

Definition bits_to_int (bits : list Z) : Z :=
  fold_left (λ val bit, Z.lor (Z.shiftl val 1) (Z.b2z (1 <? 2 * bit))) bits 0.

(** [int(v).to_bytes(4, byteorder='big')]. *)
Definition to_bytes_big (width : nat) (v : Z) : result (list Z) :=
  if (v <? 0) || (256 ^ Z.of_nat width <=? v) then Raise OverflowError
  else Return (PyInt.bytes_big width v).

(** [_compute_masking_threshold] with its default window of 1024. *)
Definition compute_masking_threshold (self : t) (audio : list sample)
  : list sample :=
  let envelope := rms_envelope 1024 audio in
  let threshold_db := if telecom_mode self then -15 else -25 in
  let scale_factor := db_scale threshold_db in
  map (λ e, s_mul e scale_factor) envelope.

(** [_apply_bandpass]: [low_cut / nyquist] divides by [0.5 * sample_rate],
    then [butter] designs the filter or refuses the band. *)
Definition apply_bandpass (self : t) (audio : list sample)
  : result (list sample) :=
  if sample_rate self =? 0 then Raise ZeroDivisionError
  else if butter_accepts (sample_rate self)
  then Return (butter_lfilter (sample_rate self) audio)
  else Raise FilterDesignError.

(** In telecom mode the band-pass filter exists for the sample rate. *)
Definition bandpass_ready (self : t) : Prop :=
  telecom_mode self = true →
  sample_rate self ≠ 0 ∧ butter_accepts (sample_rate self) = true.

(** [_normalize_signal]. *)
Definition normalize_signal (audio : list sample) : list sample :=
  match audio with
  | [] => audio
  | _ =>
      let std_val := np_std audio in
      if s_below_eps std_val then map (λ x, s_sub x (np_mean audio)) audio
      else map (λ x, s_div (s_sub x (np_mean audio)) std_val) audio
  end.

(** [int.bit_length]. *)
Definition bit_length (z : Z) : Z :=
  if z =? 0 then 0 else Z.log2 (Z.abs z) + 1.

(** [_shape_spectrum]. *)
Definition shape_spectrum (noise audio : list sample) : list sample :=
  if negb (length noise =? length audio)%nat then noise
  else
    let n_fft := Z.shiftl 1 (bit_length (Z.of_nat (length audio) - 1)) in
    let shaped_noise := spectral_shape n_fft noise audio in
    Np.slice_to shaped_noise (Z.of_nat (length audio)).

(** The interleaving permutation, drawn from the constant seed. *)
Definition perm_indices (n : nat) : list nat :=
  let interleaver_rng := RandomState 0xDEADBEEF in
  (permutation interleaver_rng n).1.

(** [embed], steps 1 to 3 (lines 187-227): the frame bits of the
    identifier, spread by the PN sequence and, in telecom mode, filtered. *)
Definition modulate (self : t) (watermark_id : Z) : result (list sample) :=
  if 2 ^ 28 <=? watermark_id then Raise InvalidId
  else
    let version := 1 in
    let final_id := Z.lor (Z.shiftl version 28) watermark_id in
    let payload_bits := int_to_bits final_id 32 in
    payload_bytes ← to_bytes_big 4 final_id;
    let crc_val := FEC.crc8 payload_bytes in
    let crc_bits := int_to_bits crc_val 8 in
    let data_to_encode := payload_bits ++ crc_bits in
    encoded_bits ← FEC.encode_hamming data_to_encode;
    interleaved_bits ←
      Np.take_indices encoded_bits (perm_indices (length encoded_bits));
    let full_message_bits :=
      preamble_bits ++ interleaved_bits ++ preamble_bits in
    let total_chips :=
      Z.of_nat (length full_message_bits) * chip_rate self in
    pn_sequence ← (generate_pn_sequence self total_chips).1;
    expanded_bits ← Np.repeat full_message_bits (chip_rate self);
    let modulated_bits := map (λ b, b * 2 - 1) expanded_bits in
    spread_signal ←
      Np.zip (λ m p, s_mul (s_of_Z m) p) modulated_bits pn_sequence;
    if telecom_mode self then apply_bandpass self spread_signal
    else Return spread_signal.

(** [embed], step 4 (lines 229-243): the test of the length of the host,
    then the watermark shaped and weighted against the host.  Returns the
    spread signal and the weighted watermark. *)
Definition embed_signal (self : t) (audio : list sample) (watermark_id : Z)
  : result (list sample * list sample) :=
  spread_signal ← modulate self watermark_id;
  if (length audio <? length spread_signal)%nat then Raise HostTooShort
  else
    let host := Np.slice_to audio (Z.of_nat (length spread_signal)) in
    let shaped_signal := shape_spectrum spread_signal host in
    let std_shaped := np_std shaped_signal in
    let shaped_signal :=
      if s_above_eps std_shaped
      then map (λ x, s_div x std_shaped) shaped_signal
      else shaped_signal in
    let masking_envelope := compute_masking_threshold self host in
    weighted_watermark ← Np.zip s_mul shaped_signal masking_envelope;
    Return (spread_signal, weighted_watermark).

(** Arrays live in a store; a reference is a position in it, a [nat]. *)
Definition deref (h : list (list sample)) (l : nat) : list sample :=
  default [] (h !! l).
Definition alloc (h : list (list sample)) (v : list sample)
  : nat * list (list sample) := (length h, h ++ [v]).

(** [embed]: step 5 copies the host, adds the watermark onto the first
    [len(spread_signal)] samples of the copy and returns the copy. *)
Definition embed (self : t) (h : list (list sample)) (audio : nat)
    (watermark_id : Z) : result nat * list (list sample) :=
  match embed_signal self (deref h audio) watermark_id with
  | Raise e => (Raise e, h)
  | Return (spread_signal, weighted_watermark) =>
      let '(watermarked_audio, h) := alloc h (deref h audio) in
      let target := deref h watermarked_audio in
      let n := Z.of_nat (length spread_signal) in
      match Np.zip s_add (Np.slice_to target n) weighted_watermark with
      | Raise e => (Raise e, h)
      | Return sum =>
          (Return watermarked_audio,
           <[watermarked_audio := sum ++ Np.slice_from target n]> h)
      end
  end.

(** [embed] called on an array that nothing else refers to. *)
Definition embed_array (self : t) (audio : list sample) (watermark_id : Z)
  : result (list sample) :=
  let '(r, h) := embed self [audio] 0%nat watermark_id in
  l ← r; Return (deref h l).

(** [_attempt_sync]: position and signed value of the correlation peak. *)
Definition attempt_sync (audio_chunk reference_preamble : list sample)
  : result (Z * sample) :=
  let correlation := correlate_valid audio_chunk reference_preamble in
  match correlation with
  | [] => Raise EmptySequence
  | c0 :: _ =>
      let peak_idx := argmax_abs correlation in
      Return (Z.of_nat peak_idx, nth peak_idx correlation c0)
  end.

(** [extract], lines 297-298: the window of the first correlation. *)
Definition search_len (self : t) : Z :=
  let preamble_len_chips := Z.of_nat (length preamble_bits) * chip_rate self in
  preamble_len_chips * 2 + 44100 * 2.

Definition search_window (self : t) (processed_audio : list sample)
  : list sample :=
  Np.slice_to processed_audio
    (Z.min (Z.of_nat (length processed_audio)) (search_len self)).

(** [extract], step 2, after the test of the window: chips times PN times
    polarity, summed bit by bit. *)
Definition demodulate (self : t) (full_pn_sequence : list sample)
    (s : sync_result sample) : result (list Z) :=
  let encoded_payload_len := 70%nat in
  let payload_start_chip := Z.of_nat (length preamble_bits) * chip_rate self in
  let total_payload_chips := Z.of_nat encoded_payload_len * chip_rate self in
  let payload_audio :=
    Np.slice (final_audio s)
      (final_start_index s + payload_start_chip)
      (final_start_index s + payload_start_chip + total_payload_chips) in
  let payload_pn :=
    Np.slice full_pn_sequence payload_start_chip
      (payload_start_chip + total_payload_chips) in
  payload_pn ←
    (if telecom_mode self then apply_bandpass self payload_pn
     else Return (pre_emphasis payload_pn));
  product ← Np.zip s_mul payload_audio payload_pn;
  let demodulated_chips := map (λ x, s_mul x (polarity_sign s)) product in
  Return
    (map (λ i : nat,
        let chunk :=
          Np.slice demodulated_chips
            (Z.of_nat i * chip_rate self) ((Z.of_nat i + 1) * chip_rate self) in
        let bit_val := np_sum chunk in
        if s_positive bit_val then 1 else 0)
      (seq 0 encoded_payload_len)).

(** [extract], step 3: the inverse of the interleaving permutation. *)
Definition deinterleave (raw_bits : list Z) : result (list Z) :=
  let inv_indices := Np.argsort (perm_indices (length raw_bits)) in
  Np.take_indices raw_bits inv_indices.

(** [extract], step 5: payload and CRC apart, the CRC computed again, the
    version stripped. *)
Definition verify_crc (decoded_bits : list Z) : result (option Z) :=
  if negb (length decoded_bits =? 40)%nat then Return None
  else
    let payload_bits := take 32 decoded_bits in
    let crc_bits := drop 32 decoded_bits in
    let extracted_id := bits_to_int payload_bits in
    let extracted_crc := bits_to_int crc_bits in
    payload_bytes ← to_bytes_big 4 extracted_id;
    let calc_crc := FEC.crc8 payload_bytes in
    if calc_crc =? extracted_crc then
      let version := Z.land (Z.shiftr extracted_id 28) 0xF in
      let content_id := Z.land extracted_id 0x0FFFFFFF in
      Return (Some content_id)
    else Return None.

(** [extract], steps 3 to 5, on the demodulated bits. *)
Definition decode_raw_bits (raw_bits : list Z) : result (option Z) :=
  deinterleaved_bits ← deinterleave raw_bits;
  decoded_bits ← FEC.decode_hamming deinterleaved_bits;
  verify_crc decoded_bits.

(** [extract], lines 416-478. *)
Definition extract_payload (self : t) (full_pn_sequence : list sample)
    (s : sync_result sample) : result (option Z) :=
  let payload_start_chip := Z.of_nat (length preamble_bits) * chip_rate self in
  let total_payload_chips := 70 * chip_rate self in
  if Z.of_nat (length (final_audio s))
       <? final_start_index s + payload_start_chip + total_payload_chips
  then Return None
  else
    raw_bits ← demodulate self full_pn_sequence s;
    decode_raw_bits raw_bits.

(** [extract], lines 274-414: pre-processing, PN sequence, reference
    preamble, first correlation over the search window, then the speed loop
    and the last resynchronisation.  The latter (lines 303-414) are
    correlations, float divisions and resampling; they enter as
    [speed_loop], which receives the pre-processed audio, the reference
    preamble and the first peak, and returns the audio, the start index and
    the polarity that demodulation uses. *)
Definition synchronise
    (speed_loop : t → list sample → list sample → Z → sample →
                  result (sync_result sample))
    (self : t) (audio : list sample)
  : result (list sample * sync_result sample) :=
  processed_audio ←
    (if telecom_mode self then
       filtered ← apply_bandpass self audio;
       Return (normalize_signal filtered)
     else Return (pre_emphasis audio));
  let encoded_payload_len := 70 in
  let preamble_len_chips := Z.of_nat (length preamble_bits) * chip_rate self in
  full_pn_sequence ←
    (generate_pn_sequence self
       (preamble_len_chips + encoded_payload_len * chip_rate self)).1;
  let preamble_pn := Np.slice_to full_pn_sequence preamble_len_chips in
  repeated ← Np.repeat preamble_bits (chip_rate self);
  let expanded_preamble := map (λ b, b * 2 - 1) repeated in
  reference_preamble ←
    Np.zip (λ m p, s_mul (s_of_Z m) p) expanded_preamble preamble_pn;
  reference_preamble ←
    (if telecom_mode self then apply_bandpass self reference_preamble
     else Return (pre_emphasis reference_preamble));
  '(start_idx, start_val) ←
    attempt_sync (search_window self processed_audio) reference_preamble;
  s ← speed_loop self processed_audio reference_preamble start_idx start_val;
  Return (full_pn_sequence, s).

(** [extract]. *)
Definition extract
    (speed_loop : t → list sample → list sample → Z → sample →
                  result (sync_result sample))
    (self : t) (audio : list sample) : result (option Z) :=
  '(full_pn_sequence, s) ← synchronise speed_loop self audio;
  extract_payload self full_pn_sequence s.

(** The frame bits [modulate] builds from a 32-bit logical payload: payload
    and CRC, Hamming code, interleaving (lines 196-211). *)
Definition frame_payload_bits (final_id : Z) : result (list Z) :=
  let payload_bits := int_to_bits final_id 32 in
  payload_bytes ← to_bytes_big 4 final_id;
  let crc_bits := int_to_bits (FEC.crc8 payload_bytes) 8 in
  encoded_bits ← FEC.encode_hamming (payload_bits ++ crc_bits);
  Np.take_indices encoded_bits (perm_indices (length encoded_bits)).

End WithKernel.
End DeepSeal.

(** ** realtime.py *)

Module RealTimeInjector.
Section WithKernel.
Context {K : Kernel}.

Record t : Type := {
  ds : DeepSeal.t;
  watermark_id : Z;
  bits_count : Z;
  chunk_size : Z;
  buffer : list sample
}.

(** [RealTimeInjector.__init__]. *)
Definition init (watermark_id chip_rate sample_rate : Z) : t :=
  let bits_count := 86 in
  {| ds := DeepSeal.init None None chip_rate sample_rate false;
     watermark_id := watermark_id;
     bits_count := bits_count;
     chunk_size := bits_count * chip_rate;
     buffer := [] |}.

Definition set_buffer (self : t) (b : list sample) : t :=
  {| ds := ds self; watermark_id := watermark_id self;
     bits_count := bits_count self; chunk_size := chunk_size self;
     buffer := b |}.

(** How a run of the generator ends. *)
Inductive ending : Set :=
| Exhausted               (* the input stream ended *)
| Raised (e : exn)        (* an exception left the generator *)
| OutOfFuel.              (* the inner loop did not stop *)

(** The inner [while] of [process_stream]: the frames yielded, how the
    loop was left ([None]: its condition became false) and the injector. *)
Fixpoint drain (fuel : nat) (self : t)
  : list (list sample) * option ending * t :=
  if Z.of_nat (length (buffer self)) <? chunk_size self
  then ([], None, self)
  else
    match fuel with
    | O => ([], Some OutOfFuel, self)
    | S fuel' =>
        let frame := Np.slice_to (buffer self) (chunk_size self) in
        let self := set_buffer self (Np.slice_from (buffer self) (chunk_size self)) in
        match DeepSeal.embed_array (ds self) frame (watermark_id self) with
        | Raise e => ([], Some (Raised e), self)
        | Return watermarked_frame =>
            (* frame_duration = len(frame) / self.ds.sample_rate *)
            if DeepSeal.sample_rate (ds self) =? 0
            then ([], Some (Raised ZeroDivisionError), self)
            else
              let '(frames, e, self) := drain fuel' self in
              (watermarked_frame :: frames, e, self)
        end
    end.

(** [process_stream], run until the input is exhausted or an exception
    leaves it: everything it yields, in order, and how it ends. *)
Fixpoint process_stream (self : t) (audio_stream : list (list sample))
  : list (list sample) * ending * t :=
  match audio_stream with
  | [] =>
      if (0 <? length (buffer self))%nat
      then ([buffer self], Exhausted, self)
      else ([], Exhausted, self)
  | chunk :: rest =>
      let self := set_buffer self (buffer self ++ chunk) in
      let '(frames, stop, self) := drain (S (length (buffer self))) self in
      match stop with
      | Some e => (frames, e, self)
      | None =>
          let '(more, e, self) := process_stream self rest in
          (frames ++ more, e, self)
      end
  end.

End WithKernel.
End RealTimeInjector.

(** ** The claims of the specification, in its words *)

Module Spec.

(** Seed sources, in priority: explicit seed, SHA-256 of the key, 42. *)
Definition seed (seed : option Z) (key : option string) : Z :=
  match seed, key with
  | Some s, _ => s
  | None, Some k =>
      PyInt.from_bytes_big (take 4 (SHA256.sha256 (SHA256.encode_utf8 k)))
  | None, None => 42
  end.


(** [search_len = 32 * chip_rate + 2 * sample_rate]. *)
Definition search_len (chip_rate sample_rate : Z) : Z :=
  32 * chip_rate + 2 * sample_rate.

End Spec.

(** ** A kernel on integers

    An instance of the interface on which the model runs: samples are
    integers, the filters are the identity, the random integers come from a
    linear congruence and the permutation reverses. *)

Module IntKernel.

Fixpoint lcg_bits (n : nat) (st : Z) : list Z * Z :=
  match n with
  | O => ([], st)
  | S n' =>
      let st' := (1103515245 * st + 12345) mod 2 ^ 31 in
      let '(bs, last) := lcg_bits n' st' in
      (Z.shiftr st' 16 mod 2 :: bs, last)
  end.

(** The first position of the largest absolute value. *)
Definition first_peak (c : list Z) : nat :=
  (foldl (λ '(best, top, i) x,
            if top <? Z.abs x then (i, Z.abs x, S i) else (best, top, S i))
         (0%nat, -1, 0%nat) c).1.1.

#[global] Instance kernel : Kernel := {|
  sample := Z;
  s_of_Z := id;
  s_add := Z.add;
  s_sub := Z.sub;
  s_mul := Z.mul;
  s_div := Z.div;
  s_positive := Z.ltb 0;
  s_above_eps := Z.ltb 0;
  s_below_eps := λ x, x <=? 0;
  np_sum := foldr Z.add 0;
  np_mean := λ xs, foldr Z.add 0 xs / Z.of_nat (length xs);
  np_std := λ _, 1;
  db_scale := λ _, 1;
  rng_state := Z;
  RandomState := id;
  randint := λ st lo hi n,
    let '(bs, st') := lcg_bits n st in (map (λ b, lo + b * (hi - lo - 1)) bs, st');
  permutation := λ st n, (rev (seq 0 n), st);
  butter_accepts := λ sr, 6000 <? sr;
  butter_lfilter := λ _ x, x;
  pre_emphasis := id;
  rms_envelope := λ _ x, map (λ _, 1) x;
  spectral_shape := λ n x _, take (Z.to_nat n) (x ++ replicate (Z.to_nat n) 0);
  correlate_valid := λ x y,
    map (λ i, FEC.dot (drop i x) y) (seq 0 (S (length x) - length y));
  argmax_abs := first_peak
|}.

(** A speed loop that finds nothing to correct: the audio, the first peak
    and its sign, as lines 309-314 set them. *)
Definition speed_loop (self : DeepSeal.t) (processed_audio reference : list Z)
    (start_idx start_val : Z) : result (DeepSeal.sync_result Z) :=
  Return {| DeepSeal.final_audio := processed_audio;
            DeepSeal.final_start_index := start_idx;
            DeepSeal.polarity_sign := if 0 <? start_val then 1 else -1 |}.

End IntKernel.

(** ** A run on the integer kernel

    A watermark of identifier 5 embedded at one chip per bit into 102
    samples of silence, and the stages of its extraction. *)

Module Demo.

Definition self : DeepSeal.t :=
  DeepSeal.init (K := IntKernel.kernel) None None 1 44100 false.

Definition watermarked : list Z :=
  Eval vm_compute in
    match DeepSeal.embed_array self (replicate 102 0) 5 with
    | Return a => a
    | Raise _ => []
    end.

Definition pn : list Z :=
  Eval vm_compute in
    match DeepSeal.synchronise IntKernel.speed_loop self watermarked with
    | Return (pn, _) => pn
    | Raise _ => []
    end.

Definition sync : DeepSeal.sync_result Z :=
  Eval vm_compute in
    match DeepSeal.synchronise IntKernel.speed_loop self watermarked with
    | Return (_, s) => s
    | Raise _ =>
        {| DeepSeal.final_audio := []; DeepSeal.final_start_index := 0;
           DeepSeal.polarity_sign := 0 |}
    end.

Definition raw : list Z :=
  Eval vm_compute in
    match DeepSeal.demodulate self pn sync with
    | Return r => r
    | Raise _ => []
    end.

Definition decoded : list Z :=
  Eval vm_compute in
    match DeepSeal.deinterleave raw ≫= FEC.decode_hamming with
    | Return d => d
    | Raise _ => []
    end.

End Demo.

(** ** fec.py: the base class [FEC]

    [SystematicFEC] inherits [crc8] and [encode_hamming] and overrides the
    matrices and [decode_hamming]; what follows is the decoder it
    overrides. *)

Module FECBase.

(** [FEC.__init__]: the parity-check matrix of the base class. *)
Definition H : list (list Z) :=
  [ [1; 0; 0; 1; 0; 1; 1];
    [0; 1; 0; 1; 1; 1; 0];
    [0; 0; 1; 0; 1; 1; 1] ].

(** The dictionary [syndrome_to_idx] of [FEC.decode_hamming]. *)
Definition syndrome_to_idx : gmap Z nat :=
  list_to_map
    [ (1, 0%nat); (2, 1%nat); (4, 2%nat); (3, 3%nat);
      (6, 4%nat); (7, 5%nat); (5, 6%nat) ].

(** One turn of the loop of [FEC.decode_hamming]: the block is copied and
    corrected, and the turn ends in [pass]: the list [decoded] is as it
    was. *)
Definition decode_turn (bits : list Z) (decoded : list (list Z)) (i : nat)
  : list (list Z) :=
  let block := take 7 (drop (i * 7) bits) in
  let syndrome_vec := map (λ x, x mod 2) (FEC.mat_vec H block) in
  let syndrome_val :=
    nth 0 syndrome_vec 0 * 1 + nth 1 syndrome_vec 0 * 2
    + nth 2 syndrome_vec 0 * 4 in
  let block :=
    if 0 <? syndrome_val then
      match syndrome_to_idx !! syndrome_val with
      | Some err_idx => <[err_idx := 1 - nth err_idx block 0]> block
      | None => block
      end
    else block in
  decoded.

(** [FEC.decode_hamming]. *)
Definition decode_hamming (bits : list Z) : result (list Z) :=
  if negb (length bits mod 7 =? 0)%nat then Raise MalformedFecLength
  else
    let n_blocks := (length bits / 7)%nat in
    let decoded := fold_left (decode_turn bits) (seq 0 n_blocks) [] in
    match decoded with
    | [] => Return []
    | _ => FEC.np_concatenate decoded
    end.

End FECBase.

(** ** deepseal.py: the speed loop of [extract]

    Lines 303-414.  The float operations of the loop are the fields of
    [SyncKernel]; the loop itself is modelled statement by statement. *)

Class SyncKernel (K : Kernel) : Type := {
  f_trunc_mul : Z → sample → Z;            (* int(n * x) *)
  f_tenth : sample;                        (* 0.1 *)
  f_hundredth : sample;                    (* 0.01 *)
  f_ratio : Z → Z → sample;                (* n / m, two integers *)
  f_peak_above : sample → sample → bool;   (* abs(t) > abs(s) * 0.1 *)
  f_converged : sample → bool;             (* abs(p - 1.0) < 0.0001 *)
  (* np.interp(np.linspace(0, 1, new_len), np.linspace(0, 1, len(x)), x) *)
  np_interp : Z → list sample → result (list sample)
}.

Module SpeedLoop.
Section WithKernel.
Context {K : Kernel} {SK : SyncKernel K}.

(** The variables the loop updates. *)
Record state : Type := {
  current_audio : list sample;
  total_speed_adjustment : sample;
  final_audio : list sample;
  final_start_index : Z;
  polarity_sign : sample
}.

(** [1.0 if val > 0 else -1.0]. *)
Definition polarity_of (val : sample) : sample :=
  if s_positive val then s_of_Z 1 else s_of_Z (-1).

(** The search for the start preamble around a predicted position, as pass 1
    (radius 2048) and the last resynchronisation (radius 1024) write it:
    the window, the correlation, the index of the peak in the audio and the
    value of the peak. *)
Definition resync (self : DeepSeal.t) (audio reference_preamble : list sample)
    (expected_start radius : Z) : result (Z * sample) :=
  let preamble_len_chips :=
    Z.of_nat (length DeepSeal.preamble_bits) * DeepSeal.chip_rate self in
  let s_start := Z.max 0 (expected_start - radius) in
  let s_end :=
    Z.min (Z.of_nat (length audio))
      (expected_start + radius + preamble_len_chips) in
  let s_win := Np.slice audio s_start s_end in
  '(rel, val) ← DeepSeal.attempt_sync s_win reference_preamble;
  Return (s_start + rel, val).

(** The search for the trailer and the speed it gives (lines 345-382). *)
Definition trailer_speed (self : DeepSeal.t)
    (reference_preamble : list sample) (start_val : sample)
    (pass_num : nat) (current_audio : list sample) (s_idx : Z)
  : result sample :=
  let encoded_payload_len := 70 in
  let preamble_len_chips :=
    Z.of_nat (length DeepSeal.preamble_bits) * DeepSeal.chip_rate self in
  let len_ref := Z.of_nat (length reference_preamble) in
  let mid := len_ref / 2 in
  let half_width := len_ref / 4 in
  let search_ref :=
    if (pass_num =? 0)%nat
    then Np.slice reference_preamble (mid - half_width) (mid + half_width)
    else reference_preamble in
  let ref_offset := if (pass_num =? 0)%nat then mid - half_width else 0 in
  let nominal_dist := (16 + encoded_payload_len) * DeepSeal.chip_rate self in
  let expected_trailer := s_idx + nominal_dist in
  let radius_factor := if (pass_num =? 0)%nat then f_tenth else f_hundredth in
  let radius := f_trunc_mul nominal_dist radius_factor in
  let t_start := Z.max 0 (expected_trailer - radius) in
  let t_end :=
    Z.min (Z.of_nat (length current_audio))
      (expected_trailer + radius + preamble_len_chips) in
  if t_start + Z.of_nat (length search_ref) <? t_end then
    let t_win := Np.slice current_audio t_start t_end in
    '(rel, t_val) ← DeepSeal.attempt_sync t_win search_ref;
    if f_peak_above t_val start_val then
      let found_trailer_idx := t_start + rel - ref_offset in
      let actual_dist := found_trailer_idx - s_idx in
      Return (f_ratio nominal_dist actual_dist)
    else Return (s_of_Z 1)
  else Return (s_of_Z 1).

(** One turn of the loop: whether it ends in [break], and the variables. *)
Definition pass (self : DeepSeal.t) (reference_preamble : list sample)
    (start_idx : Z) (start_val : sample) (pass_num : nat) (st : state)
  : result (bool * state) :=
  '(s_idx, st) ←
    (if (pass_num =? 0)%nat then Return (start_idx, st)
     else
       let expected_start :=
         f_trunc_mul start_idx (total_speed_adjustment st) in
       _ ← resync self (current_audio st) reference_preamble
             expected_start 2048;
       '(s_idx, val) ← resync self (current_audio st) reference_preamble
                         expected_start 2048;
       Return (s_idx,
               {| current_audio := current_audio st;
                  total_speed_adjustment := total_speed_adjustment st;
                  final_audio := final_audio st;
                  final_start_index := s_idx;
                  polarity_sign := polarity_of val |}));
  pass_speed ←
    trailer_speed self reference_preamble start_val pass_num
      (current_audio st) s_idx;
  if f_converged pass_speed then Return (true, st)
  else
    let old_len := Z.of_nat (length (current_audio st)) in
    let new_len := f_trunc_mul old_len pass_speed in
    resampled ← np_interp new_len (current_audio st);
    Return (false,
            {| current_audio := resampled;
               total_speed_adjustment :=
                 s_mul (total_speed_adjustment st) pass_speed;
               final_audio := resampled;
               final_start_index := final_start_index st;
               polarity_sign := polarity_sign st |}).

(** [for pass_num in range(2)], left early by [break]. *)
Fixpoint passes (self : DeepSeal.t) (reference_preamble : list sample)
    (start_idx : Z) (start_val : sample) (range : list nat) (st : state)
  : result state :=
  match range with
  | [] => Return st
  | pass_num :: rest =>
      '(broke, st) ← pass self reference_preamble start_idx start_val
                       pass_num st;
      if broke : bool then Return st
      else passes self reference_preamble start_idx start_val rest st
  end.

(** Lines 303-414: the loop, then the last resynchronisation. *)
Definition speed_loop (self : DeepSeal.t)
    (processed_audio reference_preamble : list sample)
    (start_idx : Z) (start_val : sample)
  : result (DeepSeal.sync_result sample) :=
  let st :=
    {| current_audio := processed_audio;
       total_speed_adjustment := s_of_Z 1;
       final_audio := processed_audio;
       final_start_index := start_idx;
       polarity_sign := polarity_of start_val |} in
  st ← passes self reference_preamble start_idx start_val (seq 0 2) st;
  let pred_start := f_trunc_mul start_idx (total_speed_adjustment st) in
  '(final_start_index, val) ←
    resync self (final_audio st) reference_preamble pred_start 1024;
  Return {| DeepSeal.final_audio := final_audio st;
            DeepSeal.final_start_index := final_start_index;
            DeepSeal.polarity_sign := polarity_of val |}.

(** [DeepSeal.extract], all of it. *)
Definition extract (self : DeepSeal.t) (audio : list sample)
  : result (option Z) :=
  DeepSeal.extract speed_loop self audio.

End WithKernel.
End SpeedLoop.

(** The float operations of the loop on the integer kernel: 0.1 and 0.01
    round to 0, a ratio is a quotient, and resampling pads or cuts. *)
Module IntSync.

#[global] Instance sync_kernel : SyncKernel IntKernel.kernel := {|
  f_trunc_mul := λ n x, n * x;
  f_tenth := 0;
  f_hundredth := 0;
  f_ratio := λ n m, n / m;
  f_peak_above := λ t s, Z.abs s <? Z.abs t * 10;
  f_converged := λ p, p =? 1;
  np_interp := λ n x,
    if n <? 0 then Raise NegativeDimensions
    else Return (take (Z.to_nat n) (x ++ replicate (Z.to_nat n) 0))
|}.

(** The audio of [Demo] cut after 90 samples (the payload ends at 86), the
    reference preamble, and what the loop returns for them and the first
    peak (index 0, value 16). *)
Definition processed : list Z := Eval vm_compute in take 90 Demo.watermarked.

Definition reference : list Z :=
  Eval vm_compute in
    match Np.repeat DeepSeal.preamble_bits 1 with
    | Return r =>
        zip_with Z.mul (map (λ b, b * 2 - 1) r) (take 16 Demo.pn)
    | Raise _ => []
    end.

Definition looped : DeepSeal.sync_result Z :=
  Eval vm_compute in
    match SpeedLoop.speed_loop Demo.self processed reference 0 16 with
    | Return s => s
    | Raise _ =>
        {| DeepSeal.final_audio := []; DeepSeal.final_start_index := 0;
           DeepSeal.polarity_sign := 0 |}
    end.

End IntSync.

(** ** Predicates of the proofs *)

(** The number of positions at which two arrays differ. *)
Definition differing (a b : list Z) : nat :=
  length (List.filter (λ p : Z * Z, negb (p.1 =? p.2)) (zip a b)).


(** An array of 40 zeros but for nibble [b], which holds the bits of [v]. *)
Definition nibble_error (b : nat) (v : Z) : list Z :=
  concat (map (λ t, if (t =? b)%nat then DeepSeal.int_to_bits v 4
                    else replicate 4 0)
              (seq 0 10)).


(** The 40 bits that [embed] hands to the Hamming encoder: the 32 bits of
    the versioned identifier, then the 8 bits of their CRC. *)
Definition protected_bits (final_id : Z) : list Z :=
  DeepSeal.int_to_bits final_id 32
  ++ DeepSeal.int_to_bits (FEC.crc8 (PyInt.bytes_big 4 final_id)) 8.

(** What [extract] compares in its last step, as one number: the CRC computed
    from the first 32 bits against the CRC read from the last 8. *)
Definition crc_residue (bits : list Z) : Z :=
  Z.lxor (FEC.crc8 (PyInt.bytes_big 4 (DeepSeal.bits_to_int (take 32 bits))))
         (DeepSeal.bits_to_int (drop 32 bits)).

(** An array of [n] zeros with a one at index [i]. *)
Definition unit_bits (n i : nat) : list Z := <[i := 1]> (replicate n 0).

Definition is_byte (b : Z) : Prop := 0 ≤ b < 256.


(** A block as the channel may deliver it: one bit inverted, or none. *)
Definition corrupt (e : option nat) (block : list Z) : list Z :=
  match e with
  | Some j => FEC.flip_bit j block
  | None => block
  end.

(** The blocks of seven bits of a coded array. *)
Definition block_of (c : list Z) (i : nat) : list Z := take 7 (drop (i * 7) c).


(** [r] raises neither of the two exceptions [embed] raises itself. *)
Definition foreign {A} (r : result A) : Prop :=
  ∀ e, r = Raise e → e ≠ InvalidId ∧ e ≠ HostTooShort.

(** The injector as [RealTimeInjector.__init__] builds it, whatever its
    buffer holds. *)
Definition injector_of {K : Kernel} (watermark_id chip_rate sample_rate : Z)
    (self : RealTimeInjector.t) : Prop :=
  self = RealTimeInjector.set_buffer
           (RealTimeInjector.init watermark_id chip_rate sample_rate)
           (RealTimeInjector.buffer self).

(** * Properties *)

(** ** The kernel on integers satisfies the laws *)

Lemma lcg_bits_length n st : length (IntKernel.lcg_bits n st).1 = n.
Proof.
  revert st. induction n as [|n IH]; intros st; [done|].
  cbn [IntKernel.lcg_bits].
  specialize (IH ((1103515245 * st + 12345) mod 2 ^ 31)).
  destruct (IntKernel.lcg_bits n _) as [bs last]. cbn in *. by rewrite IH.
Qed.

Lemma lcg_bits_range n st b : b ∈ (IntKernel.lcg_bits n st).1 → 0 ≤ b ≤ 1.
Proof.
  revert st. induction n as [|n IH]; intros st; cbn [IntKernel.lcg_bits].
  - cbn. by intros ?%elem_of_nil.
  - specialize (IH ((1103515245 * st + 12345) mod 2 ^ 31)).
    destruct (IntKernel.lcg_bits n _) as [bs last]. cbn in *.
    intros [->|Hb]%elem_of_cons; [|by apply IH].
    match goal with
    | |- 0 ≤ ?x mod 2 ≤ 1 => pose proof (Z.mod_pos_bound x 2 eq_refl); lia
    end.
Qed.

#[global] Instance int_kernel_laws : KernelLaws IntKernel.kernel.
Proof.
  split.
  - intros st lo hi n. cbn.
    pose proof (lcg_bits_length n st) as Hlen.
    destruct (IntKernel.lcg_bits n st) as [bs last]. cbn in *.
    by rewrite length_map.
  - intros st lo hi n x Hlt. cbn.
    pose proof (lcg_bits_range n st) as Hrange.
    destruct (IntKernel.lcg_bits n st) as [bs last]. cbn in *.
    intros (b & -> & Hb)%list_elem_of_fmap. specialize (Hrange b Hb). nia.
  - intros st n. cbn. symmetry. apply Permutation_rev.
  - done.
  - done.
  - intros w x. cbn. by rewrite length_map.
  - intros n x y. cbn. rewrite length_take, length_app, length_replicate. lia.
Qed.

(** ** Slices with bounds that are not negative *)

Lemma py_index_nonneg len i : 0 ≤ i → Np.py_index len i = Z.min i len.
Proof. intros Hi. unfold Np.py_index. destruct (Z.ltb_spec i 0); lia. Qed.

Lemma slice_eq {A} (xs : list A) a b :
  0 ≤ a ≤ b →
  Np.slice xs a b = take (Z.to_nat (b - a)) (drop (Z.to_nat a) xs).
Proof.
  intros Hab. unfold Np.slice. rewrite !py_index_nonneg by lia.
  destruct (Z.le_gt_cases (Z.of_nat (length xs)) a) as [Hge|Hlt].
  - rewrite !(drop_ge xs) by lia. by rewrite !take_nil.
  - rewrite (Z.min_l a) by lia.
    destruct (Z.le_gt_cases b (Z.of_nat (length xs))) as [Hb|Hb].
    + by rewrite Z.min_l by lia.
    + rewrite Z.min_r by lia.
      rewrite !take_ge; [done| |]; rewrite length_drop; lia.
Qed.

Lemma slice_to_eq {A} (xs : list A) stop :
  0 ≤ stop → Np.slice_to xs stop = take (Z.to_nat stop) xs.
Proof.
  intros Hs. unfold Np.slice_to. rewrite slice_eq by lia.
  cbn [Z.to_nat drop]. by rewrite Z.sub_0_r.
Qed.

Lemma slice_from_eq {A} (xs : list A) start :
  0 ≤ start → Np.slice_from xs start = drop (Z.to_nat start) xs.
Proof.
  intros Hs. unfold Np.slice_from. rewrite py_index_nonneg by lia.
  destruct (Z.le_gt_cases start (Z.of_nat (length xs))).
  - by rewrite Z.min_l by lia.
  - rewrite Z.min_r by lia. rewrite !drop_ge; [done|lia|lia].
Qed.

Lemma slice_length {A} (xs : list A) a b :
  0 ≤ a ≤ b → b ≤ Z.of_nat (length xs) →
  length (Np.slice xs a b) = Z.to_nat (b - a).
Proof.
  intros Hab Hb. rewrite slice_eq by done.
  rewrite length_take, length_drop. lia.
Qed.

(** ** fec.py: CRC-8 and Hamming(7,4) *)

Example crc8_probe : FEC.crc8 [0x10; 0x00; 0x00; 0x01] = 0x60.
Proof. vm_compute. reflexivity. Qed.

Example encode_probe :
  FEC.encode_hamming [1; 0; 1; 1] = Return [1; 0; 1; 1; 0; 1; 0].
Proof. vm_compute. reflexivity. Qed.

Example decode_probe :
  FEC.decode_hamming (FEC.flip_bit 2 [1; 0; 1; 1; 0; 1; 0]) = Return [1; 0; 1; 1].
Proof. vm_compute. reflexivity. Qed.

Example sha256_empty_probe :
  SHA256.sha256 (SHA256.encode_utf8 EmptyString) =
  [0xe3; 0xb0; 0xc4; 0x42; 0x98; 0xfc; 0x1c; 0x14; 0x9a; 0xfb; 0xf4; 0xc8;
   0x99; 0x6f; 0xb9; 0x24; 0x27; 0xae; 0x41; 0xe4; 0x64; 0x9b; 0x93; 0x4c;
   0xa4; 0x95; 0x99; 0x1b; 0x78; 0x52; 0xb8; 0x55].
Proof. vm_compute. reflexivity. Qed.

Example sha256_abc_probe :
  take 4 (SHA256.sha256 (SHA256.encode_utf8 "abc")) = [0xba; 0x78; 0x16; 0xbf].
Proof. vm_compute. reflexivity. Qed.

Example sha256_two_blocks_probe :
  take 4 (SHA256.sha256 (replicate 70 0x61)) = [0x6b; 0xd5; 0xe5; 0x03].
Proof. vm_compute. reflexivity. Qed.

(** C5.  Hamming(7,4) corrects one error: a block of four bits is encoded
    to seven bits of syndrome 0 that decode to the block unchanged, every
    single flipped position [j < 7] still decodes to the block, and the
    dictionary from syndromes to positions is the table
    {1:4, 2:5, 3:0, 4:6, 5:1, 6:2, 7:3}. *)
Theorem hamming_single_error_correction (d : list Z) :
  length d = 4%nat → Forall FEC.is_bit d →
  ∃ c, FEC.encode_hamming d = Return c
     ∧ length c = 7%nat
     ∧ FEC.syndrome c = 0
     ∧ FEC.correct_block c = c
     ∧ FEC.decode_hamming c = Return d
     ∧ (∀ j, (j < 7)%nat → FEC.decode_hamming (FEC.flip_bit j c) = Return d)
     ∧ FEC.syndrome_map = FEC.spec_syndrome_table.
Proof.
  intros Hlen Hbits.
  destruct d as [|d1 [|d2 [|d3 [|d4 [|? ?]]]]]; try discriminate Hlen.
  apply Forall_cons in Hbits as [H1 Hbits].
  apply Forall_cons in Hbits as [H2 Hbits].
  apply Forall_cons in Hbits as [H3 Hbits].
  apply Forall_cons in Hbits as [H4 _].
  assert (FEC.syndrome_map = FEC.spec_syndrome_table) as Htable
    by (vm_compute; reflexivity).
  destruct H1 as [-> | ->], H2 as [-> | ->], H3 as [-> | ->], H4 as [-> | ->];
    (eexists; split; [vm_compute; reflexivity|];
     split; [reflexivity|]; split; [vm_compute; reflexivity|];
     split; [vm_compute; reflexivity|]; split; [vm_compute; reflexivity|];
     split; [|exact Htable];
     intros j Hj; do 7 (destruct j as [|j]; [vm_compute; reflexivity|]); lia).
Qed.

Lemma hamming_single_error_correction_witness :
  length [1; 0; 1; 1] = 4%nat ∧ Forall FEC.is_bit [1; 0; 1; 1] ∧
  ∃ c, FEC.encode_hamming [1; 0; 1; 1] = Return c
     ∧ length c = 7%nat
     ∧ FEC.syndrome c = 0
     ∧ FEC.correct_block c = c
     ∧ FEC.decode_hamming c = Return [1; 0; 1; 1]
     ∧ (∀ j, (j < 7)%nat →
          FEC.decode_hamming (FEC.flip_bit j c) = Return [1; 0; 1; 1])
     ∧ FEC.syndrome_map = FEC.spec_syndrome_table.
Proof.
  assert (Hb : Forall FEC.is_bit [1; 0; 1; 1]).
  { repeat constructor; unfold FEC.is_bit; lia. }
  split; [reflexivity|]. split; [exact Hb|].
  exact (hamming_single_error_correction [1; 0; 1; 1] eq_refl Hb).
Defined.

(** ** deepseal.py: seed, PN sequence, search window *)

Example derive_seed_key_probe :
  DeepSeal.derive_seed None (Some "secret_A"%string) = 0x5dd4a339.
Proof. vm_compute. reflexivity. Qed.



(** The search window of [extract] has the length the source writes. *)
Lemma search_len_eq {K : Kernel} (self : DeepSeal.t) :
  DeepSeal.search_len self = 32 * DeepSeal.chip_rate self + 88200.
Proof. unfold DeepSeal.search_len. cbn. lia. Qed.

Lemma search_len_spec_iff {K : Kernel} (self : DeepSeal.t) :
  DeepSeal.search_len self
    = Spec.search_len (DeepSeal.chip_rate self) (DeepSeal.sample_rate self)
  ↔ DeepSeal.sample_rate self = 44100.
Proof. rewrite search_len_eq. unfold Spec.search_len. lia. Qed.

(** C6.  At [chip_rate = 256] and [sample_rate = 8000] the specification's
    window is 24192 samples; the source takes 96392, so that a recording
    of 50000 pre-processed samples is searched whole. *)
Theorem search_window_at_8000 :
  let self := DeepSeal.init (K := IntKernel.kernel) None None 256 8000 false in
  Spec.search_len 256 8000 = 24192 ∧
  DeepSeal.search_len self = 96392 ∧
  length (DeepSeal.search_window self (replicate (Z.to_nat 50000) 0))
    = Z.to_nat 50000.
Proof.
  cbv zeta. split; [reflexivity|]. split; [reflexivity|].
  unfold DeepSeal.search_window.
  rewrite search_len_eq, length_replicate.
  cbn [DeepSeal.init DeepSeal.chip_rate].
  rewrite slice_to_eq by lia.
  rewrite length_take, length_replicate. lia.
Qed.

(** The PN sequence of an object depends on its seed only. *)
Lemma generate_pn_sequence_seed {K : Kernel} (self other : DeepSeal.t) n :
  DeepSeal.seed other = DeepSeal.seed self →
  (DeepSeal.generate_pn_sequence other n).1
  = (DeepSeal.generate_pn_sequence self n).1.
Proof.
  intros Hseed. unfold DeepSeal.generate_pn_sequence. rewrite Hseed.
  destruct (n <? 0); [done|]. by destruct (randint _ _ _ _).
Qed.

Lemma generate_pn_sequence_self {K : Kernel} (self : DeepSeal.t) n :
  (DeepSeal.generate_pn_sequence self n).2 = self.
Proof.
  unfold DeepSeal.generate_pn_sequence.
  destruct (n <? 0); [done|]. by destruct (randint _ _ _ _).
Qed.

Lemma generate_pn_sequence_Return {K : Kernel} {L : KernelLaws K} (self : DeepSeal.t) n :
  0 ≤ n →
  ∃ pn, (DeepSeal.generate_pn_sequence self n).1 = Return pn
      ∧ length pn = Z.to_nat n
      ∧ Forall (λ x, x = s_of_Z (-1) ∨ x = s_of_Z 1) pn.
Proof.
  intros Hn. unfold DeepSeal.generate_pn_sequence.
  destruct (Z.ltb_spec n 0) as [|_]; [lia|].
  pose proof (randint_length (RandomState (DeepSeal.seed self)) 0 2 (Z.to_nat n))
    as Hlen.
  pose proof (randint_range (RandomState (DeepSeal.seed self)) 0 2 (Z.to_nat n))
    as Hrange.
  destruct (randint _ _ _ _) as [noise st]. cbn in *.
  eexists. split; [reflexivity|]. split; [by rewrite length_map|].
  apply Forall_fmap, Forall_forall. intros b Hb. cbn.
  specialize (Hrange b eq_refl Hb).
  assert (b = 0 ∨ b = 1) as [-> | ->] by lia; [by left | by right].
Qed.

(** C9.  [generate_pn_sequence] returns exactly [n] elements, each -1.0 or
    +1.0; the object is unchanged by the call (its own generator [rng]
    included), so a second call returns the same sequence, as does any
    object with the same seed. *)
Theorem generate_pn_contract {K : Kernel} {L : KernelLaws K} (self : DeepSeal.t) (n : Z) :
  0 ≤ n →
  ∃ pn, DeepSeal.generate_pn_sequence self n = (Return pn, self)
      ∧ length pn = Z.to_nat n
      ∧ Forall (λ x, x = s_of_Z (-1) ∨ x = s_of_Z 1) pn
      ∧ (∀ other, DeepSeal.seed other = DeepSeal.seed self →
           DeepSeal.generate_pn_sequence other n = (Return pn, other)).
Proof.
  intros Hn.
  destruct (generate_pn_sequence_Return self n Hn) as (pn & Hpn & Hlen & Hdom).
  exists pn. split; [|split; [done|split; [done|]]].
  - rewrite (surjective_pairing (DeepSeal.generate_pn_sequence self n)).
    by rewrite Hpn, generate_pn_sequence_self.
  - intros other Hseed.
    rewrite (surjective_pairing (DeepSeal.generate_pn_sequence other n)).
    by rewrite (generate_pn_sequence_seed self other n Hseed), Hpn,
      generate_pn_sequence_self.
Qed.

Lemma generate_pn_contract_witness :
  let self := DeepSeal.init (K := IntKernel.kernel) (Some 123) None 256 44100 false in
  0 ≤ 8 ∧
  ∃ pn, DeepSeal.generate_pn_sequence self 8 = (Return pn, self)
      ∧ length pn = Z.to_nat 8
      ∧ Forall (λ x, x = s_of_Z (-1) ∨ x = s_of_Z 1) pn
      ∧ (∀ other, DeepSeal.seed other = DeepSeal.seed self →
           DeepSeal.generate_pn_sequence other 8 = (Return pn, other)).
Proof.
  split; [lia|].
  apply (generate_pn_contract (K := IntKernel.kernel) (L := int_kernel_laws)).
  lia.
Defined.

Example generate_pn_probe :
  (DeepSeal.generate_pn_sequence
     (DeepSeal.init (K := IntKernel.kernel) (Some 123) None 256 44100 false) 6).1
  = Return [1; -1; 1; -1; -1; 1].
Proof. vm_compute. reflexivity. Qed.

(** ** Exceptions of the building blocks *)

Lemma foreign_Return {A} (a : A) : foreign (Return a).
Proof. by intros e. Qed.

Lemma foreign_bind {A B} (r : result A) (f : A → result B) :
  foreign r → (∀ a, foreign (f a)) → foreign (r ≫= f).
Proof.
  intros Hr Hf e. destruct r as [a|e']; cbn.
  - apply Hf.
  - intros [= ->]. by apply Hr.
Qed.

Lemma foreign_to_bytes_big w v : foreign (DeepSeal.to_bytes_big w v).
Proof.
  intros e. unfold DeepSeal.to_bytes_big.
  destruct (_ || _); [|done]. by intros [= <-].
Qed.

Lemma foreign_np_concatenate {A} (ls : list (list A)) :
  foreign (FEC.np_concatenate ls).
Proof. intros e. destruct ls; [|done]. by intros [= <-]. Qed.

Lemma foreign_encode_hamming bits : foreign (FEC.encode_hamming bits).
Proof.
  unfold FEC.encode_hamming. destruct (negb _).
  - intros e. by intros [= <-].
  - apply foreign_np_concatenate.
Qed.

Lemma foreign_decode_hamming bits : foreign (FEC.decode_hamming bits).
Proof.
  unfold FEC.decode_hamming. destruct (negb _).
  - intros e. by intros [= <-].
  - apply foreign_np_concatenate.
Qed.

Lemma foreign_take_indices {A} (xs : list A) idx :
  foreign (Np.take_indices xs idx).
Proof.
  induction idx as [|i idx IH]; cbn; [apply foreign_Return|].
  destruct (xs !! i); [|by intros e [= <-]].
  apply foreign_bind; [done|]. intros. apply foreign_Return.
Qed.

Lemma foreign_zip {A B C} (f : A → B → C) xs ys : foreign (Np.zip f xs ys).
Proof. unfold Np.zip. destruct (_ =? _)%nat; [done|]. by intros e [= <-]. Qed.

Lemma foreign_repeat {A} (xs : list A) n : foreign (Np.repeat xs n).
Proof. unfold Np.repeat. destruct (_ <? _); [|done]. by intros e [= <-]. Qed.

Lemma foreign_generate_pn {K : Kernel} (self : DeepSeal.t) n :
  foreign (DeepSeal.generate_pn_sequence self n).1.
Proof.
  unfold DeepSeal.generate_pn_sequence. destruct (_ <? _).
  - by intros e [= <-].
  - by destruct (randint _ _ _ _).
Qed.

Lemma foreign_apply_bandpass {K : Kernel} (self : DeepSeal.t) x :
  foreign (DeepSeal.apply_bandpass self x).
Proof.
  unfold DeepSeal.apply_bandpass. destruct (_ =? _); [by intros e [= <-]|].
  destruct (butter_accepts _); [done|]. by intros e [= <-].
Qed.

Lemma apply_bandpass_Return {K : Kernel} (self : DeepSeal.t) x :
  DeepSeal.bandpass_ready self → DeepSeal.telecom_mode self = true →
  DeepSeal.apply_bandpass self x
  = Return (butter_lfilter (DeepSeal.sample_rate self) x).
Proof.
  intros Hready Htel. destruct (Hready Htel) as [Hnz Hacc].
  unfold DeepSeal.apply_bandpass. rewrite Hacc.
  by destruct (Z.eqb_spec (DeepSeal.sample_rate self) 0).
Qed.

Lemma apply_bandpass_inv {K : Kernel} (self : DeepSeal.t) x y :
  DeepSeal.apply_bandpass self x = Return y →
  DeepSeal.sample_rate self ≠ 0
  ∧ butter_accepts (DeepSeal.sample_rate self) = true.
Proof.
  unfold DeepSeal.apply_bandpass.
  destruct (Z.eqb_spec (DeepSeal.sample_rate self) 0); [done|].
  by destruct (butter_accepts _).
Qed.

Create HintDb foreign.
#[local] Hint Resolve foreign_Return foreign_to_bytes_big
  foreign_encode_hamming foreign_decode_hamming foreign_take_indices
  foreign_zip foreign_repeat foreign_generate_pn foreign_apply_bandpass
  : foreign.

Ltac foreign_steps :=
  repeat first
    [ apply foreign_bind; [solve [auto with foreign]|intros ?]
    | solve [auto with foreign] ].

(** Below 2^28 [modulate] never raises [InvalidId] or [HostTooShort]. *)
Lemma foreign_modulate {K : Kernel} (self : DeepSeal.t) id :
  id < 2 ^ 28 → foreign (DeepSeal.modulate self id).
Proof.
  intros Hid. unfold DeepSeal.modulate.
  destruct (Z.leb_spec (2 ^ 28) id); [lia|].
  foreign_steps. destruct (DeepSeal.telecom_mode self); foreign_steps.
Qed.

Lemma modulate_InvalidId {K : Kernel} (self : DeepSeal.t) id :
  DeepSeal.modulate self id = Raise InvalidId ↔ 2 ^ 28 ≤ id.
Proof.
  split.
  - intros Hraise. destruct (Z.le_gt_cases (2 ^ 28) id) as [|Hlt]; [done|].
    by destruct (foreign_modulate self id Hlt _ Hraise).
  - intros Hid. unfold DeepSeal.modulate.
    by destruct (Z.leb_spec (2 ^ 28) id); [|lia].
Qed.

(** ** Shapes along [modulate] *)

Lemma int_to_bits_length v n : length (DeepSeal.int_to_bits v n) = n.
Proof.
  unfold DeepSeal.int_to_bits. by rewrite length_map, length_rev, length_seq.
Qed.

Lemma concat_length_const {A} (ls : list (list A)) m :
  Forall (λ l, length l = m) ls → length (concat ls) = (m * length ls)%nat.
Proof.
  induction 1 as [|l ls Hl _ IH]; cbn; [lia|].
  rewrite length_app, IH, Hl. lia.
Qed.

Lemma np_concatenate_map {A B} (f : A → list B) (xs : list A) :
  xs ≠ [] → FEC.np_concatenate (map f xs) = Return (concat (map f xs)).
Proof. by destruct xs. Qed.

Lemma encode_nibble_length bits i : length (FEC.encode_nibble bits i) = 7%nat.
Proof. unfold FEC.encode_nibble, FEC.vec_mat. by rewrite !length_map. Qed.

Lemma encode_hamming_eq bits k :
  length bits = (4 * S k)%nat →
  FEC.encode_hamming bits
  = Return (concat (map (FEC.encode_nibble bits) (seq 0 (S k)))).
Proof.
  intros Hlen. unfold FEC.encode_hamming. rewrite Hlen.
  rewrite (Nat.mul_comm 4), Nat.Div0.mod_mul, Nat.div_mul by lia.
  cbn [Nat.eqb negb]. by apply np_concatenate_map.
Qed.

Lemma encode_hamming_Return bits k :
  length bits = (4 * S k)%nat →
  ∃ c, FEC.encode_hamming bits = Return c ∧ length c = (7 * S k)%nat.
Proof.
  intros Hlen. eexists. split; [by apply encode_hamming_eq|].
  rewrite (concat_length_const _ 7).
  - by rewrite length_map, length_seq.
  - apply Forall_forall. intros l (i & -> & _)%list_elem_of_fmap.
    apply encode_nibble_length.
Qed.

Lemma take_indices_Return {A} (xs : list A) (idx : list nat) :
  Forall (λ i, i < length xs)%nat idx →
  ∃ ys, Np.take_indices xs idx = Return ys
      ∧ length ys = length idx
      ∧ ∀ j i, idx !! j = Some i → ys !! j = xs !! i.
Proof.
  induction 1 as [|i idx Hi _ (ys & Hys & Hlen & Hnth)]; cbn.
  - exists []. by split; [|split; [|intros j i ?]].
  - destruct (lookup_lt_is_Some_2 xs i Hi) as [x Hx].
    rewrite Hx, Hys. cbn. exists (x :: ys).
    split; [done|]. split; [cbn; by rewrite Hlen|].
    intros [|j] i'; cbn; [by intros [= <-]|apply Hnth].
Qed.

Lemma perm_indices_perm {K : Kernel} {L : KernelLaws K} n :
  DeepSeal.perm_indices n ≡ₚ seq 0 n.
Proof. apply permutation_perm. Qed.

Lemma perm_indices_length {K : Kernel} {L : KernelLaws K} n :
  length (DeepSeal.perm_indices n) = n.
Proof. by rewrite perm_indices_perm, length_seq. Qed.

Lemma perm_indices_lt {K : Kernel} {L : KernelLaws K} n :
  Forall (λ i, i < n)%nat (DeepSeal.perm_indices n).
Proof.
  apply Forall_forall. intros i Hi.
  rewrite perm_indices_perm in Hi. apply elem_of_seq in Hi. lia.
Qed.

Lemma lor_bound a b n :
  0 ≤ n → 0 ≤ a < 2 ^ n → 0 ≤ b < 2 ^ n → 0 ≤ Z.lor a b < 2 ^ n.
Proof.
  intros Hn Ha Hb.
  assert (0 ≤ Z.lor a b) as Hnonneg by (apply Z.lor_nonneg; lia).
  split; [done|].
  destruct (Z.eq_dec (Z.lor a b) 0) as [->|Hne]; [lia|].
  apply Z.log2_lt_pow2; [lia|].
  rewrite Z.log2_lor by lia.
  assert (0 < n) as Hpos.
  { destruct (Z.eq_dec n 0) as [->|]; [|lia].
    assert (a = 0) as -> by lia. assert (b = 0) as -> by lia. done. }
  assert (∀ x, 0 ≤ x < 2 ^ n → Z.log2 x < n) as Hlog.
  { intros x Hx. destruct (Z.eq_dec x 0) as [->|Hx0]; [cbn; lia|].
    apply Z.log2_lt_pow2; lia. }
  apply Z.max_lub_lt; by apply Hlog.
Qed.

Lemma final_id_range id :
  0 ≤ id < 2 ^ 28 → 0 ≤ Z.lor (Z.shiftl 1 28) id < 2 ^ 32.
Proof.
  intros Hid. change (Z.shiftl 1 28) with (2 ^ 28).
  apply lor_bound; lia.
Qed.

Lemma to_bytes_big_Return w v :
  0 ≤ v < 256 ^ Z.of_nat w →
  DeepSeal.to_bytes_big w v = Return (PyInt.bytes_big w v).
Proof.
  intros Hv. unfold DeepSeal.to_bytes_big.
  destruct (Z.ltb_spec v 0); [lia|].
  destruct (Z.leb_spec (256 ^ Z.of_nat w) v); [lia|done].
Qed.

Lemma repeat_Return {A} (xs : list A) n :
  0 ≤ n →
  ∃ ys, Np.repeat xs n = Return ys
      ∧ length ys = (length xs * Z.to_nat n)%nat.
Proof.
  intros Hn. unfold Np.repeat. destruct (Z.ltb_spec n 0); [lia|].
  eexists. split; [done|].
  rewrite (concat_length_const _ (Z.to_nat n)).
  - rewrite length_map. lia.
  - apply Forall_forall. intros l (x & -> & _)%list_elem_of_fmap.
    apply length_replicate.
Qed.

Lemma zip_Return {A B C} (f : A → B → C) xs ys :
  length xs = length ys →
  Np.zip f xs ys = Return (zip_with f xs ys)
  ∧ length (zip_with f xs ys) = length xs.
Proof.
  intros Hlen. unfold Np.zip. rewrite Hlen, Nat.eqb_refl.
  split; [done|]. rewrite length_zip_with. lia.
Qed.

(** For an identifier below 2^28 [modulate] returns [102 * chip_rate]
    samples. *)
Lemma modulate_Return {K : Kernel} {L : KernelLaws K} (self : DeepSeal.t) id :
  0 ≤ id < 2 ^ 28 →
  0 ≤ DeepSeal.chip_rate self →
  DeepSeal.bandpass_ready self →
  ∃ s, DeepSeal.modulate self id = Return s
     ∧ Z.of_nat (length s) = 102 * DeepSeal.chip_rate self.
Proof.
  intros Hid Hchip Hrate. unfold DeepSeal.modulate.
  destruct (Z.leb_spec (2 ^ 28) id); [lia|].
  rewrite to_bytes_big_Return by (apply final_id_range; lia). cbn [mbind result_bind].
  destruct (encode_hamming_Return
    (DeepSeal.int_to_bits (Z.lor (Z.shiftl 1 28) id) 32 ++
     DeepSeal.int_to_bits
       (FEC.crc8 (PyInt.bytes_big 4 (Z.lor (Z.shiftl 1 28) id))) 8) 9)
    as (c & -> & Hc).
  { by rewrite length_app, !int_to_bits_length. }
  cbn [mbind result_bind].
  destruct (take_indices_Return c (DeepSeal.perm_indices (length c)))
    as (il & -> & Hil & _); [apply perm_indices_lt|].
  rewrite perm_indices_length in Hil. cbn [mbind result_bind].
  set (bits := DeepSeal.preamble_bits ++ il ++ DeepSeal.preamble_bits).
  assert (length bits = 102%nat) as Hbits.
  { unfold bits. rewrite !length_app, Hil, Hc. reflexivity. }
  rewrite Hbits.
  destruct (generate_pn_sequence_Return self (Z.of_nat 102 * DeepSeal.chip_rate self))
    as (pn & -> & Hpn & _); [lia|].
  cbn [mbind result_bind].
  destruct (repeat_Return bits (DeepSeal.chip_rate self) Hchip)
    as (rep & -> & Hrep).
  cbn [mbind result_bind].
  destruct (zip_Return (λ m p, s_mul (s_of_Z m) p)
              (map (λ b, b * 2 - 1) rep) pn) as [-> Hzip].
  { rewrite length_map, Hrep, Hpn, Hbits. lia. }
  cbn [mbind result_bind].
  rewrite length_map, Hrep, Hbits in Hzip.
  destruct (DeepSeal.telecom_mode self) eqn:Htel.
  - rewrite apply_bandpass_Return by done.
    eexists. split; [done|]. rewrite butter_lfilter_length, Hzip. lia.
  - eexists. split; [done|]. rewrite Hzip. lia.
Qed.

(** With a negative chip rate the PN generator is asked for a negative
    number of chips. *)
Lemma modulate_negative {K : Kernel} {L : KernelLaws K} (self : DeepSeal.t) id :
  0 ≤ id < 2 ^ 28 →
  DeepSeal.chip_rate self < 0 →
  DeepSeal.modulate self id = Raise NegativeDimensions.
Proof.
  intros Hid Hchip. unfold DeepSeal.modulate.
  destruct (Z.leb_spec (2 ^ 28) id); [lia|].
  rewrite to_bytes_big_Return by (apply final_id_range; lia). cbn [mbind result_bind].
  destruct (encode_hamming_Return
    (DeepSeal.int_to_bits (Z.lor (Z.shiftl 1 28) id) 32 ++
     DeepSeal.int_to_bits
       (FEC.crc8 (PyInt.bytes_big 4 (Z.lor (Z.shiftl 1 28) id))) 8) 9)
    as (c & -> & Hc).
  { by rewrite length_app, !int_to_bits_length. }
  cbn [mbind result_bind].
  destruct (take_indices_Return c (DeepSeal.perm_indices (length c)))
    as (il & -> & Hil & _); [apply perm_indices_lt|].
  cbn [mbind result_bind]. unfold DeepSeal.generate_pn_sequence.
  set (total_chips := Z.of_nat _ * DeepSeal.chip_rate self).
  assert (total_chips < 0) as Hneg.
  { subst total_chips. rewrite length_app. cbn [length DeepSeal.preamble_bits].
    nia. }
  by destruct (Z.ltb_spec total_chips 0); [|lia].
Qed.

(** ** [embed]: shaping, weighting, injection *)

Lemma n_fft_ge n :
  0 ≤ n → n ≤ Z.shiftl 1 (DeepSeal.bit_length (n - 1)).
Proof.
  intros Hn. unfold DeepSeal.bit_length.
  destruct (Z.eqb_spec (n - 1) 0) as [Hz|Hnz].
  - change (Z.shiftl 1 0) with 1. lia.
  - rewrite Z.shiftl_1_l.
    destruct (Z.eq_dec n 0) as [->|Hn0]; [done|].
    rewrite Z.abs_eq by lia.
    pose proof (Z.log2_spec (n - 1)). unfold Z.succ in *. lia.
Qed.

Lemma shape_spectrum_length {K : Kernel} {L : KernelLaws K}
    (noise audio : list sample) :
  length (DeepSeal.shape_spectrum noise audio) = length noise.
Proof.
  unfold DeepSeal.shape_spectrum.
  destruct (Nat.eqb_spec (length noise) (length audio)) as [Heq|]; [|done].
  cbn [negb]. rewrite slice_to_eq by lia.
  rewrite length_take, spectral_shape_length.
  pose proof (n_fft_ge (Z.of_nat (length audio))). lia.
Qed.

Lemma compute_masking_threshold_length {K : Kernel} {L : KernelLaws K}
    (self : DeepSeal.t) (audio : list sample) :
  length (DeepSeal.compute_masking_threshold self audio) = length audio.
Proof.
  unfold DeepSeal.compute_masking_threshold.
  by rewrite length_map, rms_envelope_length.
Qed.

Lemma embed_signal_short {K : Kernel} (self : DeepSeal.t) audio id s :
  DeepSeal.modulate self id = Return s →
  (length audio < length s)%nat →
  DeepSeal.embed_signal self audio id = Raise HostTooShort.
Proof.
  intros Hs Hlen. unfold DeepSeal.embed_signal. rewrite Hs.
  cbn [mbind result_bind].
  by destruct (Nat.ltb_spec (length audio) (length s)); [|lia].
Qed.

Lemma embed_signal_Return {K : Kernel} {L : KernelLaws K}
    (self : DeepSeal.t) audio id s :
  DeepSeal.modulate self id = Return s →
  (length s ≤ length audio)%nat →
  ∃ w, DeepSeal.embed_signal self audio id = Return (s, w)
     ∧ length w = length s.
Proof.
  intros Hs Hlen. unfold DeepSeal.embed_signal. rewrite Hs.
  cbn [mbind result_bind].
  destruct (Nat.ltb_spec (length audio) (length s)); [lia|].
  rewrite slice_to_eq by lia. rewrite Nat2Z.id.
  set (host := take (length s) audio).
  assert (length host = length s) as Hhost.
  { unfold host. rewrite length_take. lia. }
  set (shaped := if s_above_eps _ then _ else _).
  assert (length shaped = length s) as Hshaped.
  { unfold shaped. destruct (s_above_eps _);
      [rewrite length_map|]; apply shape_spectrum_length. }
  destruct (zip_Return s_mul shaped
              (DeepSeal.compute_masking_threshold self host)) as [-> Hw].
  { by rewrite compute_masking_threshold_length, Hshaped, Hhost. }
  cbn [mbind result_bind]. eexists. split; [done|]. by rewrite Hw.
Qed.

Lemma embed_signal_Raise {K : Kernel} (self : DeepSeal.t) h audio id e :
  DeepSeal.embed_signal self (DeepSeal.deref h audio) id = Raise e →
  DeepSeal.embed self h audio id = (Raise e, h).
Proof. intros He. unfold DeepSeal.embed. by rewrite He. Qed.

Lemma deref_alloc {K : Kernel} (h : list (list sample)) v :
  DeepSeal.deref (DeepSeal.alloc h v).2 (DeepSeal.alloc h v).1 = v.
Proof.
  unfold DeepSeal.deref, DeepSeal.alloc. cbn.
  by rewrite lookup_app_r, Nat.sub_diag.
Qed.

(** The array [embed] returns is a new one: the copy of the host with the
    watermark added onto its first [len(spread_signal)] samples. *)
Lemma embed_Return {K : Kernel} (self : DeepSeal.t) h audio id s w :
  DeepSeal.embed_signal self (DeepSeal.deref h audio) id = Return (s, w) →
  length w = length s →
  (length s ≤ length (DeepSeal.deref h audio))%nat →
  let host := DeepSeal.deref h audio in
  DeepSeal.embed self h audio id
  = (Return (length h),
     <[length h :=
         zip_with s_add (take (length s) host) w ++ drop (length s) host]>
       (h ++ [host])).
Proof.
  intros He Hw Hlen host. unfold DeepSeal.embed. rewrite He.
  pose proof (deref_alloc h host) as Hcopy.
  unfold DeepSeal.alloc in *. cbn [fst snd] in Hcopy. fold host.
  rewrite Hcopy, slice_to_eq, slice_from_eq, Nat2Z.id by lia.
  destruct (zip_Return s_add (take (length s) host) w) as [-> _]; [|done].
  rewrite length_take. fold host in Hlen. lia.
Qed.

(** C4, amended.  For an embedder whose band-pass filter exists (telecom
    mode off, or a sample rate the filter can be designed for), [embed]
    raises [InvalidId] exactly when the identifier is at least 2^28; for an
    identifier in [0, 2^28) it raises [HostTooShort] exactly when the host
    has fewer than [102 * chip_rate] samples; in both cases there is no
    returned array and the store, the host in it, is as it was before the
    call.  (In telecom mode the band-pass filter is designed before the
    length is tested.) *)
Theorem embed_failure_preconditions {K : Kernel} {L : KernelLaws K}
    (self : DeepSeal.t) (h : list (list sample)) (audio : nat) (id : Z) :
  DeepSeal.bandpass_ready self →
  let out := DeepSeal.embed self h audio id in
  (out.1 = Raise InvalidId ↔ 2 ^ 28 ≤ id) ∧
  (0 ≤ id < 2 ^ 28 →
     (out.1 = Raise HostTooShort
      ↔ Z.of_nat (length (DeepSeal.deref h audio))
          < 102 * DeepSeal.chip_rate self)) ∧
  (out.1 = Raise InvalidId ∨ out.1 = Raise HostTooShort →
     out.2 = h ∧ DeepSeal.deref out.2 audio = DeepSeal.deref h audio).
Proof.
  intros Hrate out. subst out.
  set (host := DeepSeal.deref h audio).
  assert (∀ e, DeepSeal.embed_signal self host id = Raise e →
               DeepSeal.embed self h audio id = (Raise e, h)) as Hraise.
  { intros e. apply embed_signal_Raise. }
  assert (0 ≤ id < 2 ^ 28 →
          (∃ s, DeepSeal.modulate self id = Return s
              ∧ Z.of_nat (length s) = 102 * DeepSeal.chip_rate self)
          ∨ (DeepSeal.modulate self id = Raise NegativeDimensions
             ∧ DeepSeal.chip_rate self < 0)) as Hcases.
  { intros Hid.
    destruct (Z.lt_ge_cases (DeepSeal.chip_rate self) 0) as [Hneg|Hpos].
    - right. split; [by apply modulate_negative|done].
    - left. by apply modulate_Return. }
  destruct (Z.le_gt_cases (2 ^ 28) id) as [Hbig|Hsmall].
  - (* the identifier is too large *)
    assert (DeepSeal.embed_signal self host id = Raise InvalidId) as He.
    { unfold DeepSeal.embed_signal.
      by rewrite (proj2 (modulate_InvalidId self id) Hbig). }
    rewrite (Hraise _ He). cbn. split; [done|]. split; [lia|done].
  - destruct (DeepSeal.modulate self id) as [s|e] eqn:Hmod.
    + destruct (Nat.lt_ge_cases (length host) (length s)) as [Hshort|Hlong].
      * (* the host is too short *)
        rewrite (Hraise _ (embed_signal_short self host id s Hmod Hshort)).
        cbn. split; [split; [done|lia]|]. split; [|done].
        intros Hid.
        destruct (Hcases Hid) as [(s' & [= <-] & Hlen')|[[=] _]].
        split; [lia|done].
      * (* the watermark is embedded *)
        destruct (embed_signal_Return self host id s Hmod Hlong)
          as (w & He & Hw).
        rewrite (embed_Return self h audio id s w He Hw Hlong). cbn.
        split; [split; [done|lia]|]. split; [|by intros [|]].
        intros Hid.
        destruct (Hcases Hid) as [(s' & [= <-] & Hlen')|[[=] _]].
        split; [done|lia].
    + (* another exception, neither of the two *)
      assert (DeepSeal.embed_signal self host id = Raise e) as He.
      { unfold DeepSeal.embed_signal. by rewrite Hmod. }
      destruct (foreign_modulate self id Hsmall e Hmod) as [Hne1 Hne2].
      rewrite (Hraise _ He). cbn.
      split; [split; [congruence|lia]|]. split; [|done].
      intros Hid.
      destruct (Hcases Hid) as [(s' & [=] & _)|[_ Hneg]].
      split; [congruence|lia].
Qed.

Lemma embed_failure_preconditions_witness :
  let self := DeepSeal.init (K := IntKernel.kernel) None None 1 44100 true in
  let h : list (list sample) := [replicate 100 0] in
  let out := DeepSeal.embed self h 0%nat 5 in
  DeepSeal.bandpass_ready self ∧
  (out.1 = Raise InvalidId ↔ 2 ^ 28 ≤ 5) ∧
  (0 ≤ 5 < 2 ^ 28 →
     (out.1 = Raise HostTooShort
      ↔ Z.of_nat (length (DeepSeal.deref h 0%nat))
          < 102 * DeepSeal.chip_rate self)) ∧
  (out.1 = Raise InvalidId ∨ out.1 = Raise HostTooShort →
     out.2 = h ∧ DeepSeal.deref out.2 0%nat = DeepSeal.deref h 0%nat).
Proof.
  cbv zeta.
  assert (DeepSeal.bandpass_ready
            (DeepSeal.init (K := IntKernel.kernel) None None 1 44100 true))
    as Hrate by (intros _; split; [discriminate|reflexivity]).
  split; [exact Hrate|].
  exact (embed_failure_preconditions (K := IntKernel.kernel)
           (L := int_kernel_laws)
           (DeepSeal.init None None 1 44100 true) [replicate 100 0] 0%nat 5
           Hrate).
Defined.

Example embed_short_host_probe :
  DeepSeal.embed (DeepSeal.init (K := IntKernel.kernel) None None 1 44100 false)
    [replicate 100 0] 0%nat 5
  = (Raise HostTooShort, [replicate 100 0]).
Proof. vm_compute. reflexivity. Qed.

Example embed_invalid_id_probe :
  DeepSeal.embed (DeepSeal.init (K := IntKernel.kernel) None None 1 44100 false)
    [replicate 200 0] 0%nat 0x1FFFFFFF
  = (Raise InvalidId, [replicate 200 0]).
Proof. vm_compute. reflexivity. Qed.

Example embed_negative_id_probe :
  (DeepSeal.embed (DeepSeal.init (K := IntKernel.kernel) None None 1 44100 false)
    [replicate 200 0] 0%nat (-1)).1
  = Raise OverflowError.
Proof. vm_compute. reflexivity. Qed.

(** C7, amended.  For an embedder whose band-pass filter exists (telecom
    mode off, or a sample rate the filter can be designed for), a positive
    chip rate, an identifier in [0, 2^28) and a host of at least
    [102 * chip_rate] samples, [embed] returns an array of the length of
    the host whose samples from index [102 * chip_rate] on are those of the
    host: only the samples in [0, 102 * chip_rate) can differ.  The array
    is a new one and the host keeps its contents. *)
Theorem embed_frame_and_length {K : Kernel} {L : KernelLaws K}
    (self : DeepSeal.t) (h : list (list sample)) (audio : nat)
    (id : Z) :
  0 ≤ id < 2 ^ 28 →
  0 < DeepSeal.chip_rate self →
  DeepSeal.bandpass_ready self →
  102 * DeepSeal.chip_rate self ≤ Z.of_nat (length (DeepSeal.deref h audio)) →
  ∃ out h',
    DeepSeal.embed self h audio id = (Return out, h')
    ∧ length (DeepSeal.deref h' out) = length (DeepSeal.deref h audio)
    ∧ (∀ i : nat, 102 * DeepSeal.chip_rate self ≤ Z.of_nat i →
         DeepSeal.deref h' out !! i = DeepSeal.deref h audio !! i)
    ∧ out ≠ audio
    ∧ DeepSeal.deref h' audio = DeepSeal.deref h audio.
Proof.
  intros Hid Hchip Hrate Hhost.
  set (host := DeepSeal.deref h audio) in *.
  destruct (modulate_Return self id Hid) as (s & Hmod & Hs); [lia|done|].
  assert (length s ≤ length host)%nat as Hlen by lia.
  destruct (embed_signal_Return self host id s Hmod Hlen) as (w & He & Hw).
  rewrite (embed_Return self h audio id s w He Hw Hlen). fold host.
  set (sum := zip_with s_add (take (length s) host) w).
  assert (length sum = length s) as Hsum.
  { unfold sum. rewrite length_zip_with, length_take. lia. }
  assert (audio < length h)%nat as Hvalid.
  { destruct (Nat.lt_ge_cases audio (length h)) as [|Hge]; [done|].
    unfold host, DeepSeal.deref in Hhost.
    rewrite (lookup_ge_None_2 h audio Hge) in Hhost. cbn in Hhost. lia. }
  assert (DeepSeal.deref
            (<[length h := sum ++ drop (length s) host]> (h ++ [host]))
            (length h) = sum ++ drop (length s) host) as Hout.
  { unfold DeepSeal.deref. rewrite list_lookup_insert_eq; [done|].
    rewrite length_app. cbn. lia. }
  eexists _, _. split; [reflexivity|]. rewrite Hout.
  split; [|split; [|split]].
  - rewrite length_app, length_drop, Hsum. lia.
  - intros i Hi. rewrite lookup_app_r by lia.
    rewrite lookup_drop, Hsum. f_equal. lia.
  - lia.
  - unfold DeepSeal.deref.
    rewrite list_lookup_insert_ne by lia. by rewrite lookup_app_l.
Qed.

Lemma embed_frame_and_length_witness :
  let self := DeepSeal.init (K := IntKernel.kernel) None None 1 44100 true in
  let h : list (list sample) := [replicate 110 7] in
  0 ≤ 5 < 2 ^ 28 ∧
  0 < DeepSeal.chip_rate self ∧
  DeepSeal.bandpass_ready self ∧
  102 * DeepSeal.chip_rate self ≤ Z.of_nat (length (DeepSeal.deref h 0%nat)) ∧
  ∃ out h',
    DeepSeal.embed self h 0%nat 5 = (Return out, h')
    ∧ length (DeepSeal.deref h' out) = length (DeepSeal.deref h 0%nat)
    ∧ (∀ i : nat, 102 * DeepSeal.chip_rate self ≤ Z.of_nat i →
         DeepSeal.deref h' out !! i = DeepSeal.deref h 0%nat !! i)
    ∧ out ≠ 0%nat
    ∧ DeepSeal.deref h' 0%nat = DeepSeal.deref h 0%nat.
Proof.
  cbv zeta.
  assert (0 ≤ 5 < 2 ^ 28) as Hid by (split; [discriminate|reflexivity]).
  assert (0 < 1) as Hchip by reflexivity.
  assert (DeepSeal.bandpass_ready
            (DeepSeal.init (K := IntKernel.kernel) None None 1 44100 true))
    as Hrate by (intros _; split; [discriminate|reflexivity]).
  assert (102 * 1 ≤ Z.of_nat 110) as Hhost by discriminate.
  split; [exact Hid|]. split; [exact Hchip|]. split; [exact Hrate|].
  split; [exact Hhost|].
  exact (embed_frame_and_length (K := IntKernel.kernel) (L := int_kernel_laws)
           (DeepSeal.init None None 1 44100 true) [replicate 110 7] 0%nat 5
           Hid Hchip Hrate Hhost).
Defined.

Example embed_probe :
  let self := DeepSeal.init (K := IntKernel.kernel) None None 1 44100 false in
  (take 4 <$> DeepSeal.embed_array self (replicate 110 7) 5,
   drop 100 <$> DeepSeal.embed_array self (replicate 110 7) 5)
  = (Return [8; 8; 8; 8], Return [6; 6; 7; 7; 7; 7; 7; 7; 7; 7]).
Proof. vm_compute. reflexivity. Qed.

(** ** realtime.py: the stream adapter *)

Lemma embed_array_short {K : Kernel} {L : KernelLaws K}
    (self : DeepSeal.t) (frame : list sample) id :
  0 ≤ id < 2 ^ 28 →
  0 ≤ DeepSeal.chip_rate self →
  DeepSeal.bandpass_ready self →
  Z.of_nat (length frame) < 102 * DeepSeal.chip_rate self →
  DeepSeal.embed_array self frame id = Raise HostTooShort.
Proof.
  intros Hid Hchip Hrate Hlen.
  destruct (modulate_Return self id Hid Hchip Hrate) as (s & Hmod & Hs).
  unfold DeepSeal.embed_array.
  rewrite (embed_signal_Raise self [frame] 0%nat id HostTooShort); [done|].
  apply (embed_signal_short self _ id s Hmod). cbn. lia.
Qed.

Lemma injector_of_set_buffer {K : Kernel} id c sr self b :
  injector_of id c sr self →
  injector_of id c sr (RealTimeInjector.set_buffer self b).
Proof. intros ->. reflexivity. Qed.

Lemma set_buffer_same {K : Kernel} (self : RealTimeInjector.t) :
  RealTimeInjector.set_buffer self (RealTimeInjector.buffer self) = self.
Proof. by destruct self. Qed.

Lemma drain_below {K : Kernel} fuel (self : RealTimeInjector.t) :
  Z.of_nat (length (RealTimeInjector.buffer self))
    < RealTimeInjector.chunk_size self →
  RealTimeInjector.drain fuel self = ([], None, self).
Proof.
  intros Hlt. destruct fuel; cbn [RealTimeInjector.drain];
    by destruct (Z.ltb_spec (Z.of_nat (length (RealTimeInjector.buffer self)))
                   (RealTimeInjector.chunk_size self)); [|lia].
Qed.

(** A buffer of at least [86 * chip_rate] samples: the frame cut from it is
    shorter than the 102 bits of a watermark, and [embed] refuses it. *)
Lemma drain_raises {K : Kernel} {L : KernelLaws K} id c sr fuel
    (self : RealTimeInjector.t) :
  0 < c → 0 ≤ id < 2 ^ 28 →
  injector_of id c sr self →
  86 * c ≤ Z.of_nat (length (RealTimeInjector.buffer self)) →
  ∃ self', RealTimeInjector.drain (S fuel) self
           = ([], Some (RealTimeInjector.Raised HostTooShort), self').
Proof.
  intros Hc Hid Hself Hlen. rewrite Hself in *. clear Hself.
  set (b := RealTimeInjector.buffer self) in *. clearbody b. clear self.
  cbn [RealTimeInjector.drain RealTimeInjector.set_buffer
       RealTimeInjector.init RealTimeInjector.buffer
       RealTimeInjector.chunk_size RealTimeInjector.ds
       RealTimeInjector.watermark_id] in *.
  destruct (Z.ltb_spec (Z.of_nat (length b)) (86 * c)); [lia|].
  rewrite embed_array_short; [by eexists|done|cbn; lia|done|].
  rewrite slice_to_eq by lia. rewrite length_take.
  cbn [DeepSeal.init DeepSeal.chip_rate]. lia.
Qed.

Lemma process_stream_from {K : Kernel} {L : KernelLaws K} id c sr
    (audio_stream : list (list sample)) (self : RealTimeInjector.t) :
  0 < c → 0 ≤ id < 2 ^ 28 →
  injector_of id c sr self →
  Z.of_nat (length (RealTimeInjector.buffer self)) < 86 * c →
  let total := RealTimeInjector.buffer self ++ concat audio_stream in
  if Z.of_nat (length total) <? 86 * c
  then RealTimeInjector.process_stream self audio_stream
       = (match total with [] => [] | _ => [total] end,
          RealTimeInjector.Exhausted,
          RealTimeInjector.set_buffer self total)
  else ∃ self', RealTimeInjector.process_stream self audio_stream
                = ([], RealTimeInjector.Raised HostTooShort, self').
Proof.
  intros Hc Hid. revert self.
  induction audio_stream as [|chunk rest IH]; intros self Hself Hlt total.
  - subst total. cbn [concat]. rewrite app_nil_r.
    destruct (Z.ltb_spec (Z.of_nat (length (RealTimeInjector.buffer self)))
                (86 * c)); [|lia].
    cbn [RealTimeInjector.process_stream].
    rewrite set_buffer_same. by destruct (RealTimeInjector.buffer self).
  - cbn [RealTimeInjector.process_stream].
    set (self1 := RealTimeInjector.set_buffer self
                    (RealTimeInjector.buffer self ++ chunk)).
    assert (injector_of id c sr self1) as Hself1
      by by apply injector_of_set_buffer.
    assert (RealTimeInjector.chunk_size self1 = 86 * c) as Hsize
      by by rewrite Hself1.
    assert (total = RealTimeInjector.buffer self1 ++ concat rest) as Htotal.
    { subst total self1. cbn. by rewrite app_assoc. }
    destruct (Z.lt_ge_cases
                (Z.of_nat (length (RealTimeInjector.buffer self1))) (86 * c))
      as [Hsmall|Hfull].
    + rewrite drain_below by lia.
      specialize (IH self1 Hself1 Hsmall). cbv zeta in IH.
      rewrite <- Htotal in IH.
      destruct (Z.of_nat (length total) <? 86 * c).
      * rewrite IH. by destruct total.
      * destruct IH as [self' ->]. by eexists.
    + destruct (drain_raises id c sr (length (RealTimeInjector.buffer self1))
                  self1 Hc Hid Hself1 Hfull) as [self' ->].
      destruct (Z.ltb_spec (Z.of_nat (length total)) (86 * c)) as [Hlt'|_];
        [|by eexists].
      rewrite Htotal, length_app in Hlt'. lia.
Qed.

(** C3.  Once the chunks received amount to [86 * chip_rate] samples, the
    injector cuts a frame of [86 * chip_rate] samples and passes it to
    [embed], which needs [102 * chip_rate]: the generator ends with the
    exception of a host too short and has yielded nothing. *)
Theorem process_stream_frame_raises {K : Kernel} {L : KernelLaws K}
    (watermark_id chip_rate sample_rate : Z)
    (audio_stream : list (list sample)) :
  0 < chip_rate →
  0 ≤ watermark_id < 2 ^ 28 →
  86 * chip_rate ≤ Z.of_nat (length (concat audio_stream)) →
  ∃ self',
    RealTimeInjector.process_stream
      (RealTimeInjector.init watermark_id chip_rate sample_rate) audio_stream
    = ([], RealTimeInjector.Raised HostTooShort, self').
Proof.
  intros Hc Hid Hlen.
  pose proof (process_stream_from watermark_id chip_rate sample_rate
    audio_stream (RealTimeInjector.init watermark_id chip_rate sample_rate)
    Hc Hid eq_refl) as Hrun.
  cbn [RealTimeInjector.init RealTimeInjector.buffer length app] in Hrun.
  specialize (Hrun ltac:(lia)). cbv zeta in Hrun.
  destruct (Z.ltb_spec (Z.of_nat (length (concat audio_stream)))
              (86 * chip_rate)); [lia|done].
Qed.

Lemma process_stream_frame_raises_witness :
  let audio_stream : list (list sample) := [replicate 50 1; replicate 50 2] in
  0 < 1 ∧ 0 ≤ 5 < 2 ^ 28 ∧
  86 * 1 ≤ Z.of_nat (length (concat audio_stream)) ∧
  ∃ self',
    RealTimeInjector.process_stream
      (RealTimeInjector.init (K := IntKernel.kernel) 5 1 44100) audio_stream
    = ([], RealTimeInjector.Raised HostTooShort, self').
Proof.
  cbv zeta.
  assert (0 ≤ 5 < 2 ^ 28) as Hid by (split; [discriminate|reflexivity]).
  assert (86 * 1 ≤ Z.of_nat
            (length (concat [replicate 50 1; replicate 50 2]))) as Hlen
    by discriminate.
  split; [reflexivity|]. split; [exact Hid|]. split; [exact Hlen|].
  exact (process_stream_frame_raises (K := IntKernel.kernel)
           (L := int_kernel_laws) 5 1 44100
           [replicate 50 1; replicate 50 2] eq_refl Hid Hlen).
Defined.

(** Below [86 * chip_rate] samples in all, the stream passes unchanged. *)
Lemma process_stream_short_stream {K : Kernel} {L : KernelLaws K}
    (watermark_id chip_rate sample_rate : Z)
    (audio_stream : list (list sample)) :
  0 < chip_rate →
  0 ≤ watermark_id < 2 ^ 28 →
  Z.of_nat (length (concat audio_stream)) < 86 * chip_rate →
  (RealTimeInjector.process_stream
     (RealTimeInjector.init watermark_id chip_rate sample_rate)
     audio_stream).1
  = (match concat audio_stream with [] => [] | t => [t] end,
     RealTimeInjector.Exhausted).
Proof.
  intros Hc Hid Hlen.
  pose proof (process_stream_from watermark_id chip_rate sample_rate
    audio_stream (RealTimeInjector.init watermark_id chip_rate sample_rate)
    Hc Hid eq_refl) as Hrun.
  cbn [RealTimeInjector.init RealTimeInjector.buffer length app] in Hrun.
  specialize (Hrun ltac:(lia)). cbv zeta in Hrun.
  destruct (Z.ltb_spec (Z.of_nat (length (concat audio_stream)))
              (86 * chip_rate)); [|lia].
  rewrite Hrun. cbn. by destruct (concat audio_stream).
Qed.

Example process_stream_probe :
  (RealTimeInjector.process_stream
     (RealTimeInjector.init (K := IntKernel.kernel) 5 1 44100)
     [replicate 50 1; replicate 30 2; replicate 30 3]).1
  = ([], RealTimeInjector.Raised HostTooShort).
Proof. vm_compute. reflexivity. Qed.

(** ** [extract]: demodulation, de-interleaving, decoding, CRC *)

Lemma bind_Return_inv {A B} (r : result A) (f : A → result B) b :
  r ≫= f = Return b → ∃ a, r = Return a ∧ f a = Return b.
Proof. destruct r as [a|e]; cbn; [eauto|done]. Qed.

Lemma bits_to_int_step v bit :
  0 ≤ v →
  Z.lor (Z.shiftl v 1) (Z.b2z (1 <? 2 * bit)) = 2 * v + Z.b2z (1 <? 2 * bit).
Proof.
  intros Hv. destruct (1 <? 2 * bit); destruct v; try lia; reflexivity.
Qed.

Lemma bits_fold_bound bits acc :
  0 ≤ acc →
  acc * 2 ^ Z.of_nat (length bits)
  ≤ fold_left (λ val bit, Z.lor (Z.shiftl val 1) (Z.b2z (1 <? 2 * bit)))
      bits acc
  < (acc + 1) * 2 ^ Z.of_nat (length bits).
Proof.
  revert acc. induction bits as [|b bits IH]; intros acc Hacc.
  - cbn. lia.
  - cbn [fold_left length]. rewrite bits_to_int_step by done.
    rewrite Nat2Z.inj_succ, Z.pow_succ_r by lia.
    assert (0 ≤ Z.b2z (1 <? 2 * b) ≤ 1) by (destruct (1 <? 2 * b); cbn; lia).
    specialize (IH (2 * acc + Z.b2z (1 <? 2 * b)) ltac:(lia)).
    assert (0 < 2 ^ Z.of_nat (length bits)) by (apply Z.pow_pos_nonneg; lia).
    nia.
Qed.

Lemma bits_to_int_bound bits :
  0 ≤ DeepSeal.bits_to_int bits < 2 ^ Z.of_nat (length bits).
Proof.
  pose proof (bits_fold_bound bits 0 ltac:(lia)) as Hb.
  unfold DeepSeal.bits_to_int. lia.
Qed.

(** The last step of [extract] on 40 decoded bits: the CRC decides. *)
Lemma verify_crc_40 (decoded : list Z) :
  length decoded = 40%nat →
  let payload := DeepSeal.bits_to_int (take 32 decoded) in
  let crc := DeepSeal.bits_to_int (drop 32 decoded) in
  0 ≤ payload < 2 ^ 32 ∧
  DeepSeal.verify_crc decoded
  = Return (if FEC.crc8 (PyInt.bytes_big 4 payload) =? crc
            then Some (Z.land payload 0x0FFFFFFF) else None).
Proof.
  intros Hlen payload crc.
  assert (0 ≤ payload < 2 ^ 32) as Hp.
  { pose proof (bits_to_int_bound (take 32 decoded)) as Hb.
    rewrite length_take, Hlen in Hb. exact Hb. }
  split; [done|]. unfold DeepSeal.verify_crc. rewrite Hlen. cbn [Nat.eqb negb].
  fold payload. fold crc.
  rewrite to_bytes_big_Return by (change (256 ^ Z.of_nat 4) with (2 ^ 32); lia).
  cbn [mbind result_bind]. by destruct (_ =? _).
Qed.

Lemma verify_crc_other (decoded : list Z) :
  length decoded ≠ 40%nat → DeepSeal.verify_crc decoded = Return None.
Proof.
  intros Hlen. unfold DeepSeal.verify_crc.
  by destruct (Nat.eqb_spec (length decoded) 40).
Qed.

Lemma argsort_perm keys : Np.argsort keys ≡ₚ seq 0 (length keys).
Proof.
  unfold Np.argsort. rewrite merge_sort_Permutation.
  rewrite snd_zip; [done|]. rewrite length_seq. lia.
Qed.

Lemma deinterleave_Return {K : Kernel} {L : KernelLaws K} (raw : list Z) :
  ∃ d, DeepSeal.deinterleave raw = Return d
     ∧ length d = length raw
     ∧ ∀ k i, Np.argsort (DeepSeal.perm_indices (length raw)) !! k = Some i →
              d !! k = raw !! i.
Proof.
  unfold DeepSeal.deinterleave.
  destruct (take_indices_Return raw
              (Np.argsort (DeepSeal.perm_indices (length raw))))
    as (d & Hd & Hlen & Hnth).
  - apply Forall_forall. intros i Hi.
    rewrite argsort_perm, perm_indices_length in Hi.
    apply elem_of_seq in Hi. lia.
  - exists d. split; [done|]. split; [|done].
    by rewrite Hlen, argsort_perm, length_seq, perm_indices_length.
Qed.

Lemma correct_block_length block :
  length (FEC.correct_block block) = length block.
Proof.
  unfold FEC.correct_block. destruct (0 <? _); [|done].
  destruct (FEC.syndrome_map !! _); [|done]. apply length_insert.
Qed.

Lemma decode_block_length bits i :
  (i * 7 + 7 ≤ length bits)%nat → length (FEC.decode_block bits i) = 4%nat.
Proof.
  intros Hi. unfold FEC.decode_block.
  rewrite length_take, correct_block_length, length_take, length_drop. lia.
Qed.

Lemma decode_hamming_eq bits k :
  length bits = (7 * S k)%nat →
  FEC.decode_hamming bits
  = Return (concat (map (FEC.decode_block bits) (seq 0 (S k)))).
Proof.
  intros Hlen. unfold FEC.decode_hamming. rewrite Hlen.
  rewrite (Nat.mul_comm 7), Nat.Div0.mod_mul, Nat.div_mul by lia.
  cbn [Nat.eqb negb]. by apply np_concatenate_map.
Qed.

Lemma decode_hamming_Return bits k :
  length bits = (7 * S k)%nat →
  ∃ d, FEC.decode_hamming bits = Return d ∧ length d = (4 * S k)%nat.
Proof.
  intros Hlen. eexists. split; [by apply decode_hamming_eq|].
  rewrite (concat_length_const _ 4).
  - by rewrite length_map, length_seq.
  - apply Forall_forall. intros l (i & -> & Hi)%list_elem_of_fmap.
    apply elem_of_seq in Hi. apply decode_block_length. lia.
Qed.

Lemma demodulate_Return {K : Kernel} {L : KernelLaws K}
    (self : DeepSeal.t) (pn : list sample) (s : DeepSeal.sync_result sample) :
  0 ≤ DeepSeal.chip_rate self →
  DeepSeal.bandpass_ready self →
  Z.of_nat (length pn) = 86 * DeepSeal.chip_rate self →
  0 ≤ DeepSeal.final_start_index s →
  DeepSeal.final_start_index s + 86 * DeepSeal.chip_rate self
    ≤ Z.of_nat (length (DeepSeal.final_audio s)) →
  ∃ raw, DeepSeal.demodulate self pn s = Return raw
       ∧ length raw = 70%nat
       ∧ Forall FEC.is_bit raw.
Proof.
  intros Hc Hrate Hpn Hstart Hfits. unfold DeepSeal.demodulate.
  change (Z.of_nat (length DeepSeal.preamble_bits)) with 16.
  change (Z.of_nat 70) with 70.
  set (c := DeepSeal.chip_rate self) in *.
  set (payload_audio := Np.slice (DeepSeal.final_audio s) _ _).
  set (payload_pn := Np.slice pn _ _).
  assert (length payload_audio = Z.to_nat (70 * c)) as Haudio.
  { unfold payload_audio. rewrite slice_length by lia. f_equal. lia. }
  assert (length payload_pn = Z.to_nat (70 * c)) as Hpayload.
  { unfold payload_pn. rewrite slice_length by lia. f_equal. lia. }
  assert (∃ filtered,
            (if DeepSeal.telecom_mode self
             then DeepSeal.apply_bandpass self payload_pn
             else Return (pre_emphasis payload_pn)) = Return filtered
            ∧ length filtered = Z.to_nat (70 * c)) as (filtered & -> & Hf).
  { destruct (DeepSeal.telecom_mode self) eqn:Htel.
    - rewrite apply_bandpass_Return by done.
      eexists. split; [done|]. by rewrite butter_lfilter_length.
    - eexists. split; [done|]. by rewrite pre_emphasis_length. }
  cbn [mbind result_bind].
  destruct (zip_Return s_mul payload_audio filtered) as [-> _]; [lia|].
  cbn [mbind result_bind]. eexists. split; [done|].
  split; [by rewrite length_map, length_seq|].
  apply Forall_fmap, Forall_forall. intros i _. cbn.
  destruct (s_positive _); [by right|by left].
Qed.

(** The payload window past the end of the audio: not found. *)
Lemma extract_payload_overflow {K : Kernel}
    (self : DeepSeal.t) (pn : list sample) (s : DeepSeal.sync_result sample) :
  Z.of_nat (length (DeepSeal.final_audio s))
    < DeepSeal.final_start_index s + 86 * DeepSeal.chip_rate self →
  DeepSeal.extract_payload self pn s = Return None.
Proof.
  intros Hover. unfold DeepSeal.extract_payload.
  change (Z.of_nat (length DeepSeal.preamble_bits)) with 16.
  by destruct (Z.ltb_spec (Z.of_nat (length (DeepSeal.final_audio s)))
                 (DeepSeal.final_start_index s
                  + 16 * DeepSeal.chip_rate self
                  + 70 * DeepSeal.chip_rate self)); [|lia].
Qed.

(** The payload window inside the audio: 70 bits are demodulated, 40 are
    decoded, and the CRC test gives the result. *)
Lemma extract_payload_fits {K : Kernel} {L : KernelLaws K}
    (self : DeepSeal.t) (pn : list sample) (s : DeepSeal.sync_result sample) :
  0 ≤ DeepSeal.chip_rate self →
  DeepSeal.bandpass_ready self →
  Z.of_nat (length pn) = 86 * DeepSeal.chip_rate self →
  0 ≤ DeepSeal.final_start_index s →
  DeepSeal.final_start_index s + 86 * DeepSeal.chip_rate self
    ≤ Z.of_nat (length (DeepSeal.final_audio s)) →
  ∃ raw decoded,
    DeepSeal.demodulate self pn s = Return raw
    ∧ length raw = 70%nat
    ∧ DeepSeal.deinterleave raw ≫= FEC.decode_hamming = Return decoded
    ∧ length decoded = 40%nat
    ∧ DeepSeal.extract_payload self pn s = DeepSeal.verify_crc decoded.
Proof.
  intros Hc Hrate Hpn Hstart Hfits.
  destruct (demodulate_Return self pn s Hc Hrate Hpn Hstart Hfits)
    as (raw & Hraw & Hlen & _).
  destruct (deinterleave_Return raw) as (d & Hd & Hdlen & _).
  destruct (decode_hamming_Return d 9) as (decoded & Hdec & Hdeclen).
  { by rewrite Hdlen, Hlen. }
  exists raw, decoded. split; [done|]. split; [done|].
  split; [by rewrite Hd|]. split; [done|].
  unfold DeepSeal.extract_payload.
  change (Z.of_nat (length DeepSeal.preamble_bits)) with 16.
  destruct (Z.ltb_spec (Z.of_nat (length (DeepSeal.final_audio s)))
              (DeepSeal.final_start_index s
               + 16 * DeepSeal.chip_rate self
               + 70 * DeepSeal.chip_rate self)); [lia|].
  rewrite Hraw. cbn [mbind result_bind]. unfold DeepSeal.decode_raw_bits.
  rewrite Hd. cbn [mbind result_bind]. by rewrite Hdec.
Qed.

(** What a synchronisation that returns tells about the configuration. *)
Lemma synchronise_Return {K : Kernel} {L : KernelLaws K}
    speed_loop (self : DeepSeal.t) audio pn s :
  DeepSeal.synchronise speed_loop self audio = Return (pn, s) →
  0 ≤ DeepSeal.chip_rate self
  ∧ DeepSeal.bandpass_ready self
  ∧ Z.of_nat (length pn) = 86 * DeepSeal.chip_rate self.
Proof.
  unfold DeepSeal.synchronise.
  change (Z.of_nat (length DeepSeal.preamble_bits)) with 16.
  intros (processed & Hpre & Hrest)%bind_Return_inv.
  apply bind_Return_inv in Hrest as (full_pn & Hgen & Hrest).
  apply bind_Return_inv in Hrest as (repeated & _ & Hrest).
  apply bind_Return_inv in Hrest as (ref & _ & Hrest).
  apply bind_Return_inv in Hrest as (ref' & _ & Hrest).
  apply bind_Return_inv in Hrest as ([start_idx start_val] & _ & Hrest).
  apply bind_Return_inv in Hrest as (s' & _ & [= -> ->]).
  assert (0 ≤ DeepSeal.chip_rate self) as Hc.
  { unfold DeepSeal.generate_pn_sequence in Hgen.
    destruct (Z.ltb_spec (16 * DeepSeal.chip_rate self
                          + 70 * DeepSeal.chip_rate self) 0); [done|lia]. }
  split; [done|]. split.
  - intros Htel. rewrite Htel in Hpre.
    apply bind_Return_inv in Hpre as (filtered & Hband & _).
    by apply apply_bandpass_inv in Hband.
  - destruct (generate_pn_sequence_Return self
                (16 * DeepSeal.chip_rate self + 70 * DeepSeal.chip_rate self))
      as (pn' & Hpn' & Hlen & _); [lia|].
    rewrite Hgen in Hpn'. injection Hpn' as <-. lia.
Qed.

Lemma land_low28 payload :
  Z.land payload 0x0FFFFFFF = payload mod 2 ^ 28.
Proof. change 0x0FFFFFFF with (Z.ones 28). by rewrite Z.land_ones. Qed.


(** ** The bit codec and the CRC *)

Lemma int_to_bits_S v n :
  DeepSeal.int_to_bits v (S n)
  = Z.land (Z.shiftr v (Z.of_nat n)) 1 :: DeepSeal.int_to_bits v n.
Proof.
  unfold DeepSeal.int_to_bits. by rewrite seq_S, rev_app_distr.
Qed.

Lemma land_1_mod x : Z.land x 1 = x mod 2.
Proof. exact (Z.land_ones x 1 ltac:(lia)). Qed.

Lemma land_1_bit x : Z.land x 1 = 0 ∨ Z.land x 1 = 1.
Proof.
  rewrite land_1_mod. pose proof (Z.mod_pos_bound x 2 eq_refl). lia.
Qed.

Lemma int_to_bits_is_bit v n : Forall FEC.is_bit (DeepSeal.int_to_bits v n).
Proof.
  unfold DeepSeal.int_to_bits. apply Forall_fmap, Forall_forall.
  intros i _. apply land_1_bit.
Qed.

Lemma bits_fold_int_to_bits v n acc :
  0 ≤ acc →
  fold_left (λ val bit, Z.lor (Z.shiftl val 1) (Z.b2z (1 <? 2 * bit)))
    (DeepSeal.int_to_bits v n) acc
  = acc * 2 ^ Z.of_nat n + v mod 2 ^ Z.of_nat n.
Proof.
  revert acc. induction n as [|n IH]; intros acc Hacc.
  - cbn. rewrite Z.mod_1_r. lia.
  - rewrite int_to_bits_S. cbn [fold_left].
    rewrite bits_to_int_step by done.
    assert (0 < 2 ^ Z.of_nat n) as Hpow by (apply Z.pow_pos_nonneg; lia).
    remember (Z.land (Z.shiftr v (Z.of_nat n)) 1) as bit eqn:Hbit.
    rewrite land_1_mod, Z.shiftr_div_pow2 in Hbit by lia.
    assert (0 ≤ bit ≤ 1) as Hrange.
    { pose proof (Z.mod_pos_bound (v / 2 ^ Z.of_nat n) 2 eq_refl). lia. }
    assert (Z.b2z (1 <? 2 * bit) = bit) as ->.
    { destruct (Z.ltb_spec 1 (2 * bit)); cbn; lia. }
    rewrite IH by lia.
    rewrite Nat2Z.inj_succ, Z.pow_succ_r by lia.
    rewrite (Z.mul_comm 2 (2 ^ Z.of_nat n)).
    rewrite (Z.rem_mul_r v (2 ^ Z.of_nat n) 2) by lia.
    rewrite <- Hbit. ring.
Qed.

Lemma bits_to_int_int_to_bits v n :
  0 ≤ v < 2 ^ Z.of_nat n →
  DeepSeal.bits_to_int (DeepSeal.int_to_bits v n) = v.
Proof.
  intros Hv. unfold DeepSeal.bits_to_int.
  rewrite bits_fold_int_to_bits by lia. rewrite Z.mod_small by lia. lia.
Qed.

Example bits_conversion_probe :
  DeepSeal.int_to_bits 42 6 = [1; 0; 1; 0; 1; 0]
  ∧ DeepSeal.bits_to_int [1; 0; 1; 0; 1; 0] = 42.
Proof. by vm_compute. Qed.

Lemma crc8_step_range crc : 0 ≤ FEC.crc8_step crc < 256.
Proof.
  unfold FEC.crc8_step. change 0xFF with (Z.ones 8).
  rewrite Z.land_ones by lia. apply Z.mod_pos_bound. lia.
Qed.

Lemma crc8_range data_bytes : 0 ≤ FEC.crc8 data_bytes < 256.
Proof.
  unfold FEC.crc8.
  assert (∀ acc, 0 ≤ acc < 256 →
            0 ≤ fold_left
                  (λ crc b, Nat.iter 8 FEC.crc8_step (Z.lxor crc b))
                  data_bytes acc < 256) as Hfold.
  { induction data_bytes as [|b bs IH]; intros acc Hacc; [done|].
    cbn [fold_left]. apply IH. cbn [Nat.iter]. apply crc8_step_range. }
  apply Hfold. lia.
Qed.

(** ** Hamming code on whole arrays *)

Lemma concat_block {A} (ls : list (list A)) m i l :
  Forall (λ l, length l = m) ls → ls !! i = Some l →
  take m (drop (i * m) (concat ls)) = l.
Proof.
  intros Hall. revert i. induction Hall as [|l0 ls Hl0 _ IH]; intros i Hi.
  - by rewrite lookup_nil in Hi.
  - destruct i as [|i]; cbn [concat].
    + injection Hi as ->. cbn [Nat.mul drop]. by apply take_app_length'.
    + cbn in Hi. rewrite drop_app_ge by (rewrite Hl0; lia).
      replace (S i * m - length l0)%nat with (i * m)%nat by (rewrite Hl0; lia).
      by apply IH.
Qed.

Lemma concat_chunks {A} (xs : list A) m n :
  length xs = (n * m)%nat →
  concat (map (λ i, take m (drop (i * m) xs)) (seq 0 n)) = xs.
Proof.
  revert xs. induction n as [|n IH]; intros xs Hlen.
  - by destruct xs.
  - cbn [seq map concat]. rewrite <- seq_shift, map_map.
    cbn [Nat.mul drop].
    transitivity (take m xs ++ drop m xs); [|apply take_drop]. f_equal.
    rewrite <- (IH (drop m xs)) at 1 by (rewrite length_drop; lia).
    f_equal. apply map_ext. intros i. by rewrite drop_drop.
Qed.

(** One block: what [decode_block] recovers from the code of a nibble. *)
Lemma nibble_round_trip (nibble : list Z) :
  length nibble = 4%nat → Forall FEC.is_bit nibble →
  take 4 (FEC.correct_block (map (λ x, x mod 2) (FEC.vec_mat nibble FEC.G)))
  = nibble.
Proof.
  intros Hlen Hbits.
  destruct nibble as [|d1 [|d2 [|d3 [|d4 [|? ?]]]]]; try discriminate Hlen.
  apply Forall_cons in Hbits as [H1 Hbits].
  apply Forall_cons in Hbits as [H2 Hbits].
  apply Forall_cons in Hbits as [H3 Hbits].
  apply Forall_cons in Hbits as [H4 _].
  destruct H1 as [-> | ->], H2 as [-> | ->], H3 as [-> | ->], H4 as [-> | ->];
    vm_compute; reflexivity.
Qed.

Lemma Forall_take_drop {A} (P : A → Prop) (xs : list A) n m :
  Forall P xs → Forall P (take n (drop m xs)).
Proof. intros H. by apply Forall_take, Forall_drop. Qed.

(** [decode_hamming] undoes [encode_hamming] on arrays of bits. *)
Lemma hamming_round_trip (bits : list Z) k :
  length bits = (4 * S k)%nat → Forall FEC.is_bit bits →
  ∃ c, FEC.encode_hamming bits = Return c
     ∧ length c = (7 * S k)%nat
     ∧ FEC.decode_hamming c = Return bits.
Proof.
  intros Hlen Hbits.
  destruct (encode_hamming_Return bits k Hlen) as (c & Hc & Hclen).
  exists c. split; [done|]. split; [done|].
  rewrite (decode_hamming_eq c k Hclen). f_equal.
  assert (c = concat (map (FEC.encode_nibble bits) (seq 0 (S k)))) as Hcode.
  { rewrite (encode_hamming_eq bits k Hlen) in Hc. congruence. }
  transitivity (concat (map (λ i, take 4 (drop (i * 4) bits)) (seq 0 (S k))));
    [|apply concat_chunks; lia].
  f_equal. apply Forall_fmap_ext, Forall_forall. intros i Hi.
  apply elem_of_seq in Hi. unfold FEC.decode_block.
  rewrite Hcode.
  rewrite (concat_block _ 7 i (FEC.encode_nibble bits i)).
  - unfold FEC.encode_nibble. apply nibble_round_trip.
    + rewrite length_take, length_drop. lia.
    + by apply Forall_take_drop.
  - apply Forall_forall. intros l (j & -> & _)%list_elem_of_fmap.
    apply encode_nibble_length.
  - change (map (FEC.encode_nibble bits) (seq 0 (S k)))
      with (FEC.encode_nibble bits <$> seq 0 (S k)).
    rewrite list_lookup_fmap, lookup_seq_lt by lia. done.
Qed.

(** ** Interleaving *)

Lemma StronglySorted_seq a n : StronglySorted le (seq a n).
Proof.
  revert a. induction n as [|n IH]; intros a; cbn; constructor; [apply IH|].
  apply Forall_forall. intros i Hi%elem_of_seq. lia.
Qed.

#[local] Instance key_le_total : Total Np.key_le.
Proof. intros a b. unfold Np.key_le. lia. Qed.

#[local] Instance key_le_trans : Transitive Np.key_le.
Proof. intros a b c. unfold Np.key_le. lia. Qed.

(** On a permutation of [0 .. n-1], [argsort] is the inverse permutation. *)
Lemma argsort_inverse (keys : list nat) k i :
  keys ≡ₚ seq 0 (length keys) →
  Np.argsort keys !! k = Some i → keys !! i = Some k.
Proof.
  intros Hperm. unfold Np.argsort.
  set (pairs := zip keys (seq 0 (length keys))).
  set (sorted := merge_sort Np.key_le pairs).
  assert (sorted.*1 = seq 0 (length keys)) as Hkeys.
  { apply (StronglySorted_unique le).
    - apply (StronglySorted_fmap _ Np.key_le); [done|].
      apply StronglySorted_merge_sort; apply _.
    - apply StronglySorted_seq.
    - unfold sorted. rewrite merge_sort_Permutation. unfold pairs.
      rewrite fst_zip by (rewrite length_seq; lia). done. }
  rewrite list_lookup_fmap. intros Hk.
  destruct (sorted !! k) as [[key idx]|] eqn:Hsorted; [|done].
  cbn in Hk. injection Hk as ->.
  assert (key = k) as ->.
  { assert ((sorted.*1) !! k = Some key) as Hfst
      by by rewrite list_lookup_fmap, Hsorted.
    rewrite Hkeys in Hfst. apply lookup_seq in Hfst. lia. }
  assert ((k, i) ∈ pairs) as Hin.
  { rewrite <- (merge_sort_Permutation Np.key_le pairs).
    apply list_elem_of_lookup. by exists k. }
  apply list_elem_of_lookup in Hin as [j Hj].
  apply lookup_zip_with_Some in Hj as (x & y & [= -> ->] & Hx & Hy).
  apply lookup_seq in Hy as [-> _]. done.
Qed.

(** [deinterleave] undoes the interleaving of [modulate]. *)
Lemma interleave_round_trip {K : Kernel} {L : KernelLaws K} (c : list Z) :
  ∃ il, Np.take_indices c (DeepSeal.perm_indices (length c)) = Return il
      ∧ length il = length c
      ∧ DeepSeal.deinterleave il = Return c.
Proof.
  destruct (take_indices_Return c (DeepSeal.perm_indices (length c)))
    as (il & Hil & Hlen & Hnth); [apply perm_indices_lt|].
  rewrite perm_indices_length in Hlen.
  exists il. split; [done|]. split; [done|].
  destruct (deinterleave_Return il) as (d & Hd & Hdlen & Hdnth).
  rewrite Hd. f_equal. apply list_eq. intros k.
  destruct (Nat.lt_ge_cases k (length c)) as [Hk|Hk].
  - assert (is_Some (Np.argsort (DeepSeal.perm_indices (length il)) !! k))
      as [i Hi].
    { apply lookup_lt_is_Some.
      by rewrite argsort_perm, length_seq, perm_indices_length, Hlen. }
    rewrite (Hdnth k i Hi).
    apply argsort_inverse in Hi;
      [|by rewrite perm_indices_length, perm_indices_perm].
    rewrite Hlen in Hi. by rewrite (Hnth i k Hi).
  - rewrite !lookup_ge_None_2; [done|lia|lia].
Qed.

(** ** Frames and versions *)

(** A 32-bit logical payload framed as [modulate] does is decoded to its
    low 28 bits, whatever its four high bits. *)
Lemma frame_round_trip {K : Kernel} {L : KernelLaws K} (final_id : Z) :
  0 ≤ final_id < 2 ^ 32 →
  ∃ frame, DeepSeal.frame_payload_bits final_id = Return frame
         ∧ length frame = 70%nat
         ∧ DeepSeal.decode_raw_bits frame
           = Return (Some (Z.land final_id 0x0FFFFFFF)).
Proof.
  intros Hid. unfold DeepSeal.frame_payload_bits.
  rewrite to_bytes_big_Return by (change (256 ^ Z.of_nat 4) with (2 ^ 32); lia).
  cbn [mbind result_bind].
  set (crc := FEC.crc8 (PyInt.bytes_big 4 final_id)).
  set (data := DeepSeal.int_to_bits final_id 32 ++ DeepSeal.int_to_bits crc 8).
  assert (length data = 40%nat) as Hdata.
  { unfold data. by rewrite length_app, !int_to_bits_length. }
  destruct (hamming_round_trip data 9) as (c & -> & Hclen & Hdecode).
  { done. }
  { apply Forall_app; split; apply int_to_bits_is_bit. }
  cbn [mbind result_bind].
  destruct (interleave_round_trip c) as (frame & -> & Hlen & Hde).
  exists frame. split; [done|]. split; [by rewrite Hlen, Hclen|].
  unfold DeepSeal.decode_raw_bits. rewrite Hde. cbn [mbind result_bind].
  rewrite Hdecode. cbn [mbind result_bind].
  destruct (verify_crc_40 data Hdata) as [_ ->].
  assert (take 32 data = DeepSeal.int_to_bits final_id 32) as ->.
  { unfold data. apply take_app_length'. by rewrite int_to_bits_length. }
  assert (drop 32 data = DeepSeal.int_to_bits crc 8) as ->.
  { unfold data. apply drop_app_length'. by rewrite int_to_bits_length. }
  rewrite !bits_to_int_int_to_bits;
    [|pose proof (crc8_range (PyInt.bytes_big 4 final_id));
      change (2 ^ Z.of_nat 8) with 256; fold crc; lia
     |change (2 ^ Z.of_nat 32) with (2 ^ 32); lia].
  fold crc. by rewrite Z.eqb_refl.
Qed.

Lemma versioned_id version id :
  0 ≤ version < 16 → 0 ≤ id < 2 ^ 28 →
  let final_id := Z.lor (Z.shiftl version 28) id in
  0 ≤ final_id < 2 ^ 32
  ∧ Z.land final_id 0x0FFFFFFF = id
  ∧ Z.land (Z.shiftr final_id 28) 0xF = version.
Proof.
  intros Hv Hid final_id. subst final_id. split; [|split].
  - apply lor_bound; [lia| |lia]. rewrite Z.shiftl_mul_pow2 by lia. lia.
  - rewrite land_low28, <- (Z.land_ones _ 28) by lia.
    rewrite Z.land_lor_distr_l, !Z.land_ones by lia.
    rewrite Z.shiftl_mul_pow2, Z.mod_mul by lia.
    rewrite Z.lor_0_l. apply Z.mod_small. lia.
  - rewrite Z.shiftr_lor, Z.shiftr_shiftl_l by lia.
    rewrite (Z.shiftr_div_pow2 id), (Z.div_small id) by lia.
    change (28 - 28) with 0. rewrite Z.shiftl_0_r, Z.lor_0_r.
    change 0xF with (Z.ones 4). rewrite Z.land_ones by lia.
    apply Z.mod_small. lia.
Qed.

(** A frame of any version is accepted. *)
Lemma any_version_accepted {K : Kernel} {L : KernelLaws K} version id :
  0 ≤ version < 16 → 0 ≤ id < 2 ^ 28 →
  ∃ frame,
    DeepSeal.frame_payload_bits (Z.lor (Z.shiftl version 28) id) = Return frame
    ∧ DeepSeal.decode_raw_bits frame = Return (Some id).
Proof.
  intros Hv Hid.
  destruct (versioned_id version id Hv Hid) as (Hrange & Hlow & _).
  destruct (frame_round_trip _ Hrange) as (frame & Hframe & _ & Hdecode).
  exists frame. by rewrite Hlow in Hdecode.
Qed.

Example version_probe :
  (DeepSeal.frame_payload_bits (K := IntKernel.kernel)
     (Z.lor (Z.shiftl 7 28) 0xABCDEF) ≫= DeepSeal.decode_raw_bits)
  = Return (Some 0xABCDEF).
Proof. vm_compute. reflexivity. Qed.

(** C10.  When the CRC-8 of the decoded 32-bit payload matches, [extract]
    returns the low 28 bits of the payload; the four high bits, whatever
    version they spell, play no part.  In particular the frame of any
    version nibble and any 28-bit identifier is decoded to the identifier. *)
Theorem extract_ignores_version {K : Kernel} {L : KernelLaws K}
    speed_loop (self : DeepSeal.t) (audio pn : list sample)
    (s : DeepSeal.sync_result sample) (raw decoded : list Z) :
  DeepSeal.synchronise speed_loop self audio = Return (pn, s) →
  0 ≤ DeepSeal.final_start_index s →
  DeepSeal.final_start_index s + 16 * DeepSeal.chip_rate self
    + 70 * DeepSeal.chip_rate self
    ≤ Z.of_nat (length (DeepSeal.final_audio s)) →
  DeepSeal.demodulate self pn s = Return raw →
  DeepSeal.deinterleave raw ≫= FEC.decode_hamming = Return decoded →
  let payload := DeepSeal.bits_to_int (take 32 decoded) in
  let version := Z.land (Z.shiftr payload 28) 0xF in
  FEC.crc8 (PyInt.bytes_big 4 payload)
    = DeepSeal.bits_to_int (drop 32 decoded) →
  DeepSeal.extract speed_loop self audio
    = Return (Some (Z.land payload 0x0FFFFFFF))
  ∧ 0 ≤ version < 16
  ∧ payload = version * 2 ^ 28 + Z.land payload 0x0FFFFFFF
  ∧ (∀ v id, 0 ≤ v < 16 → 0 ≤ id < 2 ^ 28 →
       ∃ frame,
         DeepSeal.frame_payload_bits (Z.lor (Z.shiftl v 28) id) = Return frame
         ∧ DeepSeal.decode_raw_bits frame = Return (Some id)).
Proof.
  intros Hsync Hstart Hfits Hraw Hdec payload version Hcrc.
  destruct (synchronise_Return _ _ _ _ _ Hsync) as (Hc & Hrate & Hpn).
  destruct (extract_payload_fits self pn s Hc Hrate Hpn Hstart)
    as (raw' & decoded' & Hraw' & _ & Hdec' & Hlen & Hext); [lia|].
  rewrite Hraw in Hraw'. injection Hraw' as <-.
  rewrite Hdec in Hdec'. injection Hdec' as <-.
  destruct (verify_crc_40 decoded Hlen) as [Hp Hverify].
  fold payload in Hp, Hverify.
  split; [|split; [|split]].
  - unfold DeepSeal.extract. rewrite Hsync. cbn [mbind result_bind].
    rewrite Hext, Hverify.
    by destruct (Z.eqb_spec (FEC.crc8 (PyInt.bytes_big 4 payload))
                   (DeepSeal.bits_to_int (drop 32 decoded))).
  - subst version. change 0xF with (Z.ones 4).
    rewrite Z.land_ones by lia. apply Z.mod_pos_bound. lia.
  - subst version. change 0xF with (Z.ones 4).
    rewrite Z.land_ones, Z.shiftr_div_pow2, land_low28 by lia.
    rewrite (Z.mod_small (payload / 2 ^ 28)).
    + pose proof (Z.div_mod payload (2 ^ 28)). lia.
    + split; [apply Z.div_pos; lia|].
      apply Z.div_lt_upper_bound; lia.
  - intros v id. apply any_version_accepted.
Qed.

Lemma extract_ignores_version_witness :
  let payload := DeepSeal.bits_to_int (take 32 Demo.decoded) in
  let version := Z.land (Z.shiftr payload 28) 0xF in
  DeepSeal.synchronise IntKernel.speed_loop Demo.self Demo.watermarked
    = Return (Demo.pn, Demo.sync)
  ∧ 0 ≤ DeepSeal.final_start_index Demo.sync
  ∧ DeepSeal.final_start_index Demo.sync
      + 16 * DeepSeal.chip_rate Demo.self + 70 * DeepSeal.chip_rate Demo.self
      ≤ Z.of_nat (length (DeepSeal.final_audio Demo.sync))
  ∧ DeepSeal.demodulate Demo.self Demo.pn Demo.sync = Return Demo.raw
  ∧ DeepSeal.deinterleave Demo.raw ≫= FEC.decode_hamming = Return Demo.decoded
  ∧ FEC.crc8 (PyInt.bytes_big 4 payload)
      = DeepSeal.bits_to_int (drop 32 Demo.decoded)
  ∧ DeepSeal.extract IntKernel.speed_loop Demo.self Demo.watermarked
      = Return (Some (Z.land payload 0x0FFFFFFF))
  ∧ 0 ≤ version < 16
  ∧ payload = version * 2 ^ 28 + Z.land payload 0x0FFFFFFF
  ∧ (∀ v id, 0 ≤ v < 16 → 0 ≤ id < 2 ^ 28 →
       ∃ frame,
         DeepSeal.frame_payload_bits (Z.lor (Z.shiftl v 28) id) = Return frame
         ∧ DeepSeal.decode_raw_bits frame = Return (Some id)).
Proof.
  cbv zeta.
  assert (DeepSeal.synchronise IntKernel.speed_loop Demo.self Demo.watermarked
            = Return (Demo.pn, Demo.sync)) as Hsync
    by (vm_compute; reflexivity).
  assert (0 ≤ DeepSeal.final_start_index Demo.sync) as Hstart
    by (vm_compute; discriminate).
  assert (DeepSeal.final_start_index Demo.sync
          + 16 * DeepSeal.chip_rate Demo.self
          + 70 * DeepSeal.chip_rate Demo.self
          ≤ Z.of_nat (length (DeepSeal.final_audio Demo.sync))) as Hfits
    by (vm_compute; discriminate).
  assert (DeepSeal.demodulate Demo.self Demo.pn Demo.sync = Return Demo.raw)
    as Hraw by (vm_compute; reflexivity).
  assert (DeepSeal.deinterleave Demo.raw ≫= FEC.decode_hamming
            = Return Demo.decoded) as Hdec by (vm_compute; reflexivity).
  assert (FEC.crc8
            (PyInt.bytes_big 4 (DeepSeal.bits_to_int (take 32 Demo.decoded)))
          = DeepSeal.bits_to_int (drop 32 Demo.decoded)) as Hcrc
    by (vm_compute; reflexivity).
  split; [exact Hsync|]. split; [exact Hstart|]. split; [exact Hfits|].
  split; [exact Hraw|]. split; [exact Hdec|]. split; [exact Hcrc|].
  exact (extract_ignores_version (K := IntKernel.kernel)
           (L := int_kernel_laws) IntKernel.speed_loop Demo.self
           Demo.watermarked Demo.pn Demo.sync Demo.raw Demo.decoded
           Hsync Hstart Hfits Hraw Hdec Hcrc).
Defined.


(** The integer kernel end to end: silence, identifier 5, one chip per bit;
    the same audio inverted; silence alone; and a recording too short. *)
Example extract_probe :
  DeepSeal.extract IntKernel.speed_loop Demo.self Demo.watermarked
    = Return (Some 5)
  ∧ DeepSeal.extract IntKernel.speed_loop Demo.self (map Z.opp Demo.watermarked)
    = Return (Some 5)
  ∧ DeepSeal.extract IntKernel.speed_loop Demo.self (replicate 50 0)
    = Return None.
Proof. by vm_compute. Qed.

(** Seventy demodulated zeros, as silence gives when no chip sum is
    positive, are a code word with a matching CRC: they decode to 0. *)
Lemma silent_frame_decodes_to_zero {K : Kernel} {L : KernelLaws K} :
  DeepSeal.decode_raw_bits (replicate 70 0) = Return (Some 0).
Proof.
  unfold DeepSeal.decode_raw_bits.
  destruct (deinterleave_Return (replicate 70 0)) as (d & -> & Hlen & Hnth).
  cbn [mbind result_bind].
  assert (d = replicate 70 0) as ->.
  { apply list_eq. intros k.
    destruct (Nat.lt_ge_cases k 70) as [Hk|Hk].
    - assert (is_Some (Np.argsort
                (DeepSeal.perm_indices (length (replicate 70 0))) !! k))
        as [i Hi].
      { apply lookup_lt_is_Some.
        by rewrite argsort_perm, length_seq, perm_indices_length,
             length_replicate. }
      rewrite (Hnth k i Hi).
      assert (i < 70)%nat as Hi70.
      { apply list_elem_of_lookup_2 in Hi.
        rewrite argsort_perm, perm_indices_length, length_replicate in Hi.
        apply elem_of_seq in Hi. lia. }
      by rewrite !lookup_replicate_2.
    - rewrite length_replicate in Hlen.
      rewrite !lookup_ge_None_2; [done|rewrite length_replicate; lia|lia]. }
  vm_compute. reflexivity.
Qed.

(** * Further properties *)

(** ** deepseal.py: the speed loop *)

Lemma attempt_sync_rel {K : Kernel} (chunk reference : list sample) rel val :
  DeepSeal.attempt_sync chunk reference = Return (rel, val) → 0 ≤ rel.
Proof.
  unfold DeepSeal.attempt_sync. destruct (correlate_valid _ _); [done|].
  intros [= <- _]. lia.
Qed.

Lemma resync_nonneg {K : Kernel} {SK : SyncKernel K}
    (self : DeepSeal.t) audio reference expected radius idx val :
  SpeedLoop.resync self audio reference expected radius = Return (idx, val) →
  0 ≤ idx.
Proof.
  unfold SpeedLoop.resync.
  intros ([rel v] & Hsync & [= <- _])%bind_Return_inv.
  apply attempt_sync_rel in Hsync. lia.
Qed.

Lemma polarity_of_cases {K : Kernel} (val : sample) :
  SpeedLoop.polarity_of val = s_of_Z 1 ∨ SpeedLoop.polarity_of val = s_of_Z (-1).
Proof. unfold SpeedLoop.polarity_of. destruct (s_positive val); auto. Qed.

(** One turn keeps [final_audio] equal to [current_audio] and resamples at
    most once. *)
Lemma pass_audio {K : Kernel} {SK : SyncKernel K}
    (self : DeepSeal.t) reference start_idx start_val pass_num st broke st' :
  SpeedLoop.pass self reference start_idx start_val pass_num st
    = Return (broke, st') →
  SpeedLoop.final_audio st = SpeedLoop.current_audio st →
  SpeedLoop.final_audio st' = SpeedLoop.current_audio st'
  ∧ (SpeedLoop.final_audio st' = SpeedLoop.final_audio st
     ∨ ∃ n, np_interp n (SpeedLoop.final_audio st)
            = Return (SpeedLoop.final_audio st')).
Proof.
  unfold SpeedLoop.pass. intros Hpass Hinv.
  apply bind_Return_inv in Hpass as ([s_idx st1] & Hstart & Hpass).
  assert (SpeedLoop.current_audio st1 = SpeedLoop.current_audio st
          ∧ SpeedLoop.final_audio st1 = SpeedLoop.final_audio st)
    as [Hcur Hfin].
  { destruct (pass_num =? 0)%nat.
    - by injection Hstart as _ <-.
    - apply bind_Return_inv in Hstart as (? & _ & Hstart).
      apply bind_Return_inv in Hstart as ([idx val] & _ & [= _ <-]).
      done. }
  apply bind_Return_inv in Hpass as (pass_speed & _ & Hpass).
  destruct (f_converged pass_speed).
  - injection Hpass as _ <-. rewrite Hcur, Hfin. auto.
  - apply bind_Return_inv in Hpass as (resampled & Hinterp & [= _ <-]).
    cbn. split; [done|]. right.
    rewrite Hcur, <- Hinv in Hinterp. by eexists.
Qed.

Lemma speed_loop_start_nonneg {K : Kernel} {SK : SyncKernel K}
    (self : DeepSeal.t) (processed_audio reference_preamble : list sample)
    (start_idx : Z) (start_val : sample) (s : DeepSeal.sync_result sample) :
  SpeedLoop.speed_loop self processed_audio reference_preamble
    start_idx start_val = Return s →
  0 ≤ DeepSeal.final_start_index s.
Proof.
  unfold SpeedLoop.speed_loop. intros Hloop.
  apply bind_Return_inv in Hloop as (st & _ & Hloop).
  apply bind_Return_inv in Hloop as ([idx val] & Hresync & [= <-]).
  by eapply resync_nonneg.
Qed.

(** X1.  Whatever the correlations and the float operations give, the
    synchroniser of [extract] returns a start index that is not negative
    and a polarity that is 1.0 or -1.0, and the audio it hands to
    demodulation is the pre-processed input resampled at most twice. *)
Theorem speed_loop_result {K : Kernel} {SK : SyncKernel K}
    (self : DeepSeal.t) (processed_audio reference_preamble : list sample)
    (start_idx : Z) (start_val : sample) (s : DeepSeal.sync_result sample) :
  SpeedLoop.speed_loop self processed_audio reference_preamble
    start_idx start_val = Return s →
  0 ≤ DeepSeal.final_start_index s
  ∧ (DeepSeal.polarity_sign s = s_of_Z 1
     ∨ DeepSeal.polarity_sign s = s_of_Z (-1))
  ∧ (DeepSeal.final_audio s = processed_audio
     ∨ (∃ n, np_interp n processed_audio = Return (DeepSeal.final_audio s))
     ∨ (∃ n m a, np_interp n processed_audio = Return a
                 ∧ np_interp m a = Return (DeepSeal.final_audio s))).
Proof.
  unfold SpeedLoop.speed_loop. intros Hloop.
  apply bind_Return_inv in Hloop as (st & Hpasses & Hloop).
  apply bind_Return_inv in Hloop as ([idx val] & Hresync & [= <-]).
  cbn [DeepSeal.final_start_index DeepSeal.polarity_sign DeepSeal.final_audio].
  split; [by eapply resync_nonneg|]. split; [apply polarity_of_cases|].
  clear Hresync.
  cbn [seq SpeedLoop.passes] in Hpasses.
  apply bind_Return_inv in Hpasses as ([broke0 st0] & Hpass0 & Hpasses).
  apply pass_audio in Hpass0 as [Hinv0 Hstep0]; [|done].
  cbn [SpeedLoop.final_audio] in Hstep0.
  destruct broke0.
  - injection Hpasses as <-. destruct Hstep0 as [->|[n Hn]]; eauto.
  - apply bind_Return_inv in Hpasses as ([broke1 st1] & Hpass1 & Hpasses).
    apply pass_audio in Hpass1 as [_ Hstep1]; [|done].
    assert (st = st1) as -> by (by destruct broke1; injection Hpasses).
    destruct Hstep0 as [H0|[n Hn]], Hstep1 as [H1|[m Hm]].
    + left. congruence.
    + right. left. exists m. by rewrite <- H0.
    + right. left. exists n. by rewrite H1.
    + right. right. by exists n, m, (SpeedLoop.final_audio st0).
Qed.

Lemma speed_loop_result_witness :
  SpeedLoop.speed_loop Demo.self IntSync.processed IntSync.reference 0 16
    = Return IntSync.looped
  ∧ 0 ≤ DeepSeal.final_start_index IntSync.looped
  ∧ (DeepSeal.polarity_sign IntSync.looped = s_of_Z 1
     ∨ DeepSeal.polarity_sign IntSync.looped = s_of_Z (-1))
  ∧ (DeepSeal.final_audio IntSync.looped = IntSync.processed
     ∨ (∃ n, np_interp n IntSync.processed
             = Return (DeepSeal.final_audio IntSync.looped))
     ∨ (∃ n m a, np_interp n IntSync.processed = Return a
                 ∧ np_interp m a
                   = Return (DeepSeal.final_audio IntSync.looped))).
Proof.
  assert (SpeedLoop.speed_loop Demo.self IntSync.processed IntSync.reference
            0 16 = Return IntSync.looped) as Hloop
    by (vm_compute; reflexivity).
  split; [exact Hloop|].
  exact (speed_loop_result (K := IntKernel.kernel) (SK := IntSync.sync_kernel)
           Demo.self IntSync.processed IntSync.reference 0 16 IntSync.looped
           Hloop).
Defined.

Example speed_loop_probe :
  DeepSeal.final_start_index IntSync.looped = 0
  ∧ DeepSeal.polarity_sign IntSync.looped = 1
  ∧ SpeedLoop.extract Demo.self IntSync.processed = Return (Some 5).
Proof. by vm_compute. Qed.

Lemma synchronise_speed_loop {K : Kernel} speed_loop
    (self : DeepSeal.t) audio pn s :
  DeepSeal.synchronise speed_loop self audio = Return (pn, s) →
  ∃ processed reference start_idx start_val,
    speed_loop self processed reference start_idx start_val = Return s.
Proof.
  unfold DeepSeal.synchronise.
  intros (processed & _ & Hrest)%bind_Return_inv.
  apply bind_Return_inv in Hrest as (full_pn & _ & Hrest).
  apply bind_Return_inv in Hrest as (repeated & _ & Hrest).
  apply bind_Return_inv in Hrest as (ref & _ & Hrest).
  apply bind_Return_inv in Hrest as (ref' & _ & Hrest).
  apply bind_Return_inv in Hrest as ([start_idx start_val] & _ & Hrest).
  apply bind_Return_inv in Hrest as (s' & Hloop & [= _ <-]).
  by eexists _, _, _, _.
Qed.

(** X2.  [extract] raises only where its synchronisation raises: once the
    preamble search and the speed loop have returned, demodulation,
    de-interleaving, Hamming decoding and the CRC test return a result for
    every audio; and an identifier it returns is below 2^28. *)
Theorem extract_raises_only_in_synchronisation
    {K : Kernel} {L : KernelLaws K} {SK : SyncKernel K}
    (self : DeepSeal.t) (audio : list sample) :
  (∀ e, SpeedLoop.extract self audio = Raise e
        ↔ DeepSeal.synchronise SpeedLoop.speed_loop self audio = Raise e)
  ∧ (∀ id, SpeedLoop.extract self audio = Return (Some id) → 0 ≤ id < 2 ^ 28).
Proof.
  unfold SpeedLoop.extract, DeepSeal.extract.
  destruct (DeepSeal.synchronise SpeedLoop.speed_loop self audio)
    as [[pn s]|e0] eqn:Hsync; cbn [mbind result_bind].
  - destruct (synchronise_Return _ _ _ _ _ Hsync) as (Hc & Hrate & Hpn).
    destruct (synchronise_speed_loop _ _ _ _ _ Hsync)
      as (processed & reference & start_idx & start_val & Hloop).
    apply speed_loop_start_nonneg in Hloop as Hstart.
    destruct (Z.lt_ge_cases (Z.of_nat (length (DeepSeal.final_audio s)))
                (DeepSeal.final_start_index s + 86 * DeepSeal.chip_rate self))
      as [Hover|Hfits].
    + rewrite (extract_payload_overflow self pn s Hover). by split.
    + destruct (extract_payload_fits self pn s Hc Hrate Hpn Hstart Hfits)
        as (raw & decoded & _ & _ & _ & Hlen & ->).
      destruct (verify_crc_40 decoded Hlen) as [Hp ->].
      split; [done|]. intros id. destruct (_ =? _); [|done].
      intros [= <-]. rewrite land_low28. apply Z.mod_pos_bound. lia.
  - split; [|intros id; discriminate].
    intros e. split; intros [= ->]; reflexivity.
Qed.

Lemma extract_raises_only_in_synchronisation_witness :
  (∀ e, SpeedLoop.extract Demo.self IntSync.processed = Raise e
        ↔ DeepSeal.synchronise SpeedLoop.speed_loop Demo.self
            IntSync.processed = Raise e)
  ∧ (∀ id, SpeedLoop.extract Demo.self IntSync.processed = Return (Some id) →
           0 ≤ id < 2 ^ 28).
Proof.
  exact (extract_raises_only_in_synchronisation (K := IntKernel.kernel)
           (L := int_kernel_laws) (SK := IntSync.sync_kernel)
           Demo.self IntSync.processed).
Defined.

(** ** fec.py: Hamming code, further *)

Lemma Forall_concat {A} (P : A → Prop) (ls : list (list A)) :
  Forall (Forall P) ls → Forall P (concat ls).
Proof. induction 1; cbn; [done|]. by apply Forall_app. Qed.

Lemma length_multiple (n m : nat) :
  (0 < m)%nat → (n mod m = 0)%nat → n = (m * (n / m))%nat.
Proof. intros Hm Hmod. pose proof (Nat.div_mod_eq n m). lia. Qed.

(** X3.  [encode_hamming] returns exactly for arrays whose length is a
    positive multiple of 4; the code then has 7 bits for every 4 and is
    binary whatever integers the input holds.  A length that is not a
    multiple of 4 raises the length error, and the empty array raises in
    [np.concatenate]. *)
Theorem encode_hamming_cases (bits : list Z) :
  match FEC.encode_hamming bits with
  | Return c =>
      (0 < length bits)%nat ∧ (length bits mod 4 = 0)%nat
      ∧ (4 * length c = 7 * length bits)%nat
      ∧ Forall FEC.is_bit c
  | Raise e =>
      (e = MalformedFecLength ∧ (length bits mod 4 ≠ 0)%nat)
      ∨ (e = EmptyConcatenate ∧ bits = [])
  end.
Proof.
  destruct (Nat.eq_dec (length bits mod 4)%nat 0%nat) as [Hmod|Hmod].
  - pose proof (length_multiple (length bits) 4%nat ltac:(lia) Hmod) as Hlen.
    destruct (length bits / 4)%nat as [|k] eqn:Hk.
    + destruct bits; [|cbn in Hlen; lia]. cbn. by right.
    + rewrite (encode_hamming_eq bits k Hlen).
      split; [lia|]. split; [done|]. split.
      * rewrite (concat_length_const _ 7).
        -- rewrite length_map, length_seq. lia.
        -- apply Forall_forall. intros l (i & -> & _)%list_elem_of_fmap.
           apply encode_nibble_length.
      * apply Forall_concat, Forall_fmap, Forall_forall. intros i _.
        unfold FEC.encode_nibble. apply Forall_fmap, Forall_forall.
        intros x _. cbn. unfold FEC.is_bit.
        pose proof (Z.mod_pos_bound x 2 eq_refl). lia.
  - unfold FEC.encode_hamming.
    destruct (Nat.eqb_spec (length bits mod 4)%nat 0%nat); [done|]. cbn. by left.
Qed.

(** X4.  [SystematicFEC.decode_hamming] returns exactly for arrays whose
    length is a positive multiple of 7, with 4 bits for every 7; another
    length raises the length error, the empty array raises in
    [np.concatenate]. *)
Theorem decode_hamming_cases (bits : list Z) :
  match FEC.decode_hamming bits with
  | Return d =>
      (0 < length bits)%nat ∧ (length bits mod 7 = 0)%nat
      ∧ (7 * length d = 4 * length bits)%nat
  | Raise e =>
      (e = MalformedFecLength ∧ (length bits mod 7 ≠ 0)%nat)
      ∨ (e = EmptyConcatenate ∧ bits = [])
  end.
Proof.
  destruct (Nat.eq_dec (length bits mod 7)%nat 0%nat) as [Hmod|Hmod].
  - pose proof (length_multiple (length bits) 7%nat ltac:(lia) Hmod) as Hlen.
    destruct (length bits / 7)%nat as [|k] eqn:Hk.
    + destruct bits; [|cbn in Hlen; lia]. cbn. by right.
    + destruct (decode_hamming_Return bits k Hlen) as (d & -> & Hd).
      split; [lia|]. split; [done|]. lia.
  - unfold FEC.decode_hamming.
    destruct (Nat.eqb_spec (length bits mod 7)%nat 0%nat); [done|]. cbn. by left.
Qed.

(** One block, with at most one inverted bit. *)
Lemma block_round_trip (nibble : list Z) (e : option nat) :
  length nibble = 4%nat → Forall FEC.is_bit nibble →
  (∀ j, e = Some j → (j < 7)%nat) →
  take 4 (FEC.correct_block
            (corrupt e (map (λ x, x mod 2) (FEC.vec_mat nibble FEC.G))))
  = nibble.
Proof.
  intros Hlen Hbits He.
  destruct e as [j|]; [|by apply nibble_round_trip].
  specialize (He j eq_refl).
  destruct nibble as [|d1 [|d2 [|d3 [|d4 [|? ?]]]]]; try discriminate Hlen.
  apply Forall_cons in Hbits as [H1 Hbits].
  apply Forall_cons in Hbits as [H2 Hbits].
  apply Forall_cons in Hbits as [H3 Hbits].
  apply Forall_cons in Hbits as [H4 _].
  destruct H1 as [-> | ->], H2 as [-> | ->], H3 as [-> | ->], H4 as [-> | ->];
    (do 7 (destruct j as [|j]; [vm_compute; reflexivity|]); lia).
Qed.

Lemma corrupt_length e block : length (corrupt e block) = length block.
Proof. destruct e; [apply length_insert|done]. Qed.

(** X5.  Hamming correction on whole arrays: when every block of seven
    bits of the code of an array of bits carries at most one inverted bit,
    [decode_hamming] returns the array. *)
Theorem hamming_corrects_every_block (bits : list Z) (k : nat)
    (err : nat → option nat) :
  length bits = (4 * S k)%nat → Forall FEC.is_bit bits →
  (∀ i j, err i = Some j → (j < 7)%nat) →
  ∃ c, FEC.encode_hamming bits = Return c
     ∧ FEC.decode_hamming
         (concat (map (λ i, corrupt (err i) (block_of c i)) (seq 0 (S k))))
       = Return bits.
Proof.
  intros Hlen Hbits Herr.
  exists (concat (map (FEC.encode_nibble bits) (seq 0 (S k)))).
  split; [by apply encode_hamming_eq|].
  set (c := concat (map (FEC.encode_nibble bits) (seq 0 (S k)))).
  assert (∀ i, (i < S k)%nat → block_of c i = FEC.encode_nibble bits i)
    as Hblock.
  { intros i Hi. unfold block_of, c. apply concat_block.
    - apply Forall_forall. intros l (j & -> & _)%list_elem_of_fmap.
      apply encode_nibble_length.
    - change (map (FEC.encode_nibble bits) (seq 0 (S k)))
        with (FEC.encode_nibble bits <$> seq 0 (S k)).
      by rewrite list_lookup_fmap, lookup_seq_lt. }
  set (damaged := map (λ i, corrupt (err i) (block_of c i)) (seq 0 (S k))).
  assert (Forall (λ l, length l = 7%nat) damaged) as Hseven.
  { apply Forall_forall. intros l (i & -> & Hi)%list_elem_of_fmap.
    apply elem_of_seq in Hi.
    rewrite corrupt_length, Hblock by lia. apply encode_nibble_length. }
  rewrite (decode_hamming_eq (concat damaged) k).
  2:{ rewrite (concat_length_const _ 7 Hseven). unfold damaged.
      rewrite length_map, length_seq. lia. }
  f_equal.
  transitivity (concat (map (λ i, take 4 (drop (i * 4) bits)) (seq 0 (S k))));
    [|apply concat_chunks; lia].
  f_equal. apply Forall_fmap_ext, Forall_forall. intros i Hi.
  apply elem_of_seq in Hi. unfold FEC.decode_block.
  rewrite (concat_block damaged 7 i (corrupt (err i) (block_of c i)) Hseven).
  - rewrite Hblock by lia. unfold FEC.encode_nibble. apply block_round_trip.
    + rewrite length_take, length_drop. lia.
    + by apply Forall_take_drop.
    + apply Herr.
  - unfold damaged.
    change (map ?g (seq 0 (S k))) with (g <$> seq 0 (S k)).
    by rewrite list_lookup_fmap, lookup_seq_lt by lia.
Qed.

Lemma hamming_corrects_every_block_witness :
  let bits := [1; 0; 1; 1; 0; 0; 1; 0] in
  let err := λ i : nat, if (i =? 0)%nat then Some 2%nat else Some 6%nat in
  length bits = (4 * 2)%nat ∧ Forall FEC.is_bit bits ∧
  (∀ i j, err i = Some j → (j < 7)%nat) ∧
  ∃ c, FEC.encode_hamming bits = Return c
     ∧ FEC.decode_hamming
         (concat (map (λ i, corrupt (err i) (block_of c i)) (seq 0 2)))
       = Return bits.
Proof.
  cbv zeta.
  assert (Forall FEC.is_bit [1; 0; 1; 1; 0; 0; 1; 0]) as Hbits.
  { repeat constructor; unfold FEC.is_bit; lia. }
  assert (∀ i j : nat,
            (if (i =? 0)%nat then Some 2%nat else Some 6%nat) = Some j →
            (j < 7)%nat) as Herr.
  { intros i j. destruct (i =? 0)%nat; intros [= <-]; lia. }
  split; [reflexivity|]. split; [exact Hbits|]. split; [exact Herr|].
  exact (hamming_corrects_every_block [1; 0; 1; 1; 0; 0; 1; 0] 1
           (λ i : nat, if (i =? 0)%nat then Some 2%nat else Some 6%nat)
           eq_refl Hbits Herr).
Defined.

Lemma below_seven (i : nat) :
  (i < 7)%nat →
  i = 0%nat ∨ i = 1%nat ∨ i = 2%nat ∨ i = 3%nat ∨ i = 4%nat ∨ i = 5%nat
  ∨ i = 6%nat.
Proof. lia. Qed.

(** X6.  Two inverted bits in one block are never repaired: the decoder
    inverts a third bit and returns a nibble that differs from the one
    encoded. *)
Theorem hamming_double_error_miscorrects (d : list Z) (i j : nat) :
  length d = 4%nat → Forall FEC.is_bit d →
  (i < 7)%nat → (j < 7)%nat → i ≠ j →
  ∃ c d', FEC.encode_hamming d = Return c
        ∧ FEC.decode_hamming (FEC.flip_bit i (FEC.flip_bit j c)) = Return d'
        ∧ d' ≠ d.
Proof.
  intros Hlen Hbits Hi Hj Hne.
  destruct d as [|d1 [|d2 [|d3 [|d4 [|? ?]]]]]; try discriminate Hlen.
  apply Forall_cons in Hbits as [H1 Hbits].
  apply Forall_cons in Hbits as [H2 Hbits].
  apply Forall_cons in Hbits as [H3 Hbits].
  apply Forall_cons in Hbits as [H4 _].
  destruct H1 as [-> | ->], H2 as [-> | ->], H3 as [-> | ->], H4 as [-> | ->];
    (destruct (below_seven i Hi) as [->|[->|[->|[->|[->|[->| ->]]]]]];
     destruct (below_seven j Hj) as [->|[->|[->|[->|[->|[->| ->]]]]]];
     try (by destruct Hne);
     eexists _, _; (split; [vm_compute; reflexivity|]);
     (split; [vm_compute; reflexivity|]); discriminate).
Qed.

Lemma hamming_double_error_miscorrects_witness :
  length [1; 0; 1; 1] = 4%nat ∧ Forall FEC.is_bit [1; 0; 1; 1] ∧
  (4 < 7)%nat ∧ (5 < 7)%nat ∧ 4%nat ≠ 5%nat ∧
  ∃ c d', FEC.encode_hamming [1; 0; 1; 1] = Return c
        ∧ FEC.decode_hamming (FEC.flip_bit 4 (FEC.flip_bit 5 c)) = Return d'
        ∧ d' ≠ [1; 0; 1; 1].
Proof.
  assert (Forall FEC.is_bit [1; 0; 1; 1]) as Hbits.
  { repeat constructor; unfold FEC.is_bit; lia. }
  assert (4 < 7)%nat as H4 by lia.
  assert (5 < 7)%nat as H5 by lia.
  assert (4%nat ≠ 5%nat) as Hne by discriminate.
  split; [reflexivity|]. split; [exact Hbits|]. split; [exact H4|].
  split; [exact H5|]. split; [exact Hne|].
  exact (hamming_double_error_miscorrects [1; 0; 1; 1] 4 5
           eq_refl Hbits H4 H5 Hne).
Defined.

(** The loop of the base decoder leaves [decoded] as it found it. *)
Lemma base_decode_loop bits (range : list nat) decoded :
  fold_left (FECBase.decode_turn bits) range decoded = decoded.
Proof. revert decoded. induction range as [|i range IH]; intros; [done|apply IH]. Qed.

(** X7.  The decoder of the base class [FEC] collects nothing: for every
    array whose length is a multiple of 7 it returns the empty array, and
    it raises the length error otherwise. *)
Theorem base_decode_hamming_empty (bits : list Z) :
  FECBase.decode_hamming bits
  = if (length bits mod 7 =? 0)%nat then Return []
    else Raise MalformedFecLength.
Proof.
  unfold FECBase.decode_hamming.
  destruct (length bits mod 7 =? 0)%nat; [|done]. cbn [negb].
  by rewrite base_decode_loop.
Qed.

(** ** fec.py, deepseal.py: the CRC *)

Lemma byte_cases (a : Z) : is_byte a → In a (map Z.of_nat (seq 0 256)).
Proof.
  intros Ha. rewrite <- (Z2Nat.id a) by (unfold is_byte in Ha; lia).
  apply in_map, in_seq. unfold is_byte in Ha. lia.
Qed.

Lemma crc8_step_lxor_table :
  forallb (λ a,
    forallb (λ b,
      (FEC.crc8_step (Z.lxor a b)
         =? Z.lxor (FEC.crc8_step a) (FEC.crc8_step b))
      && (0 <=? Z.lxor a b) && (Z.lxor a b <? 256))
      (map Z.of_nat (seq 0 256)))
    (map Z.of_nat (seq 0 256)) = true.
Proof. vm_compute. reflexivity. Qed.

Lemma lxor_bytes a b :
  is_byte a → is_byte b →
  FEC.crc8_step (Z.lxor a b) = Z.lxor (FEC.crc8_step a) (FEC.crc8_step b)
  ∧ is_byte (Z.lxor a b).
Proof.
  intros Ha%byte_cases Hb%byte_cases.
  pose proof crc8_step_lxor_table as Ht.
  rewrite forallb_forall in Ht. specialize (Ht a Ha).
  rewrite forallb_forall in Ht. specialize (Ht b Hb).
  apply andb_prop in Ht as [[H1 H2]%andb_prop H3].
  unfold is_byte. lia.
Qed.

Lemma crc8_iter_byte n a : is_byte a → is_byte (Nat.iter n FEC.crc8_step a).
Proof. destruct n; [done|]. intros _. cbn. apply crc8_step_range. Qed.

Lemma crc8_iter_lxor n a b :
  is_byte a → is_byte b →
  Nat.iter n FEC.crc8_step (Z.lxor a b)
  = Z.lxor (Nat.iter n FEC.crc8_step a) (Nat.iter n FEC.crc8_step b).
Proof.
  intros Ha Hb. induction n as [|n IH]; [done|]. rewrite !Nat.iter_succ, IH.
  by apply lxor_bytes; apply crc8_iter_byte.
Qed.

Lemma lxor_swap a b c d :
  Z.lxor (Z.lxor a b) (Z.lxor c d) = Z.lxor (Z.lxor a c) (Z.lxor b d).
Proof.
  rewrite !Z.lxor_assoc. f_equal.
  rewrite <- !Z.lxor_assoc. f_equal. apply Z.lxor_comm.
Qed.

Lemma crc8_fold_lxor xs ys c1 c2 :
  length xs = length ys → Forall is_byte xs → Forall is_byte ys →
  is_byte c1 → is_byte c2 →
  fold_left (λ crc b, Nat.iter 8 FEC.crc8_step (Z.lxor crc b))
    (zip_with Z.lxor xs ys) (Z.lxor c1 c2)
  = Z.lxor
      (fold_left (λ crc b, Nat.iter 8 FEC.crc8_step (Z.lxor crc b)) xs c1)
      (fold_left (λ crc b, Nat.iter 8 FEC.crc8_step (Z.lxor crc b)) ys c2).
Proof.
  intros Hlen Hxs. revert ys c1 c2 Hlen.
  induction Hxs as [|x xs Hx _ IH]; intros [|y ys] c1 c2 Hlen Hys H1 H2;
    try discriminate Hlen; [done|].
  apply Forall_cons in Hys as [Hy Hys]. cbn [zip_with fold_left].
  rewrite lxor_swap, crc8_iter_lxor by (by apply lxor_bytes).
  apply IH; [by injection Hlen|done| |];
    by apply crc8_iter_byte, lxor_bytes.
Qed.

(** [crc8] starts from zero and ends without a final inversion: it is
    linear over the exclusive or of two messages of one length. *)
Lemma crc8_lxor xs ys :
  length xs = length ys → Forall is_byte xs → Forall is_byte ys →
  FEC.crc8 (zip_with Z.lxor xs ys) = Z.lxor (FEC.crc8 xs) (FEC.crc8 ys).
Proof.
  intros. unfold FEC.crc8.
  change 0 with (Z.lxor 0 0) at 1. by apply crc8_fold_lxor.
Qed.

Lemma land_lxor_distr a b c :
  Z.land (Z.lxor a b) c = Z.lxor (Z.land a c) (Z.land b c).
Proof.
  apply Z.bits_inj'. intros n _.
  rewrite !Z.land_spec, !Z.lxor_spec, !Z.land_spec.
  by destruct (Z.testbit a n), (Z.testbit b n), (Z.testbit c n).
Qed.

Lemma map_lxor {A} (g : Z → A → Z) (l : list A) u v :
  (∀ k, g (Z.lxor u v) k = Z.lxor (g u k) (g v k)) →
  map (g (Z.lxor u v)) l = zip_with Z.lxor (map (g u) l) (map (g v) l).
Proof. intros Hg. induction l; cbn; [done|]. by rewrite Hg, IHl. Qed.

Lemma bytes_big_lxor w u v :
  PyInt.bytes_big w (Z.lxor u v)
  = zip_with Z.lxor (PyInt.bytes_big w u) (PyInt.bytes_big w v).
Proof.
  unfold PyInt.bytes_big.
  apply (map_lxor (λ x i, Z.land (Z.shiftr x (8 * Z.of_nat i)) 255)).
  intros k. by rewrite Z.shiftr_lxor, land_lxor_distr.
Qed.

Lemma bytes_big_byte w v : Forall is_byte (PyInt.bytes_big w v).
Proof.
  unfold PyInt.bytes_big. apply Forall_fmap, Forall_forall. intros i _. cbn.
  change 255 with (Z.ones 8). rewrite Z.land_ones by lia.
  unfold is_byte. pose proof (Z.mod_pos_bound (Z.shiftr v (8 * Z.of_nat i)) (2 ^ 8)).
  lia.
Qed.

Lemma bytes_big_length w v : length (PyInt.bytes_big w v) = w.
Proof. unfold PyInt.bytes_big. by rewrite length_map, length_rev, length_seq. Qed.

Lemma shift_in_bits x c n :
  0 ≤ n → FEC.is_bit c →
  Z.testbit (Z.lor (Z.shiftl x 1) c) n
  = if n =? 0 then negb (c =? 0) else Z.testbit x (n - 1).
Proof.
  intros Hn Hc. rewrite Z.lor_spec, Z.shiftl_spec by done.
  destruct (Z.eqb_spec n 0) as [->|Hne].
  - rewrite Z.testbit_neg_r by lia. by destruct Hc as [-> | ->].
  - destruct Hc as [-> | ->].
    + by rewrite Z.testbit_0_l, orb_false_r.
    + destruct n; try lia. by rewrite orb_false_r.
Qed.

Lemma is_bit_lxor p q : FEC.is_bit p → FEC.is_bit q → FEC.is_bit (Z.lxor p q).
Proof. intros [-> | ->] [-> | ->]; [left|right|right|left]; reflexivity. Qed.

Lemma bits_fold_lxor a b x y :
  length a = length b → Forall FEC.is_bit a → Forall FEC.is_bit b →
  fold_left (λ val bit, Z.lor (Z.shiftl val 1) (Z.b2z (1 <? 2 * bit)))
    (zip_with Z.lxor a b) (Z.lxor x y)
  = Z.lxor
      (fold_left (λ val bit, Z.lor (Z.shiftl val 1) (Z.b2z (1 <? 2 * bit))) a x)
      (fold_left (λ val bit, Z.lor (Z.shiftl val 1) (Z.b2z (1 <? 2 * bit))) b y).
Proof.
  intros Hlen Ha. revert b x y Hlen.
  induction Ha as [|p a Hp _ IH]; intros [|q b] x y Hlen Hb;
    try discriminate Hlen; [done|].
  apply Forall_cons in Hb as [Hq Hb]. cbn [zip_with fold_left].
  rewrite <- IH by (by injection Hlen || done). f_equal.
  assert (∀ r, FEC.is_bit r → Z.b2z (1 <? 2 * r) = r) as Hbit
    by (by intros r [-> | ->]).
  rewrite !Hbit by (done || by apply is_bit_lxor).
  apply Z.bits_inj'. intros n Hn.
  rewrite Z.lxor_spec, !shift_in_bits by (done || by apply is_bit_lxor).
  destruct (n =? 0).
  - by destruct Hp as [-> | ->], Hq as [-> | ->].
  - by rewrite Z.lxor_spec.
Qed.

Lemma bits_to_int_lxor a b :
  length a = length b → Forall FEC.is_bit a → Forall FEC.is_bit b →
  DeepSeal.bits_to_int (zip_with Z.lxor a b)
  = Z.lxor (DeepSeal.bits_to_int a) (DeepSeal.bits_to_int b).
Proof.
  intros. unfold DeepSeal.bits_to_int.
  change 0 with (Z.lxor 0 0) at 1. by apply bits_fold_lxor.
Qed.

Lemma zip_lxor_zeros bits n :
  (length bits ≤ n)%nat → zip_with Z.lxor bits (replicate n 0) = bits.
Proof.
  revert n. induction bits as [|b bits IH]; intros [|n] Hn; cbn in *;
    try lia; [done|done|].
  rewrite Z.lxor_0_r, IH by lia. done.
Qed.

Lemma flip_bit_lxor bits i :
  Forall FEC.is_bit bits → (i < length bits)%nat →
  FEC.flip_bit i bits = zip_with Z.lxor bits (unit_bits (length bits) i).
Proof.
  unfold FEC.flip_bit, unit_bits. intros Hbits. revert i.
  induction Hbits as [|b bits Hb _ IH]; intros i Hi; [cbn in Hi; lia|].
  destruct i as [|i]; cbn.
  - rewrite zip_lxor_zeros by done. by destruct Hb as [-> | ->].
  - cbn in Hi. rewrite Z.lxor_0_r, <- IH by lia. done.
Qed.

Lemma unit_bits_is_bit n i : Forall FEC.is_bit (unit_bits n i).
Proof.
  unfold unit_bits. apply Forall_insert; [|by right].
  apply Forall_replicate. by left.
Qed.

Lemma unit_bits_length n i : length (unit_bits n i) = n.
Proof. unfold unit_bits. by rewrite length_insert, length_replicate. Qed.

Lemma Forall_zip_lxor a b :
  Forall FEC.is_bit a → Forall FEC.is_bit b →
  Forall FEC.is_bit (zip_with Z.lxor a b).
Proof.
  intros Ha. revert b. induction Ha; intros [|q b] Hb; cbn; try done.
  apply Forall_cons in Hb as [Hq Hb]. constructor; [by apply is_bit_lxor|auto].
Qed.

Lemma crc_residue_lxor a b :
  length a = length b → Forall FEC.is_bit a → Forall FEC.is_bit b →
  crc_residue (zip_with Z.lxor a b)
  = Z.lxor (crc_residue a) (crc_residue b).
Proof.
  intros Hlen Ha Hb. unfold crc_residue.
  rewrite zip_with_take, zip_with_drop.
  rewrite !bits_to_int_lxor
    by (try (by apply Forall_take); try (by apply Forall_drop);
        rewrite ?length_take, ?length_drop; lia).
  rewrite bytes_big_lxor, crc8_lxor
    by (try apply bytes_big_byte; by rewrite !bytes_big_length).
  apply lxor_swap.
Qed.

Lemma verify_crc_residue (decoded : list Z) :
  length decoded = 40%nat →
  DeepSeal.verify_crc decoded = Return None ↔ crc_residue decoded ≠ 0.
Proof.
  intros Hlen. destruct (verify_crc_40 decoded Hlen) as [_ ->].
  unfold crc_residue. rewrite Z.lxor_eq_0_iff.
  destruct (Z.eqb_spec
              (FEC.crc8 (PyInt.bytes_big 4
                 (DeepSeal.bits_to_int (take 32 decoded))))
              (DeepSeal.bits_to_int (drop 32 decoded))); split; done.
Qed.

Lemma protected_bits_residue final_id :
  0 ≤ final_id < 2 ^ 32 → crc_residue (protected_bits final_id) = 0.
Proof.
  intros Hid. unfold crc_residue, protected_bits.
  rewrite take_app_length', drop_app_length' by (by rewrite int_to_bits_length).
  pose proof (crc8_range (PyInt.bytes_big 4 final_id)) as Hcrc.
  rewrite (bits_to_int_int_to_bits final_id 32) by done.
  rewrite (bits_to_int_int_to_bits _ 8)
    by (change (2 ^ Z.of_nat 8) with 256; lia).
  apply Z.lxor_nilpotent.
Qed.

Lemma protected_bits_length final_id : length (protected_bits final_id) = 40%nat.
Proof. unfold protected_bits. by rewrite length_app, !int_to_bits_length. Qed.

Lemma protected_bits_is_bit final_id : Forall FEC.is_bit (protected_bits final_id).
Proof. apply Forall_app; split; apply int_to_bits_is_bit. Qed.

(** The residues of the 40 single inversions are non-zero and pairwise
    distinct. *)
Lemma unit_residues_table :
  forallb (λ i,
    negb (crc_residue (unit_bits 40 i) =? 0)
    && forallb (λ j,
         (i =? j)%nat
         || negb (crc_residue (unit_bits 40 i) =? crc_residue (unit_bits 40 j)))
         (seq 0 40))
    (seq 0 40) = true.
Proof. vm_compute. reflexivity. Qed.

Lemma unit_residues i j :
  (i < 40)%nat → (j < 40)%nat →
  crc_residue (unit_bits 40 i) ≠ 0
  ∧ (i ≠ j → crc_residue (unit_bits 40 i) ≠ crc_residue (unit_bits 40 j)).
Proof.
  intros Hi Hj. pose proof unit_residues_table as Ht.
  rewrite forallb_forall in Ht.
  specialize (Ht i ltac:(apply in_seq; lia)).
  apply andb_prop in Ht as [H0 Ht].
  rewrite forallb_forall in Ht.
  specialize (Ht j ltac:(apply in_seq; lia)).
  split.
  - apply negb_true_iff, Z.eqb_neq in H0. done.
  - intros Hne. apply orb_prop in Ht as [Ht|Ht].
    + apply Nat.eqb_eq in Ht. done.
    + apply negb_true_iff, Z.eqb_neq in Ht. done.
Qed.

(** X8.  The CRC guards the protected bits against one or two inversions:
    when one bit, or two different bits, of the 40 bits that [embed]
    protects (the versioned identifier and its CRC) arrive inverted at the
    last step of [extract], the CRC comparison fails and the result is
    [None], for every 32-bit identifier. *)
Theorem crc_rejects_one_or_two_inversions (final_id : Z) (i j : nat) :
  0 ≤ final_id < 2 ^ 32 → (i < 40)%nat → (j < 40)%nat →
  DeepSeal.verify_crc (FEC.flip_bit i (protected_bits final_id)) = Return None
  ∧ (i ≠ j →
     DeepSeal.verify_crc
       (FEC.flip_bit i (FEC.flip_bit j (protected_bits final_id)))
     = Return None).
Proof.
  intros Hid Hi Hj.
  pose proof (protected_bits_length final_id) as Hlen.
  pose proof (protected_bits_is_bit final_id) as Hbits.
  pose proof (protected_bits_residue final_id Hid) as Hzero.
  destruct (unit_residues i j Hi Hj) as [Hri Hrij].
  assert (∀ k, (k < 40)%nat →
            FEC.flip_bit k (protected_bits final_id)
            = zip_with Z.lxor (protected_bits final_id) (unit_bits 40 k))
    as Hflip.
  { intros k Hk. rewrite flip_bit_lxor by (done || lia). by rewrite Hlen. }
  split.
  - apply verify_crc_residue.
    + unfold FEC.flip_bit. by rewrite length_insert.
    + rewrite Hflip, crc_residue_lxor, Hzero, Z.lxor_0_l
        by (done || apply unit_bits_is_bit || by rewrite unit_bits_length).
      done.
  - intros Hne. apply verify_crc_residue.
    + unfold FEC.flip_bit. by rewrite !length_insert.
    + rewrite (Hflip j Hj).
      rewrite flip_bit_lxor;
        [|by apply Forall_zip_lxor, unit_bits_is_bit
         |rewrite length_zip_with, unit_bits_length; lia].
      rewrite length_zip_with, unit_bits_length, Hlen. cbn [Nat.min].
      rewrite !crc_residue_lxor, Hzero, Z.lxor_0_l;
        try done; try apply unit_bits_is_bit;
        try (by apply Forall_zip_lxor, unit_bits_is_bit);
        rewrite ?length_zip_with, ?unit_bits_length; try lia.
      rewrite Z.lxor_eq_0_iff. intros Heq. by apply Hrij.
Qed.

Lemma crc_rejects_one_or_two_inversions_witness :
  0 ≤ 268558912 < 2 ^ 32 ∧ (3 < 40)%nat ∧ (35 < 40)%nat ∧
  DeepSeal.verify_crc (FEC.flip_bit 3 (protected_bits 268558912)) = Return None
  ∧ (3%nat ≠ 35%nat →
     DeepSeal.verify_crc
       (FEC.flip_bit 3 (FEC.flip_bit 35 (protected_bits 268558912)))
     = Return None).
Proof.
  assert (0 ≤ 268558912 < 2 ^ 32) as Hid by lia.
  assert (3 < 40)%nat as Hi by lia.
  assert (35 < 40)%nat as Hj by lia.
  split; [exact Hid|]. split; [exact Hi|]. split; [exact Hj|].
  exact (crc_rejects_one_or_two_inversions 268558912 3 35 Hid Hi Hj).
Defined.

(** ** deepseal.py: bits and integers *)

(** X9.  [_bits_to_int] after [_int_to_bits] keeps the low [num_bits] bits
    of the value: every integer, negative ones included, comes back reduced
    modulo [2^num_bits]. *)
Theorem int_to_bits_round_trip (val : Z) (num_bits : nat) :
  DeepSeal.bits_to_int (DeepSeal.int_to_bits val num_bits)
  = val mod 2 ^ Z.of_nat num_bits.
Proof.
  unfold DeepSeal.bits_to_int. rewrite bits_fold_int_to_bits by done. lia.
Qed.

Lemma int_to_bits_snoc v n :
  DeepSeal.int_to_bits v (S n)
  = DeepSeal.int_to_bits (v / 2) n ++ [v mod 2].
Proof.
  unfold DeepSeal.int_to_bits.
  change (seq 0 (S n)) with (0%nat :: seq 1 n).
  rewrite <- seq_shift. cbn [rev]. rewrite map_app, <- map_rev, map_map.
  cbn [map]. rewrite Z.shiftr_0_r, land_1_mod. f_equal.
  apply map_ext. intros i.
  change (v / 2) with (v / 2 ^ 1). rewrite <- Z.shiftr_div_pow2 by lia.
  rewrite Z.shiftr_shiftr by lia. do 2 f_equal. lia.
Qed.

(** X10.  [_int_to_bits] after [_bits_to_int] gives back every array of
    bits, at its own length: no two arrays of [n] bits stand for the same
    integer. *)
Theorem bits_to_int_round_trip (bits : list Z) :
  Forall FEC.is_bit bits →
  DeepSeal.int_to_bits (DeepSeal.bits_to_int bits) (length bits) = bits.
Proof.
  induction bits as [|b bits IH] using rev_ind; intros Hbits; [done|].
  apply Forall_app in Hbits as [Hbits Hb]. apply Forall_cons in Hb as [Hb _].
  rewrite length_app, Nat.add_1_r, int_to_bits_snoc.
  unfold DeepSeal.bits_to_int. rewrite fold_left_app. cbn [fold_left].
  fold (DeepSeal.bits_to_int bits).
  pose proof (bits_to_int_bound bits) as [Hnn _].
  rewrite bits_to_int_step by done.
  assert (Z.b2z (1 <? 2 * b) = b) as -> by (by destruct Hb as [-> | ->]).
  assert ((2 * DeepSeal.bits_to_int bits + b) / 2 = DeepSeal.bits_to_int bits)
    as -> by (symmetry; apply (Z.div_unique_pos _ 2 _ b);
              destruct Hb as [-> | ->]; lia).
  assert ((2 * DeepSeal.bits_to_int bits + b) mod 2 = b)
    as -> by (symmetry;
              apply (Z.mod_unique_pos _ 2 (DeepSeal.bits_to_int bits) b);
              destruct Hb as [-> | ->]; lia).
  by rewrite IH.
Qed.

Lemma bits_to_int_round_trip_witness :
  Forall FEC.is_bit [1; 0; 0; 1; 1] ∧
  DeepSeal.int_to_bits (DeepSeal.bits_to_int [1; 0; 0; 1; 1])
    (length [1; 0; 0; 1; 1]) = [1; 0; 0; 1; 1].
Proof.
  assert (Forall FEC.is_bit [1; 0; 0; 1; 1]) as Hbits.
  { repeat constructor; unfold FEC.is_bit; lia. }
  split; [exact Hbits|].
  exact (bits_to_int_round_trip [1; 0; 0; 1; 1] Hbits).
Defined.

(** ** deepseal.py: embed, further *)

(** X11.  [embed] reads the first [102 * chip_rate] samples of the host and
    nothing after them: when it returns on a host, it returns on every
    extension of that host, with the same watermarked frame followed by the
    added samples as they were. *)
Theorem embed_ignores_tail {K : Kernel} (self : DeepSeal.t)
    (audio tail watermarked : list sample) (watermark_id : Z) :
  DeepSeal.embed_array self audio watermark_id = Return watermarked →
  DeepSeal.embed_array self (audio ++ tail) watermark_id
  = Return (watermarked ++ tail).
Proof.
  unfold DeepSeal.embed_array, DeepSeal.embed.
  change (DeepSeal.deref [audio] 0) with audio.
  change (DeepSeal.deref [audio ++ tail] 0) with (audio ++ tail).
  unfold DeepSeal.embed_signal.
  destruct (DeepSeal.modulate self watermark_id) as [s|e];
    cbn [mbind result_bind]; [|discriminate].
  destruct (Nat.ltb_spec (length audio) (length s)) as [|Hlen];
    [discriminate|].
  destruct (Nat.ltb_spec (length (audio ++ tail)) (length s)) as [Hlt|_];
    [rewrite length_app in Hlt; lia|].
  rewrite !slice_to_eq, Nat2Z.id by lia.
  rewrite (take_app_le audio tail) by done.
  destruct (Np.zip s_mul _ _) as [w|e]; cbn [mbind result_bind];
    [|discriminate].
  unfold DeepSeal.alloc.
  change (DeepSeal.deref ([audio] ++ [audio]) (length [audio])) with audio.
  change (DeepSeal.deref ([audio ++ tail] ++ [audio ++ tail])
            (length [audio ++ tail])) with (audio ++ tail).
  rewrite !slice_to_eq, !slice_from_eq, Nat2Z.id by lia.
  rewrite (take_app_le audio tail), (drop_app_le audio tail) by done.
  destruct (Np.zip s_add _ w) as [sum|e]; cbn [mbind result_bind];
    [|discriminate].
  cbn. intros [= <-]. by rewrite <- app_assoc.
Qed.

Lemma embed_ignores_tail_witness :
  DeepSeal.embed_array Demo.self (replicate 102 0) 5 = Return Demo.watermarked
  ∧ DeepSeal.embed_array Demo.self (replicate 102 0 ++ [7; 8; 9]) 5
    = Return (Demo.watermarked ++ [7; 8; 9]).
Proof.
  assert (DeepSeal.embed_array Demo.self (replicate 102 0) 5
          = Return Demo.watermarked) as Hrun by (vm_compute; reflexivity).
  split; [exact Hrun|].
  exact (embed_ignores_tail (K := IntKernel.kernel) Demo.self
           (replicate 102 0) [7; 8; 9] Demo.watermarked 5 Hrun).
Defined.

(** X12.  [embed] writes to no array that existed before the call, whatever
    its arguments and whether it returns or raises: the store afterwards
    begins with the store before.  When it returns, the array returned is a
    new one, the only one added. *)
Theorem embed_preserves_store {K : Kernel} (self : DeepSeal.t)
    (h : list (list sample)) (audio : nat) (watermark_id : Z) :
  take (length h) (DeepSeal.embed self h audio watermark_id).2 = h
  ∧ ∀ l, (DeepSeal.embed self h audio watermark_id).1 = Return l →
         l = length h
         ∧ length (DeepSeal.embed self h audio watermark_id).2
           = S (length h).
Proof.
  unfold DeepSeal.embed.
  destruct (DeepSeal.embed_signal self (DeepSeal.deref h audio) watermark_id)
    as [[s w]|e]; [|split; [by rewrite take_ge|done]].
  unfold DeepSeal.alloc.
  destruct (Np.zip s_add _ w) as [sum|e]; cbn [fst snd].
  - split.
    + rewrite take_insert_ge by lia. apply take_app_length.
    + intros l [= <-]. split; [done|].
      rewrite length_insert, length_app. cbn. lia.
  - split; [by rewrite take_app_length|done].
Qed.

(** X13.  A negative identifier passes the 28-bit test and fails in
    [to_bytes]: [embed] raises [OverflowError], not the error of an
    identifier that is too large, and leaves the store as it was. *)
Theorem embed_negative_id {K : Kernel} (self : DeepSeal.t)
    (h : list (list sample)) (audio : nat) (watermark_id : Z) :
  watermark_id < 0 →
  DeepSeal.embed self h audio watermark_id = (Raise OverflowError, h).
Proof.
  intros Hneg. apply embed_signal_Raise.
  unfold DeepSeal.embed_signal, DeepSeal.modulate.
  destruct (Z.leb_spec (2 ^ 28) watermark_id) as [Hle|_]; [lia|].
  unfold DeepSeal.to_bytes_big.
  assert (Z.lor (Z.shiftl 1 28) watermark_id < 0) as Hlor
    by (apply Z.lor_neg; by right).
  destruct (Z.ltb_spec (Z.lor (Z.shiftl 1 28) watermark_id) 0); [done|lia].
Qed.

Lemma embed_negative_id_witness :
  -1 < 0
  ∧ DeepSeal.embed Demo.self [replicate 102 0] 0 (-1)
    = (Raise OverflowError, [replicate 102 0]).
Proof.
  assert (-1 < 0) as Hneg by reflexivity.
  split; [exact Hneg|].
  exact (embed_negative_id (K := IntKernel.kernel) Demo.self
           [replicate 102 0] 0 (-1) Hneg).
Defined.

(** X14.  The FFT size of [_shape_spectrum] is the least power of two that
    is not below the length of the frame: for two arrays of one length
    [n >= 1] the shaping runs on [2^k] points with [n <= 2^k < 2 n], and its
    result is cut back to [n] samples. *)
Theorem shape_spectrum_fft_size {K : Kernel} (noise audio : list sample) :
  length noise = length audio → (1 ≤ length audio)%nat →
  ∃ k, 0 ≤ k
     ∧ Z.of_nat (length audio) ≤ 2 ^ k < 2 * Z.of_nat (length audio)
     ∧ DeepSeal.shape_spectrum noise audio
       = Np.slice_to (spectral_shape (2 ^ k) noise audio)
           (Z.of_nat (length audio)).
Proof.
  intros Hlen Hpos. unfold DeepSeal.shape_spectrum.
  rewrite Hlen, Nat.eqb_refl. cbn [negb].
  assert (1 ≤ Z.of_nat (length audio)) as Hn by lia.
  revert Hn. generalize (Z.of_nat (length audio)). intros n Hn.
  exists (DeepSeal.bit_length (n - 1)). rewrite Z.shiftl_1_l.
  split; [|split; [|done]]; unfold DeepSeal.bit_length;
    destruct (Z.eqb_spec (n - 1) 0) as [H0|Hne]; try lia.
  - pose proof (Z.log2_nonneg (Z.abs (n - 1))). lia.
  - rewrite Z.abs_eq by lia.
    pose proof (Z.log2_nonneg (n - 1)).
    pose proof (Z.log2_spec (n - 1) ltac:(lia)) as [Hlo Hhi].
    rewrite Z.pow_succ_r in Hhi by done.
    change (Z.log2 (n - 1) + 1) with (Z.succ (Z.log2 (n - 1))).
    rewrite Z.pow_succ_r by done. lia.
Qed.

Lemma shape_spectrum_fft_size_witness :
  length [1; 2; 3; 4; 5] = length [5; 4; 3; 2; 1]
  ∧ (1 ≤ length [5; 4; 3; 2; 1])%nat
  ∧ ∃ k, 0 ≤ k
     ∧ Z.of_nat (length [5; 4; 3; 2; 1]) ≤ 2 ^ k
       < 2 * Z.of_nat (length [5; 4; 3; 2; 1])
     ∧ DeepSeal.shape_spectrum (K := IntKernel.kernel)
         [1; 2; 3; 4; 5] [5; 4; 3; 2; 1]
       = Np.slice_to
           (spectral_shape (Kernel := IntKernel.kernel) (2 ^ k)
              [1; 2; 3; 4; 5] [5; 4; 3; 2; 1])
           (Z.of_nat (length [5; 4; 3; 2; 1])).
Proof.
  assert (1 ≤ length [5; 4; 3; 2; 1])%nat as Hpos by (cbn; lia).
  split; [reflexivity|]. split; [exact Hpos|].
  exact (shape_spectrum_fft_size (K := IntKernel.kernel)
           [1; 2; 3; 4; 5] [5; 4; 3; 2; 1] eq_refl Hpos).
Defined.

(** ** deepseal.py: the seed and the interleaver *)

Lemma from_bytes_big_bound (bs : list Z) acc :
  Forall is_byte bs → 0 ≤ acc →
  0 ≤ fold_left (λ acc b, acc * 256 + b) bs acc
  < (acc + 1) * 256 ^ Z.of_nat (length bs).
Proof.
  intros Hbs. revert acc.
  induction Hbs as [|b bs Hb _ IH]; intros acc Hacc; [cbn; lia|].
  cbn [fold_left length]. unfold is_byte in Hb.
  specialize (IH (acc * 256 + b) ltac:(lia)).
  rewrite Nat2Z.inj_succ, Z.pow_succ_r by lia. nia.
Qed.

(** X15.  Whatever the key, the seed that the constructor derives when no
    explicit seed is given lies in [0, 2^32), the range of seeds that
    [RandomState] accepts. *)
Theorem derived_seed_range (key : option string) :
  0 ≤ DeepSeal.derive_seed None key < 2 ^ 32.
Proof.
  unfold DeepSeal.derive_seed. destruct key as [k|]; [|lia].
  destruct (DeepSeal.truthy k); [|lia].
  set (hash_bytes := SHA256.sha256 (SHA256.encode_utf8 k)).
  assert (Forall is_byte (take 4 hash_bytes)) as Hbytes.
  { apply Forall_take. unfold hash_bytes, SHA256.sha256.
    apply Forall_concat, Forall_fmap, Forall_forall. intros w _.
    apply bytes_big_byte. }
  pose proof (from_bytes_big_bound (take 4 hash_bytes) 0 Hbytes ltac:(lia))
    as [Hlo Hhi].
  unfold PyInt.from_bytes_big. split; [done|].
  eapply Z.lt_le_trans; [exact Hhi|].
  rewrite Z.add_0_l, Z.mul_1_l. change (2 ^ 32) with (256 ^ 4).
  apply Z.pow_le_mono_r; [lia|]. rewrite length_take. lia.
Qed.

(** X16.  De-interleaving undoes interleaving: for every array, taking it
    through the permutation drawn from the constant seed, as [embed] does,
    and then through the [argsort] of that permutation, as [extract] does,
    gives the array back. *)
Theorem deinterleave_inverts_interleave {K : Kernel} {L : KernelLaws K}
    (encoded_bits : list Z) :
  ∃ interleaved_bits,
    Np.take_indices encoded_bits
      (DeepSeal.perm_indices (length encoded_bits)) = Return interleaved_bits
    ∧ DeepSeal.deinterleave interleaved_bits = Return encoded_bits.
Proof.
  destruct (interleave_round_trip encoded_bits) as (il & Hil & _ & Hde).
  by exists il.
Qed.

Lemma deinterleave_inverts_interleave_witness :
  ∃ interleaved_bits,
    Np.take_indices [1; 0; 1; 1; 0; 0; 1]
      (DeepSeal.perm_indices (K := IntKernel.kernel)
         (length [1; 0; 1; 1; 0; 0; 1])) = Return interleaved_bits
    ∧ DeepSeal.deinterleave (K := IntKernel.kernel) interleaved_bits
      = Return [1; 0; 1; 1; 0; 0; 1].
Proof.
  exact (deinterleave_inverts_interleave (K := IntKernel.kernel)
           (L := int_kernel_laws) [1; 0; 1; 1; 0; 0; 1]).
Defined.

(** ** realtime.py: below one frame *)

Lemma set_buffer_twice {K : Kernel} (self : RealTimeInjector.t) b1 b2 :
  RealTimeInjector.set_buffer (RealTimeInjector.set_buffer self b1) b2
  = RealTimeInjector.set_buffer self b2.
Proof. done. Qed.

(** X17.  While the buffer and the stream together hold fewer samples than
    one chunk ([chunk_size]), [process_stream] embeds nothing: it yields the
    samples once, joined in one array and unchanged, when the stream ends
    (nothing when there are none), and keeps them in its buffer. *)
Theorem process_stream_below_one_frame {K : Kernel}
    (self : RealTimeInjector.t) (audio_stream : list (list sample)) :
  Z.of_nat (length (RealTimeInjector.buffer self ++ concat audio_stream))
    < RealTimeInjector.chunk_size self →
  RealTimeInjector.process_stream self audio_stream
  = (match RealTimeInjector.buffer self ++ concat audio_stream with
     | [] => []
     | total => [total]
     end,
     RealTimeInjector.Exhausted,
     RealTimeInjector.set_buffer self
       (RealTimeInjector.buffer self ++ concat audio_stream)).
Proof.
  revert self. induction audio_stream as [|chunk rest IH]; intros self Hlen.
  - cbn [concat RealTimeInjector.process_stream].
    rewrite app_nil_r, set_buffer_same.
    by destruct (RealTimeInjector.buffer self).
  - cbn [concat RealTimeInjector.process_stream].
    set (self1 := RealTimeInjector.set_buffer self
                    (RealTimeInjector.buffer self ++ chunk)).
    rewrite (drain_below _ self1).
    2:{ cbn. cbn [concat] in Hlen. rewrite !length_app in *. lia. }
    rewrite IH.
    2:{ cbn. cbn [concat] in Hlen. by rewrite <- app_assoc. }
    cbn [RealTimeInjector.buffer self1 RealTimeInjector.set_buffer].
    unfold self1. rewrite set_buffer_twice.
    cbn [RealTimeInjector.buffer RealTimeInjector.set_buffer].
    by rewrite <- !app_assoc.
Qed.

Lemma process_stream_below_one_frame_witness :
  Z.of_nat
    (length (RealTimeInjector.buffer
               (RealTimeInjector.init (K := IntKernel.kernel) 5 1 44100)
             ++ concat [[1; 2]; [3]]))
    < RealTimeInjector.chunk_size
        (RealTimeInjector.init (K := IntKernel.kernel) 5 1 44100)
  ∧ RealTimeInjector.process_stream
      (RealTimeInjector.init (K := IntKernel.kernel) 5 1 44100)
      [[1; 2]; [3]]
    = (match RealTimeInjector.buffer
               (RealTimeInjector.init (K := IntKernel.kernel) 5 1 44100)
             ++ concat [[1; 2]; [3]] with
       | [] => []
       | total => [total]
       end,
       RealTimeInjector.Exhausted,
       RealTimeInjector.set_buffer
         (RealTimeInjector.init (K := IntKernel.kernel) 5 1 44100)
         (RealTimeInjector.buffer
            (RealTimeInjector.init (K := IntKernel.kernel) 5 1 44100)
          ++ concat [[1; 2]; [3]])).
Proof.
  assert (Z.of_nat
            (length (RealTimeInjector.buffer
                       (RealTimeInjector.init (K := IntKernel.kernel)
                          5 1 44100)
                     ++ concat [[1; 2]; [3]]))
          < RealTimeInjector.chunk_size
              (RealTimeInjector.init (K := IntKernel.kernel) 5 1 44100))
    as Hlen by reflexivity.
  split; [exact Hlen|].
  exact (process_stream_below_one_frame (K := IntKernel.kernel)
           (RealTimeInjector.init (K := IntKernel.kernel) 5 1 44100)
           [[1; 2]; [3]] Hlen).
Defined.

(** ** deepseal.py: inverted bits in the frame *)

Lemma verify_crc_protected final_id :
  0 ≤ final_id < 2 ^ 32 →
  DeepSeal.verify_crc (protected_bits final_id)
  = Return (Some (Z.land final_id 0x0FFFFFFF)).
Proof.
  intros Hid.
  pose proof (verify_crc_40 _ (protected_bits_length final_id)) as Hv.
  cbv zeta in Hv. destruct Hv as [_ Hv]. rewrite Hv. clear Hv.
  assert (take 32 (protected_bits final_id)
          = DeepSeal.int_to_bits final_id 32) as ->
    by (unfold protected_bits;
        by rewrite take_app_length' by (by rewrite int_to_bits_length)).
  assert (drop 32 (protected_bits final_id)
          = DeepSeal.int_to_bits (FEC.crc8 (PyInt.bytes_big 4 final_id)) 8)
    as -> by (unfold protected_bits;
              by rewrite drop_app_length' by (by rewrite int_to_bits_length)).
  pose proof (crc8_range (PyInt.bytes_big 4 final_id)) as Hcrc.
  rewrite (bits_to_int_int_to_bits final_id 32) by done.
  rewrite (bits_to_int_int_to_bits _ 8)
    by (change (2 ^ Z.of_nat 8) with 256; lia).
  by rewrite Z.eqb_refl.
Qed.

Lemma flip_bit_length k c : length (FEC.flip_bit k c) = length c.
Proof. apply length_insert. Qed.

(** The blocks of an array with one bit inverted. *)
Lemma block_of_flip c k t :
  block_of (FEC.flip_bit k c) t
  = corrupt (if decide (t * 7 ≤ k < t * 7 + 7)%nat
             then Some (k - t * 7)%nat else None)
      (block_of c t).
Proof.
  unfold block_of, FEC.flip_bit.
  destruct (decide _) as [[Hlo Hhi]|Hout]; cbn [corrupt].
  - unfold FEC.flip_bit. rewrite drop_insert_ge, take_insert_lt by lia.
    do 2 f_equal. rewrite !nth_lookup, lookup_take, lookup_drop.
    destruct (decide (k - t * 7 < 7)%nat); [|lia]. do 2 f_equal. lia.
  - destruct (decide (k < t * 7)%nat).
    + by rewrite drop_insert_lt.
    + by rewrite drop_insert_ge, take_insert_ge by lia.
Qed.

Lemma encoded_block bits k t :
  (t < S k)%nat →
  block_of (concat (map (FEC.encode_nibble bits) (seq 0 (S k)))) t
  = FEC.encode_nibble bits t.
Proof.
  intros Ht. unfold block_of. apply concat_block.
  - apply Forall_forall. intros l (j & -> & _)%list_elem_of_fmap.
    apply encode_nibble_length.
  - change (map (FEC.encode_nibble bits) (seq 0 (S k)))
      with (FEC.encode_nibble bits <$> seq 0 (S k)).
    by rewrite list_lookup_fmap, lookup_seq_lt.
Qed.

Lemma encoded_length bits k :
  length (concat (map (FEC.encode_nibble bits) (seq 0 (S k)))) = (7 * S k)%nat.
Proof.
  rewrite (concat_length_const _ 7).
  - by rewrite length_map, length_seq.
  - apply Forall_forall. intros l (j & -> & _)%list_elem_of_fmap.
    apply encode_nibble_length.
Qed.

(** Blocks that each are a code word with at most one inverted bit decode
    to the bits encoded. *)
Lemma decode_hamming_damaged bits k damaged :
  length bits = (4 * S k)%nat → Forall FEC.is_bit bits →
  length damaged = (7 * S k)%nat →
  (∀ t, (t < S k)%nat →
        ∃ e, (∀ j, e = Some j → (j < 7)%nat)
           ∧ block_of damaged t = corrupt e (FEC.encode_nibble bits t)) →
  FEC.decode_hamming damaged = Return bits.
Proof.
  intros Hlen Hbits Hd Hblocks. rewrite (decode_hamming_eq damaged k Hd).
  f_equal.
  transitivity (concat (map (λ i, take 4 (drop (i * 4) bits)) (seq 0 (S k))));
    [|apply concat_chunks; lia].
  f_equal. apply Forall_fmap_ext, Forall_forall. intros t Ht.
  apply elem_of_seq in Ht.
  destruct (Hblocks t ltac:(lia)) as (e & He & Hb).
  change (FEC.decode_block damaged t)
    with (take 4 (FEC.correct_block (block_of damaged t))).
  rewrite Hb. unfold FEC.encode_nibble. apply block_round_trip.
  - rewrite length_take, length_drop. lia.
  - by apply Forall_take_drop.
  - done.
Qed.

(** Reading through a list of distinct indices commutes with writing. *)
Lemma take_indices_insert {A} (xs : list A) (idx : list nat) i k v ys :
  NoDup idx → Forall (λ a, a < length xs)%nat idx →
  idx !! i = Some k →
  Np.take_indices xs idx = Return ys →
  Np.take_indices (<[k := v]> xs) idx = Return (<[i := v]> ys).
Proof.
  intros Hnd Hin Hi Hys.
  destruct (take_indices_Return xs idx Hin) as (ys0 & Hys0 & Hlen0 & Hspec0).
  rewrite Hys in Hys0. injection Hys0 as <-.
  destruct (take_indices_Return (<[k := v]> xs) idx) as (ys' & -> & Hlen & Hspec).
  { by rewrite length_insert. }
  f_equal. apply list_eq. intros j.
  destruct (decide (j < length idx)%nat) as [Hj|Hj].
  - destruct (lookup_lt_is_Some_2 idx j Hj) as [a Ha].
    rewrite (Hspec j a Ha).
    destruct (decide (j = i)) as [->|Hne].
    + assert (a = k) as -> by congruence.
      rewrite !list_lookup_insert_eq; [done|lia|].
      rewrite Forall_forall in Hin. apply Hin.
      by apply list_elem_of_lookup_2 in Hi.
    + rewrite !list_lookup_insert_ne; [by rewrite (Hspec0 j a Ha)|done|].
      intros ->. apply Hne. by apply (NoDup_lookup idx j i a).
  - rewrite !lookup_ge_None_2; [done| |lia].
    rewrite length_insert. lia.
Qed.

Lemma perm_indices_NoDup {K : Kernel} {L : KernelLaws K} n :
  NoDup (DeepSeal.perm_indices n).
Proof. rewrite perm_indices_perm. apply NoDup_seq. Qed.

(** Inverting bit [i] of the interleaved array is inverting, before the
    interleaving, the bit that the permutation sends there. *)
Lemma interleave_flip {K : Kernel} {L : KernelLaws K}
    (c frame : list Z) n i k :
  length c = n →
  Np.take_indices c (DeepSeal.perm_indices n) = Return frame →
  DeepSeal.perm_indices n !! i = Some k →
  Np.take_indices (FEC.flip_bit k c) (DeepSeal.perm_indices n)
  = Return (FEC.flip_bit i frame).
Proof.
  intros <- Hframe Hi. unfold FEC.flip_bit.
  destruct (take_indices_Return c (DeepSeal.perm_indices (length c))
              (perm_indices_lt _)) as (ys0 & Hys0 & _ & Hspec).
  rewrite Hframe in Hys0. injection Hys0 as <-.
  assert (nth i frame 0 = nth k c 0) as ->
    by (by rewrite !nth_lookup, (Hspec i k Hi)).
  apply take_indices_insert;
    [apply perm_indices_NoDup|apply perm_indices_lt|done|done].
Qed.

Lemma deinterleave_interleaved {K : Kernel} {L : KernelLaws K}
    (c il : list Z) n :
  length c = n →
  Np.take_indices c (DeepSeal.perm_indices n) = Return il →
  DeepSeal.deinterleave il = Return c.
Proof.
  intros <- Hil. destruct (interleave_round_trip c) as (il' & Hil' & _ & Hde).
  rewrite Hil in Hil'. by injection Hil' as <-.
Qed.

(** The frame of an identifier: the code of its protected bits, read
    through the permutation. *)
Lemma frame_structure {K : Kernel} {L : KernelLaws K} final_id :
  0 ≤ final_id < 2 ^ 32 →
  let c := concat (map (FEC.encode_nibble (protected_bits final_id))
                       (seq 0 10)) in
  ∃ frame, DeepSeal.frame_payload_bits final_id = Return frame
         ∧ Np.take_indices c (DeepSeal.perm_indices 70) = Return frame
         ∧ length c = 70%nat.
Proof.
  intros Hid c.
  pose proof (encoded_length (protected_bits final_id) 9) as Hc.
  fold c in Hc. change (7 * 10)%nat with 70%nat in Hc.
  destruct (take_indices_Return c (DeepSeal.perm_indices 70)) as (frame & Hframe & _).
  { rewrite Hc. apply perm_indices_lt. }
  exists frame. split; [|done].
  unfold DeepSeal.frame_payload_bits.
  rewrite to_bytes_big_Return by (change (256 ^ Z.of_nat 4) with (2 ^ 32); lia).
  cbn [mbind result_bind]. fold (protected_bits final_id).
  rewrite (encode_hamming_eq (protected_bits final_id) 9)
    by apply protected_bits_length.
  cbn [mbind result_bind]. fold c. rewrite Hc. exact Hframe.
Qed.

(** X18.  One inverted bit anywhere among the 70 bits of the payload is
    repaired: de-interleaving, Hamming decoding and the CRC test of
    [extract] return the identifier that [embed] put into the frame. *)
Theorem frame_single_inversion_corrected {K : Kernel} {L : KernelLaws K}
    (final_id : Z) (i : nat) :
  0 ≤ final_id < 2 ^ 32 → (i < 70)%nat →
  ∃ frame, DeepSeal.frame_payload_bits final_id = Return frame
         ∧ DeepSeal.decode_raw_bits (FEC.flip_bit i frame)
           = Return (Some (Z.land final_id 0x0FFFFFFF)).
Proof.
  intros Hid Hi.
  destruct (frame_structure final_id Hid) as (frame & Hframe & Hil & Hc).
  set (c := concat (map (FEC.encode_nibble (protected_bits final_id))
                        (seq 0 10))) in *.
  exists frame. split; [done|].
  destruct (lookup_lt_is_Some_2 (DeepSeal.perm_indices 70) i)
    as [k Hk]; [rewrite perm_indices_length; lia|].
  pose proof (interleave_flip c frame 70 i k Hc Hil Hk) as Hflip.
  apply deinterleave_interleaved in Hflip; [|by rewrite flip_bit_length].
  unfold DeepSeal.decode_raw_bits. rewrite Hflip. cbn [mbind result_bind].
  rewrite (decode_hamming_damaged (protected_bits final_id) 9).
  - cbn [mbind result_bind]. by apply verify_crc_protected.
  - apply protected_bits_length.
  - apply protected_bits_is_bit.
  - by rewrite flip_bit_length.
  - intros t Ht. rewrite block_of_flip. unfold c.
    rewrite encoded_block by done. eexists. split; [|done].
    intros j. destruct (decide _); intros [= <-]. lia.
Qed.

Lemma frame_single_inversion_corrected_witness :
  0 ≤ 268558912 < 2 ^ 32 ∧ (10 < 70)%nat ∧
  ∃ frame,
    DeepSeal.frame_payload_bits (K := IntKernel.kernel) 268558912
    = Return frame
    ∧ DeepSeal.decode_raw_bits (K := IntKernel.kernel) (FEC.flip_bit 10 frame)
      = Return (Some (Z.land 268558912 0x0FFFFFFF)).
Proof.
  assert (0 ≤ 268558912 < 2 ^ 32) as Hid by lia.
  assert (10 < 70)%nat as Hi by lia.
  split; [exact Hid|]. split; [exact Hi|].
  exact (frame_single_inversion_corrected (K := IntKernel.kernel)
           (L := int_kernel_laws) 268558912 10 Hid Hi).
Defined.

Lemma zip_lxor_twice (a b : list Z) :
  length a = length b →
  zip_with Z.lxor a (zip_with Z.lxor a b) = b.
Proof.
  revert b. induction a as [|x a IH]; intros [|y b] Hlen;
    try discriminate Hlen; [done|].
  cbn. rewrite <- Z.lxor_assoc, Z.lxor_nilpotent, Z.lxor_0_l.
  f_equal. apply IH. by injection Hlen.
Qed.

(** Two inverted bits in a code word: the decoder returns the nibble with
    some of its bits inverted, never none of them. *)
Lemma double_error_nibble (n : list Z) (i j : nat) :
  length n = 4%nat → Forall FEC.is_bit n →
  (i < 7)%nat → (j < 7)%nat → i ≠ j →
  ∃ v, 1 ≤ v < 16
     ∧ take 4 (FEC.correct_block
                 (FEC.flip_bit i
                    (FEC.flip_bit j (map (λ x, x mod 2) (FEC.vec_mat n FEC.G)))))
       = zip_with Z.lxor n (DeepSeal.int_to_bits v 4).
Proof.
  intros Hlen Hbits Hi Hj Hne.
  destruct n as [|d1 [|d2 [|d3 [|d4 [|? ?]]]]]; try discriminate Hlen.
  apply Forall_cons in Hbits as [H1 Hbits].
  apply Forall_cons in Hbits as [H2 Hbits].
  apply Forall_cons in Hbits as [H3 Hbits].
  apply Forall_cons in Hbits as [H4 _].
  destruct H1 as [-> | ->], H2 as [-> | ->], H3 as [-> | ->], H4 as [-> | ->];
    (destruct (below_seven i Hi) as [->|[->|[->|[->|[->|[->| ->]]]]]];
     destruct (below_seven j Hj) as [->|[->|[->|[->|[->|[->| ->]]]]]];
     try (by destruct Hne);
     match goal with
     | |- ∃ v, _ ∧ ?lhs = zip_with Z.lxor ?n _ =>
         let v := eval vm_compute in
                    (DeepSeal.bits_to_int (zip_with Z.lxor n lhs)) in
         exists v; split; [lia|vm_compute; reflexivity]
     end).
Qed.

Lemma nibble_residues_table :
  forallb (λ b,
    forallb (λ v, negb (crc_residue (nibble_error b v) =? 0))
      (map Z.of_nat (seq 1 15)))
    (seq 0 10) = true.
Proof. vm_compute. reflexivity. Qed.

Lemma nibble_residue b v :
  (b < 10)%nat → 1 ≤ v < 16 → crc_residue (nibble_error b v) ≠ 0.
Proof.
  intros Hb Hv. pose proof nibble_residues_table as Ht.
  rewrite forallb_forall in Ht. specialize (Ht b ltac:(apply in_seq; lia)).
  rewrite forallb_forall in Ht. specialize (Ht v).
  apply negb_true_iff, Z.eqb_neq in Ht; [done|].
  rewrite <- (Z2Nat.id v) by lia. apply in_map, in_seq. lia.
Qed.

Lemma nibble_error_blocks b v :
  Forall (λ l : list Z, length l = 4%nat)
    (map (λ t, if (t =? b)%nat then DeepSeal.int_to_bits v 4
               else replicate 4 0) (seq 0 10)).
Proof.
  apply Forall_fmap, Forall_forall. intros t _. unfold compose. cbv beta.
  destruct (t =? b)%nat; [apply int_to_bits_length|done].
Qed.

Lemma nibble_error_length b v : length (nibble_error b v) = 40%nat.
Proof.
  unfold nibble_error.
  rewrite (concat_length_const _ 4) by apply nibble_error_blocks.
  by rewrite length_map, length_seq.
Qed.

Lemma nibble_error_is_bit b v : Forall FEC.is_bit (nibble_error b v).
Proof.
  apply Forall_concat, Forall_fmap, Forall_forall. intros t _.
  unfold compose. cbv beta.
  destruct (t =? b)%nat; [apply int_to_bits_is_bit|].
  apply Forall_replicate. by left.
Qed.

(** The CRC test fails on the protected bits with one nibble changed. *)
Lemma verify_crc_nibble_error final_id b v :
  0 ≤ final_id < 2 ^ 32 → (b < 10)%nat → 1 ≤ v < 16 →
  DeepSeal.verify_crc
    (zip_with Z.lxor (protected_bits final_id) (nibble_error b v))
  = Return None.
Proof.
  intros Hid Hb Hv. apply verify_crc_residue.
  - rewrite length_zip_with, protected_bits_length, nibble_error_length. done.
  - rewrite crc_residue_lxor, protected_bits_residue, Z.lxor_0_l;
      [by apply nibble_residue|done| | |].
    + by rewrite protected_bits_length, nibble_error_length.
    + apply protected_bits_is_bit.
    + apply nibble_error_is_bit.
Qed.

Lemma zip_with_concat_map {A B C T} (op : A → B → C)
    (f : T → list A) (h : T → list B) (l : list T) :
  Forall (λ t, length (f t) = length (h t)) l →
  zip_with op (concat (map f l)) (concat (map h l))
  = concat (map (λ t, zip_with op (f t) (h t)) l).
Proof.
  induction 1 as [|t l Ht _ IH]; [done|].
  cbn [map concat]. by rewrite zip_with_app, IH.
Qed.

(** A coded array whose blocks are code words, but for block [b] which
    decodes to its nibble changed by [v]. *)
Lemma decode_hamming_nibble_error bits damaged b v :
  length bits = 40%nat → Forall FEC.is_bit bits →
  length damaged = 70%nat →
  (∀ t, (t < 10)%nat → t ≠ b →
        block_of damaged t = FEC.encode_nibble bits t) →
  take 4 (FEC.correct_block (block_of damaged b))
  = zip_with Z.lxor (take 4 (drop (b * 4) bits)) (DeepSeal.int_to_bits v 4) →
  FEC.decode_hamming damaged
  = Return (zip_with Z.lxor bits (nibble_error b v)).
Proof.
  intros Hlen Hbits Hd Hother Hb.
  rewrite (decode_hamming_eq damaged 9) by done. f_equal.
  rewrite <- (concat_chunks bits 4 10) at 1 by done.
  unfold nibble_error. rewrite zip_with_concat_map.
  2:{ apply Forall_forall. intros t Ht. apply elem_of_seq in Ht.
      rewrite length_take, length_drop.
      destruct (t =? b)%nat;
        rewrite ?int_to_bits_length, ?length_replicate; lia. }
  f_equal. apply Forall_fmap_ext, Forall_forall. intros t Ht.
  apply elem_of_seq in Ht.
  change (FEC.decode_block damaged t)
    with (take 4 (FEC.correct_block (block_of damaged t))).
  destruct (Nat.eqb_spec t b) as [->|Hne]; [done|].
  rewrite Hother by (done || lia).
  rewrite zip_lxor_zeros by (rewrite length_take; lia).
  unfold FEC.encode_nibble. apply nibble_round_trip.
  - rewrite length_take, length_drop. lia.
  - by apply Forall_take_drop.
Qed.

(** X19.  Two inverted bits among the 70 bits of the payload never give a
    wrong identifier.  When the permutation places them in two different
    Hamming blocks both are repaired and the identifier is returned; when it
    places them in one block the Hamming decoder repairs wrongly, the CRC
    test fails and the result is [None]. *)
Theorem frame_double_inversion_never_wrong {K : Kernel} {L : KernelLaws K}
    (final_id : Z) (i j : nat) :
  0 ≤ final_id < 2 ^ 32 → (i < 70)%nat → (j < 70)%nat → i ≠ j →
  ∃ frame ki kj,
    DeepSeal.frame_payload_bits final_id = Return frame
    ∧ DeepSeal.perm_indices 70 !! i = Some ki
    ∧ DeepSeal.perm_indices 70 !! j = Some kj
    ∧ DeepSeal.decode_raw_bits (FEC.flip_bit i (FEC.flip_bit j frame))
      = Return (if (ki / 7 =? kj / 7)%nat then None
                else Some (Z.land final_id 0x0FFFFFFF)).
Proof.
  intros Hid Hi Hj Hij.
  destruct (frame_structure final_id Hid) as (frame & Hframe & Hil & Hc).
  set (c := concat (map (FEC.encode_nibble (protected_bits final_id))
                        (seq 0 10))) in *.
  destruct (lookup_lt_is_Some_2 (DeepSeal.perm_indices 70) i)
    as [ki Hki]; [rewrite perm_indices_length; lia|].
  destruct (lookup_lt_is_Some_2 (DeepSeal.perm_indices 70) j)
    as [kj Hkj]; [rewrite perm_indices_length; lia|].
  exists frame, ki, kj. do 3 (split; [done|]).
  assert (ki ≠ kj) as Hk.
  { intros ->. apply Hij.
    by apply (NoDup_lookup (DeepSeal.perm_indices 70) i j kj);
      [apply perm_indices_NoDup| |]. }
  assert (ki < 70 ∧ kj < 70)%nat as [Hki70 Hkj70].
  { pose proof (perm_indices_lt 70) as Hlt. rewrite Forall_forall in Hlt.
    split; apply Hlt; by eapply list_elem_of_lookup_2. }
  pose proof (interleave_flip c frame 70 j kj Hc Hil Hkj) as Hflip.
  apply (interleave_flip _ _ 70 i ki) in Hflip;
    [|by rewrite flip_bit_length|done].
  apply deinterleave_interleaved in Hflip; [|by rewrite !flip_bit_length].
  unfold DeepSeal.decode_raw_bits. rewrite Hflip. cbn [mbind result_bind].
  clear Hflip Hil Hframe.
  pose proof (Nat.div_mod_eq ki 7) as Hdi.
  pose proof (Nat.mod_upper_bound ki 7 ltac:(lia)) as Hmi.
  pose proof (Nat.div_mod_eq kj 7) as Hdj.
  pose proof (Nat.mod_upper_bound kj 7 ltac:(lia)) as Hmj.
  assert (∀ t, (t < 10)%nat →
            block_of (FEC.flip_bit ki (FEC.flip_bit kj c)) t
            = corrupt (if decide (t * 7 ≤ ki < t * 7 + 7)%nat
                       then Some (ki - t * 7)%nat else None)
                (corrupt (if decide (t * 7 ≤ kj < t * 7 + 7)%nat
                          then Some (kj - t * 7)%nat else None)
                   (FEC.encode_nibble (protected_bits final_id) t)))
    as Hblocks.
  { intros t Ht. rewrite !block_of_flip. unfold c.
    by rewrite encoded_block by done. }
  destruct (Nat.eqb_spec (ki / 7) (kj / 7)) as [Heq|Hne].
  - rewrite (decode_hamming_nibble_error (protected_bits final_id) _
               (ki / 7)%nat
               (DeepSeal.bits_to_int
                  (zip_with Z.lxor
                     (take 4 (drop (ki / 7 * 4) (protected_bits final_id)))
                     (take 4 (FEC.correct_block
                        (block_of (FEC.flip_bit ki (FEC.flip_bit kj c))
                           (ki / 7))))))).
    + cbn [mbind result_bind].
      destruct (double_error_nibble
                  (take 4 (drop (ki / 7 * 4) (protected_bits final_id)))
                  (ki - ki / 7 * 7) (kj - ki / 7 * 7)) as (v & Hv & Hnib);
        [rewrite length_take, length_drop, protected_bits_length; lia
        |apply Forall_take_drop, protected_bits_is_bit|lia|lia|lia|].
      rewrite Hblocks by lia.
      destruct (decide _) as [_|Hn]; [|lia].
      destruct (decide _) as [_|Hn]; [|lia].
      cbn [corrupt]. unfold FEC.encode_nibble at 1. rewrite Hnib.
      rewrite zip_lxor_twice
        by (rewrite length_take, length_drop, protected_bits_length,
              int_to_bits_length; lia).
      rewrite bits_to_int_int_to_bits
        by (change (2 ^ Z.of_nat 4) with 16; lia).
      apply verify_crc_nibble_error; [done|lia|done].
    + apply protected_bits_length.
    + apply protected_bits_is_bit.
    + by rewrite !flip_bit_length.
    + intros t Ht Htb. rewrite Hblocks by done.
      destruct (decide _) as [Hn|_]; [lia|].
      destruct (decide _) as [Hn|_]; [lia|]. done.
    + destruct (double_error_nibble
                  (take 4 (drop (ki / 7 * 4) (protected_bits final_id)))
                  (ki - ki / 7 * 7) (kj - ki / 7 * 7)) as (v & Hv & Hnib);
        [rewrite length_take, length_drop, protected_bits_length; lia
        |apply Forall_take_drop, protected_bits_is_bit|lia|lia|lia|].
      rewrite Hblocks by lia.
      destruct (decide _) as [_|Hn]; [|lia].
      destruct (decide _) as [_|Hn]; [|lia].
      cbn [corrupt]. unfold FEC.encode_nibble at 1 2. rewrite Hnib.
      rewrite zip_lxor_twice
        by (rewrite length_take, length_drop, protected_bits_length,
              int_to_bits_length; lia).
      by rewrite bits_to_int_int_to_bits
        by (change (2 ^ Z.of_nat 4) with 16; lia).
  - rewrite (decode_hamming_damaged (protected_bits final_id) 9).
    + cbn [mbind result_bind]. by apply verify_crc_protected.
    + apply protected_bits_length.
    + apply protected_bits_is_bit.
    + by rewrite !flip_bit_length.
    + intros t Ht. rewrite Hblocks by done.
      destruct (decide (t * 7 ≤ ki < t * 7 + 7)%nat) as [Hin|Hout];
        destruct (decide (t * 7 ≤ kj < t * 7 + 7)%nat) as [Hin'|Hout'].
      * exfalso. apply Hne. nia.
      * eexists. split; [|done]. intros ? [= <-]. lia.
      * eexists. split; [|done]. intros ? [= <-]. lia.
      * exists None. split; [|done]. intros ? [=].
Qed.

Lemma frame_double_inversion_never_wrong_witness :
  0 ≤ 268558912 < 2 ^ 32 ∧ (3 < 70)%nat ∧ (40 < 70)%nat ∧ 3%nat ≠ 40%nat ∧
  ∃ frame ki kj,
    DeepSeal.frame_payload_bits (K := IntKernel.kernel) 268558912
    = Return frame
    ∧ DeepSeal.perm_indices (K := IntKernel.kernel) 70 !! 3%nat = Some ki
    ∧ DeepSeal.perm_indices (K := IntKernel.kernel) 70 !! 40%nat = Some kj
    ∧ DeepSeal.decode_raw_bits (K := IntKernel.kernel)
        (FEC.flip_bit 3 (FEC.flip_bit 40 frame))
      = Return (if (ki / 7 =? kj / 7)%nat then None
                else Some (Z.land 268558912 0x0FFFFFFF)).
Proof.
  assert (0 ≤ 268558912 < 2 ^ 32) as Hid by lia.
  assert (3 < 70)%nat as Hi by lia.
  assert (40 < 70)%nat as Hj by lia.
  assert (3%nat ≠ 40%nat) as Hne by discriminate.
  split; [exact Hid|]. split; [exact Hi|]. split; [exact Hj|].
  split; [exact Hne|].
  exact (frame_double_inversion_never_wrong (K := IntKernel.kernel)
           (L := int_kernel_laws) 268558912 3 40 Hid Hi Hj Hne).
Defined.

(** ** fec.py: the distance of the code *)

(** X20.  The generator matrix of [SystematicFEC] gives a code of minimum
    distance 3: the code words of two different nibbles differ in at least
    three of their seven bits. *)
Theorem hamming_minimum_distance (d1 d2 : list Z) :
  length d1 = 4%nat → length d2 = 4%nat →
  Forall FEC.is_bit d1 → Forall FEC.is_bit d2 → d1 ≠ d2 →
  ∃ c1 c2, FEC.encode_hamming d1 = Return c1
         ∧ FEC.encode_hamming d2 = Return c2
         ∧ (3 ≤ differing c1 c2)%nat.
Proof.
  intros Hl1 Hl2 Hb1 Hb2 Hne.
  destruct d1 as [|a1 [|a2 [|a3 [|a4 [|? ?]]]]]; try discriminate Hl1.
  destruct d2 as [|b1 [|b2 [|b3 [|b4 [|? ?]]]]]; try discriminate Hl2.
  apply Forall_cons in Hb1 as [A1 Hb1]. apply Forall_cons in Hb1 as [A2 Hb1].
  apply Forall_cons in Hb1 as [A3 Hb1]. apply Forall_cons in Hb1 as [A4 _].
  apply Forall_cons in Hb2 as [B1 Hb2]. apply Forall_cons in Hb2 as [B2 Hb2].
  apply Forall_cons in Hb2 as [B3 Hb2]. apply Forall_cons in Hb2 as [B4 _].
  destruct A1 as [-> | ->], A2 as [-> | ->], A3 as [-> | ->], A4 as [-> | ->],
           B1 as [-> | ->], B2 as [-> | ->], B3 as [-> | ->], B4 as [-> | ->];
    try (by destruct Hne);
    (eexists _, _; split; [vm_compute; reflexivity|];
     split; [vm_compute; reflexivity|]; vm_compute; lia).
Qed.

Lemma hamming_minimum_distance_witness :
  length [1; 0; 1; 1] = 4%nat ∧ length [1; 0; 1; 0] = 4%nat ∧
  Forall FEC.is_bit [1; 0; 1; 1] ∧ Forall FEC.is_bit [1; 0; 1; 0] ∧
  [1; 0; 1; 1] ≠ [1; 0; 1; 0] ∧
  ∃ c1 c2, FEC.encode_hamming [1; 0; 1; 1] = Return c1
         ∧ FEC.encode_hamming [1; 0; 1; 0] = Return c2
         ∧ (3 ≤ differing c1 c2)%nat.
Proof.
  assert (Forall FEC.is_bit [1; 0; 1; 1]) as Hb1
    by (repeat constructor; unfold FEC.is_bit; lia).
  assert (Forall FEC.is_bit [1; 0; 1; 0]) as Hb2
    by (repeat constructor; unfold FEC.is_bit; lia).
  assert ([1; 0; 1; 1] ≠ [1; 0; 1; 0]) as Hne by discriminate.
  split; [reflexivity|]. split; [reflexivity|]. split; [exact Hb1|].
  split; [exact Hb2|]. split; [exact Hne|].
  exact (hamming_minimum_distance [1; 0; 1; 1] [1; 0; 1; 0]
           eq_refl eq_refl Hb1 Hb2 Hne).
Defined.

(** ** deepseal.py: the constructor and the seed *)



Example new_refuses_seed_probe :
  DeepSeal.new (K := IntKernel.kernel) (Some (-1)) None 256 44100 false
    = Raise SeedOutOfRange
  ∧ DeepSeal.new (K := IntKernel.kernel) (Some (2 ^ 32)) None 256 44100 false
    = Raise SeedOutOfRange
  ∧ DeepSeal.new (K := IntKernel.kernel) (Some (2 ^ 32 - 1)) None 256 44100
      false
    = Return (DeepSeal.init (Some (2 ^ 32 - 1)) None 256 44100 false).
Proof. split; [reflexivity|split; reflexivity]. Qed.

(** ** deepseal.py: a recording too short to synchronise on *)


(** ** deepseal.py: telecom mode at a sample rate without a filter *)

(** C4, as the specification words it, fails in telecom mode at a sample
    rate of 4000: the identifier is valid and the host too short, the claim
    has [embed] raise [HostTooShort], and the design of the band-pass
    filter, which comes before the test of the length, raises instead. *)
Lemma embed_short_host_telecom_counterexample :
  0 ≤ 5 < 2 ^ 28
  ∧ Z.of_nat (length (replicate 10 (0 : Z))) < 102 * 1
  ∧ DeepSeal.embed
      (DeepSeal.init (K := IntKernel.kernel) None None 1 4000 true)
      [replicate 10 0] 0%nat 5
    = (Raise FilterDesignError, [replicate 10 0])
  ∧ (DeepSeal.embed
       (DeepSeal.init (K := IntKernel.kernel) None None 1 4000 true)
       [replicate 10 0] 0%nat 5).1
    ≠ Raise HostTooShort.
Proof.
  assert (DeepSeal.embed
            (DeepSeal.init (K := IntKernel.kernel) None None 1 4000 true)
            [replicate 10 0] 0%nat 5
          = (Raise FilterDesignError, [replicate 10 0])) as Hrun
    by (vm_compute; reflexivity).
  split; [lia|]. split; [reflexivity|]. split; [exact Hrun|].
  rewrite Hrun. discriminate.
Qed.

(** C7, as the specification words it, fails in telecom mode at a sample
    rate of 4000: the identifier is valid and the host long enough, the
    claim has [embed] return an array, and the design of the band-pass
    filter raises. *)
Lemma embed_long_host_telecom_counterexample :
  0 ≤ 5 < 2 ^ 28
  ∧ 102 * 1 ≤ Z.of_nat (length (replicate 200 (0 : Z)))
  ∧ DeepSeal.embed
      (DeepSeal.init (K := IntKernel.kernel) None None 1 4000 true)
      [replicate 200 0] 0%nat 5
    = (Raise FilterDesignError, [replicate 200 0])
  ∧ ¬ is_Return
        (DeepSeal.embed
           (DeepSeal.init (K := IntKernel.kernel) None None 1 4000 true)
           [replicate 200 0] 0%nat 5).1.
Proof.
  assert (DeepSeal.embed
            (DeepSeal.init (K := IntKernel.kernel) None None 1 4000 true)
            [replicate 200 0] 0%nat 5
          = (Raise FilterDesignError, [replicate 200 0])) as Hrun
    by (vm_compute; reflexivity).
  split; [lia|]. split; [by vm_compute|]. split; [exact Hrun|].
  rewrite Hrun. intros [a [=]].
Qed.
